(** * management-app: position engine, real-time rooms and event bus

    A shallow embedding of the order-preserving list mutations
    (board-service/controllers/listController.js), the permission model
    (Board.hasPermission), the socket room handlers
    (board-service socketHandler) and the RabbitMQ publisher/consumer pair
    (shared-utils/rabbitmq), with the properties stated about them. *)

From Stdlib Require Import ZArith String Ascii List Lia.
From stdpp Require Import base decidable option list strings pretty gmap.

Local Open Scope string_scope.
Local Open Scope list_scope.
Local Open Scope Z_scope.

(** ** JavaScript strings *)

Module JsString.

(** [s.replace(pat, repl)] with a one-character string pattern: only the
    first occurrence is replaced. *)
Fixpoint replace (pat : ascii) (repl : string) (s : string) : string :=
  match s with
  | EmptyString => EmptyString
  | String c s' =>
      if Ascii.eqb c pat then repl +:+ s' else String c (replace pat repl s')
  end.

(** [s.split(sep)] with a one-character separator. The result is never
    empty: the empty string splits to one empty part. *)
Fixpoint split (sep : ascii) (s : string) : list string :=
  match s with
  | EmptyString => [EmptyString]
  | String c s' =>
      if Ascii.eqb c sep then EmptyString :: split sep s'
      else match split sep s' with
           | [] => [String c EmptyString]
           | p :: ps => String c p :: ps
           end
  end.

(** [`${a}.${b}`] where [b] comes from an array read and may be
    [undefined], which a template literal prints as "undefined". *)
Definition show (o : option string) : string := default "undefined" o.

(** A string is the sequence of its UTF-16 code units. The strings of
    this development are those whose code units are all below 256, one
    [ascii] for each code unit; on them [toLowerCase], [\s] and [trim]
    are the functions below. *)

Definition code (c : ascii) : Z := Z.of_N (N_of_ascii c).

Definition char (n : Z) : ascii := ascii_of_N (Z.to_N n).

Definition between (lo hi : Z) (c : ascii) : bool :=
  (lo <=? code c) && (code c <=? hi).

(** [\s]: tab, line feed, vertical tab, form feed, carriage return, space
    and no-break space. [trim] removes the same characters. *)
Definition isSpace (c : ascii) : bool :=
  between 9 13 c || (code c =? 32) || (code c =? 160).

(** [toLowerCase] of one code unit: A-Z, and the capital letters from
    U+00C0 to U+00DE without the multiplication sign U+00D7. *)
Definition lowerChar (c : ascii) : ascii :=
  if between 65 90 c || (between 192 222 c && negb (code c =? 215))
  then char (code c + 32) else c.

Fixpoint mapString (f : ascii -> ascii) (s : string) : string :=
  match s with
  | EmptyString => EmptyString
  | String c s' => String (f c) (mapString f s')
  end.

Definition toLowerCase : string -> string := mapString lowerChar.

Fixpoint trimStart (s : string) : string :=
  match s with
  | EmptyString => EmptyString
  | String c s' => if isSpace c then trimStart s' else s
  end.

Fixpoint trimEnd (s : string) : string :=
  match s with
  | EmptyString => EmptyString
  | String c s' =>
      match trimEnd s' with
      | EmptyString => if isSpace c then EmptyString else String c EmptyString
      | rest => String c rest
      end
  end.

(** [s.trim()]. *)
Definition trim (s : string) : string := trimEnd (trimStart s).

End JsString.

(** ** String helpers (shared-utils/helpers, class [StringHelpers]) *)

Module StringHelpers.

(** [\w]: [A-Za-z0-9_]. *)
Definition isWord (c : ascii) : bool :=
  JsString.between 97 122 c || JsString.between 65 90 c
  || JsString.between 48 57 c || (JsString.code c =? 95).

Definition isDash (c : ascii) : bool := Ascii.eqb c "-".

(** [toUpperCase] of a [\w] character. *)
Definition upperWordChar (c : ascii) : ascii :=
  if JsString.between 97 122 c then JsString.char (JsString.code c - 32) else c.

(** [text.replace(/[^...]/g, '')] for a character class: the characters of
    the class [keep] stay. *)
Fixpoint filterString (keep : ascii -> bool) (s : string) : string :=
  match s with
  | EmptyString => EmptyString
  | String c s' =>
      if keep c then String c (filterString keep s') else filterString keep s'
  end.

(** [text.replace(/p+/g, r)]: each maximal run of characters of the class
    [p] becomes one [r]; [inRun] tells that the character before belongs
    to a run already replaced. *)
Fixpoint replaceRuns (p : ascii -> bool) (r : ascii) (inRun : bool) (s : string)
  : string :=
  match s with
  | EmptyString => EmptyString
  | String c s' =>
      if p c then
        if inRun then replaceRuns p r true s'
        else String r (replaceRuns p r true s')
      else String c (replaceRuns p r false s')
  end.

(** The class [[a-z0-9 -]]. *)
Definition slugChar (c : ascii) : bool :=
  JsString.between 97 122 c || JsString.between 48 57 c
  || (JsString.code c =? 32) || isDash c.

(** [trim] takes no argument: the ['-'] passed to it is ignored. *)
Definition generateSlug (text : string) : string :=
  JsString.trim
    (replaceRuns isDash "-" false
       (replaceRuns JsString.isSpace "-" false
          (filterString slugChar (JsString.toLowerCase text)))).

(** [truncate], for a whole number [maxLength]; [substring(0, n)] takes
    no character when [n] is negative. *)
Definition truncate (text : string) (maxLength : Z) (suffix : string) : string :=
  if Z.of_nat (String.length text) <=? maxLength then text
  else
    String.substring 0
      (Z.to_nat (maxLength - Z.of_nat (String.length suffix))) text
    +:+ suffix.

(** [text.replace(/\w\S*/g, txt => txt.charAt(0).toUpperCase() +
    txt.substr(1).toLowerCase())]: a match starts at a [\w] character and
    runs up to the next [\s] character; [inMatch] tells that the character
    before belongs to a match. *)
Fixpoint capitalize (inMatch : bool) (s : string) : string :=
  match s with
  | EmptyString => EmptyString
  | String c s' =>
      if inMatch then
        if JsString.isSpace c then String c (capitalize false s')
        else String (JsString.lowerChar c) (capitalize true s')
      else
        if isWord c then String (upperWordChar c) (capitalize true s')
        else String c (capitalize false s')
  end.

Definition capitalizeWords : string -> string := capitalize false.

End StringHelpers.

(** ** JSON values, as [JSON.parse] returns them *)

#[local] Set Warnings "-register-all".

Inductive json : Type :=
| JNull
| JBool (b : bool)
| JNum (z : Z)
| JStr (s : string)
| JArr (items : list json)
| JObj (fields : list (string * json)).

(** ** Event publisher (shared-utils/rabbitmq/publisher.js) *)

Module Publisher.

Definition exchangeName : string := "management_app_events".

Record message : Type := Message {
  eventType : string;
  data : json;
  timestamp : string;
  id : string
}.

(** One [channel.publish] call. *)
Record published : Type := Published {
  p_exchange : string;
  p_routingKey : string;
  p_content : message;
  p_persistent : bool;
  p_messageId : string
}.

(** The broker channel is the sequence of messages published on it;
    [None] stands for a broker that cannot be reached
    ([connection.connect()] rejects). *)
Definition channel : Type := list published.

(** [routingKey || eventType.replace('.', '_')]: the empty string is the
    only falsy string, and it is also the parameter's default. *)
Definition routingPattern (eventType routingKey : string) : string :=
  if String.eqb routingKey "" then JsString.replace "." "_" eventType
  else routingKey.

(** [publishEvent(eventType, data, routingKey = '')]. [now] and [uuid]
    are the clock and the random id of the call. A failure to connect is
    logged and thrown again: [None]. *)
Definition publishEvent (conn : option channel) (now uuid : string)
    (eventType : string) (data : json) (routingKey : string)
  : option (channel * string) :=
  match conn with
  | None => None
  | Some ch =>
      let message := Message eventType data now uuid in
      let key := routingPattern eventType routingKey in
      Some (ch ++ [Published exchangeName key message true uuid], uuid)
  end.

(** The second dot-separated part of the event type:
    [eventType.split('.')[1]]. *)
Definition action (eventType : string) : option string :=
  JsString.split "." eventType !! 1%nat.

Definition publishUserEvent conn now uuid eventType userData :=
  publishEvent conn now uuid eventType userData
    ("user." +:+ JsString.show (action eventType)).

Definition publishBoardEvent conn now uuid eventType boardData :=
  publishEvent conn now uuid eventType boardData
    ("board." +:+ JsString.show (action eventType)).

Definition publishCardEvent conn now uuid eventType cardData :=
  publishEvent conn now uuid eventType cardData
    ("card." +:+ JsString.show (action eventType)).

End Publisher.

(** ** Event consumer (shared-utils/rabbitmq/consumer.js) *)

Module Consumer.

(** The loop of [matchPattern]: [i] is the loop index, [n] the number of
    iterations left; an array read past the end gives [undefined]
    ([None]). *)
Fixpoint matchLoop (routingParts patternParts : list string)
    (i n : nat) : bool :=
  match n with
  | O => Nat.eqb (length routingParts) (length patternParts)
  | S n' =>
      let routingPart := routingParts !! i in
      let patternPart := patternParts !! i in
      if bool_decide (patternPart = Some "#") then true
      else if bool_decide (patternPart = Some "*") then
        matchLoop routingParts patternParts (S i) n'
      else if bool_decide (routingPart ≠ patternPart) then false
      else matchLoop routingParts patternParts (S i) n'
  end.

Definition matchPattern (routingKey pattern : string) : bool :=
  if String.eqb pattern "#" then true
  else
    let routingParts := JsString.split "." routingKey in
    let patternParts := JsString.split "." pattern in
    matchLoop routingParts patternParts 0
      (Nat.max (length routingParts) (length patternParts)).

(** [this.handlers] is a JavaScript [Map]: iteration follows insertion
    order, and setting an existing key keeps its place. A handler either
    returns or throws (its promise rejects). *)
Inductive completion : Type := Returns | Throws.

Definition handler : Type := json -> completion.

Definition registry : Type := list (string * handler).

Fixpoint registerHandler (eventPattern : string) (handlerFunction : handler)
    (handlers : registry) : registry :=
  match handlers with
  | [] => [(eventPattern, handlerFunction)]
  | (p, h) :: rest =>
      if String.eqb p eventPattern then (eventPattern, handlerFunction) :: rest
      else (p, h) :: registerHandler eventPattern handlerFunction rest
  end.







Section Consume.

(** [JSON.parse]; [None] when it throws a SyntaxError. *)
Variable JSON_parse : string -> option json.




End Consume.

End Consumer.

(** ** Boards and their permission model (board-service/models/Board.js) *)

Record member : Type := Member {
  m_userId : string;
  m_role : string
}.

Record board : Type := Board {
  b_id : string;
  b_workspaceId : string;
  b_owner : string;
  b_members : list member;
  b_totalLists : Z;
  b_totalCards : Z
}.

(** [{ viewer: 1, member: 2, admin: 3 }[role]]; any other key reads as a
    value that no comparison accepts. *)
Definition roleHierarchy (role : string) : option Z :=
  if String.eqb role "viewer" then Some 1
  else if String.eqb role "member" then Some 2
  else if String.eqb role "admin" then Some 3
  else None.

(** JavaScript [a >= b] on the results of two such reads: false as soon as
    one side is not a number. *)
Definition js_ge (a b : option Z) : bool :=
  match a, b with
  | Some x, Some y => y <=? x
  | _, _ => false
  end.

Definition isMember (b : board) (userId : string) : bool :=
  existsb (fun m => String.eqb (m_userId m) userId) (b_members b)
  || String.eqb (b_owner b) userId.

Definition hasPermission (b : board) (userId requiredRole : string) : bool :=
  if String.eqb (b_owner b) userId then true
  else
    match List.find (fun m => String.eqb (m_userId m) userId) (b_members b) with
    | None => false
    | Some m => js_ge (roleHierarchy (m_role m)) (roleHierarchy requiredRole)
    end.

(** ** The document store: boards, lists and cards

    Only the fields the controllers below read or write are kept; dates
    ([createdAt], [archivedAt]) are left out. Positions are JavaScript
    numbers, taken here as integers: their sums with 1 and -1 are exact
    as long as the positions are safe integers, of absolute value below
    2^53. *)

Record listDoc : Type := ListDoc {
  l_id : string;
  l_name : string;
  l_boardId : string;
  l_position : Z;
  l_cardCount : Z;
  l_isArchived : bool
}.

Record cardDoc : Type := CardDoc {
  c_id : string;
  c_listId : string;
  c_isArchived : bool
}.

Record workspace : Type := Workspace {
  w_id : string;
  w_name : string;
  w_description : string;
  w_slug : string;
  w_owner : string;
  w_members : list member;
  w_isPrivate : bool;
  w_allowInvitations : bool;
  w_requireApproval : bool
}.

Record store : Type := Store {
  workspaces : list workspace;
  boards : list board;
  lists : list listDoc;
  cards : list cardDoc
}.

(** [Model.updateMany(filter, update)]. *)
Definition updateMany {A : Type} (filter : A -> bool) (update : A -> A)
    (docs : list A) : list A :=
  map (fun d => if filter d then update d else d) docs.

(** [{ $inc: { position: n } }]. *)
Definition incPosition (n : Z) (d : listDoc) : listDoc :=
  ListDoc (l_id d) (l_name d) (l_boardId d) (l_position d + n)
    (l_cardCount d) (l_isArchived d).

Definition setPosition (p : Z) (d : listDoc) : listDoc :=
  ListDoc (l_id d) (l_name d) (l_boardId d) p (l_cardCount d) (l_isArchived d).

Definition setName (name : string) (d : listDoc) : listDoc :=
  ListDoc (l_id d) name (l_boardId d) (l_position d) (l_cardCount d)
    (l_isArchived d).

Definition setArchived (a : bool) (d : listDoc) : listDoc :=
  ListDoc (l_id d) (l_name d) (l_boardId d) (l_position d) (l_cardCount d) a.

Definition archiveCard (c : cardDoc) : cardDoc :=
  CardDoc (c_id c) (c_listId c) true.

(** The filter [{ boardId, isArchived: false }]: the lists that make up
    the ordered scope of a board. *)
Definition inScope (boardId : string) (d : listDoc) : bool :=
  String.eqb (l_boardId d) boardId && negb (l_isArchived d).

Definition hasId (listId : string) (d : listDoc) : bool :=
  String.eqb (l_id d) listId.

(** [List.findById(listId)] and [Board.findById(boardId)]. *)
Definition findList (listId : string) (docs : list listDoc) : option listDoc :=
  List.find (hasId listId) docs.

Definition findBoard (boardId : string) (docs : list board) : option board :=
  List.find (fun b => String.eqb (b_id b) boardId) docs.

(** [board.save()] of a board read from the store. *)
Definition saveBoard (b : board) (docs : list board) : list board :=
  updateMany (fun b' => String.eqb (b_id b') (b_id b)) (fun _ => b) docs.

Definition addLists (n : Z) (b : board) : board :=
  Board (b_id b) (b_workspaceId b) (b_owner b) (b_members b)
    (b_totalLists b + n) (b_totalCards b).

Definition addCards (n : Z) (b : board) : board :=
  Board (b_id b) (b_workspaceId b) (b_owner b) (b_members b)
    (b_totalLists b) (b_totalCards b + n).

(** [List.findOne({ boardId, isArchived: false }).sort({ position: -1 })
    .select('position')]: the largest position of the scope, if any. *)
Definition findLastPosition (boardId : string) (docs : list listDoc) : option Z :=
  foldr (fun d acc =>
           Some match acc with
                | None => l_position d
                | Some m => Z.max (l_position d) m
                end)
        None (List.filter (inScope boardId) docs).

(** [Card.countDocuments({ listId, isArchived })]. *)
Definition countCards (listId : string) (archived : bool) (docs : list cardDoc) : Z :=
  Z.of_nat (length (List.filter
    (fun c => String.eqb (c_listId c) listId && Bool.eqb (c_isArchived c) archived)
    docs)).

(** ** HTTP responses ([ResponseFormatter]) *)

Inductive payload : Type :=
| PNull
| PErrors
| PList (l : listDoc)
| PMoved (id name : string) (oldPosition newPosition : Z)
| PArchived (archivedCardCount : Z)
| PWorkspace (w : workspace).

Record response : Type := Response {
  r_status : Z;
  r_success : bool;
  r_message : string;
  r_data : payload
}.

(** What a request handler leaves behind: the response sent, the store,
    the broker channel and the lines written with [logger.error]. *)
Record result : Type := Result {
  res : response;
  db : store;
  broker : option Publisher.channel;
  errors : list string
}.

Definition respond (status : Z) (message : string) (s : store)
    (conn : option Publisher.channel) : result :=
  Result (Response status false message PErrors) s conn [].

(** [try { await publisher.publishEvent(type, data) } catch (publishError)
    { logger.error(text, publishError) }]. *)
Definition tryPublish (conn : option Publisher.channel) (now uuid : string)
    (eventType : string) (data : json) (text : string)
  : option Publisher.channel * list string :=
  match Publisher.publishEvent conn now uuid eventType data "" with
  | Some (ch, _) => (Some ch, [])
  | None => (conn, [text])
  end.

(** ** The [name] path of the List and Workspace schemas
    (board-service/models/List.js, Workspace.js)

    [trim: true] cuts the white space off both ends of the value when it
    is set. [required], [minLength: 1] and [maxLength: 100] are checked by
    [save], which rejects an empty name and a name of more than 100
    characters; the rejection reaches the error handler, which answers
    500. *)

Definition validName (name : string) : bool :=
  negb (String.eqb name "") && (Z.of_nat (String.length name) <=? 100).

(** ** The list controller (board-service/controllers/listController.js)

    Activity logging (which never throws) and the socket broadcast of the
    outcome are not part of the result: the responses are those of a
    server whose [io] carries no list handlers. With the handlers of the
    socket handler attached, [archiveList] calls a [list_archived] handler
    that does not exist, after its writes, and answers 500. *)

Module ListController.

Section Handlers.

(** [stringHelpers.capitalizeWords], taken as a parameter of the
    handlers. *)
Variable capitalizeWords : string -> string.

(** The message of a 500 answer: the error's own message, or "Internal
    server error" in production. *)
Variable serverError : string.

(** The clock and the random message id of the request, and the
    ObjectId the driver gives to a new document. *)
Variables (now uuid newId : string).

Definition createList (s : store) (conn : option Publisher.channel)
    (userId name boardId : string) (position : option Z) : result :=
  match findBoard boardId (boards s) with
  | None => respond 404 "Board not found" s conn
  | Some board =>
      if negb (isMember board userId) then
        respond 403 "Access denied to board" s conn
      else if negb (hasPermission board userId "member") then
        respond 403 "Insufficient permissions to create lists" s conn
      else
        let '(finalPosition, shifted) :=
          match position with
          | None =>
              (match findLastPosition boardId (lists s) with
               | Some maxPosition => maxPosition + 1
               | None => 0
               end, lists s)
          | Some p =>
              (p, updateMany
                    (fun d => inScope boardId d && (p <=? l_position d))
                    (incPosition 1) (lists s))
          end in
        let list :=
          ListDoc newId (JsString.trim (capitalizeWords name)) boardId
            finalPosition 0 false in
        if negb (validName (l_name list)) then
          (* [list.save()] rejects the document; the shift is written *)
          respond 500 serverError
            (Store (workspaces s) (boards s) shifted (cards s)) conn
        else
          let s' := Store (workspaces s) (saveBoard (addLists 1 board) (boards s))
                          (shifted ++ [list]) (cards s) in
          let '(conn', errs) :=
            tryPublish conn now uuid "list.created"
              (JObj [("listId", JStr newId); ("name", JStr (l_name list));
                     ("boardId", JStr boardId); ("position", JNum finalPosition);
                     ("createdBy", JStr userId)])
              "Failed to publish list creation event:" in
          Result (Response 201 true "List created successfully" (PList list))
                 s' conn' errs
  end.

Definition updateList (s : store) (conn : option Publisher.channel)
    (userId listId name : string) : result :=
  match findList listId (lists s) with
  | None => respond 404 "List not found" s conn
  | Some list =>
      match findBoard (l_boardId list) (boards s) with
      | None => respond 404 "Board not found" s conn
      | Some board =>
          if negb (hasPermission board userId "member") then
            respond 403 "Insufficient permissions" s conn
          else
            let list' := setName (JsString.trim (capitalizeWords name)) list in
            if negb (validName (l_name list')) then
              (* [list.save()] rejects the document *)
              respond 500 serverError s conn
            else
              let s' := Store (workspaces s) (boards s)
                              (updateMany (hasId listId) (setName (l_name list'))
                                 (lists s))
                              (cards s) in
              let '(conn', errs) :=
                tryPublish conn now uuid "list.updated"
                  (JObj [("listId", JStr listId); ("name", JStr (l_name list'));
                         ("boardId", JStr (l_boardId list));
                         ("previousData", JObj [("name", JStr (l_name list))]);
                         ("updatedBy", JStr userId)])
                  "Failed to publish list update event:" in
              Result (Response 200 true "List updated successfully" (PList list'))
                     s' conn' errs
      end
  end.

Definition moveList (s : store) (conn : option Publisher.channel)
    (userId listId : string) (newPosition : Z) : result :=
  match findList listId (lists s) with
  | None => respond 404 "List not found" s conn
  | Some list =>
      match findBoard (l_boardId list) (boards s) with
      | None => respond 403 "Insufficient permissions" s conn
      | Some board =>
          if negb (hasPermission board userId "member") then
            respond 403 "Insufficient permissions" s conn
          else
            let oldPosition := l_position list in
            if oldPosition =? newPosition then
              Result (Response 200 true "List position unchanged" (PList list))
                     s conn []
            else
              let shifted :=
                if oldPosition <? newPosition then
                  updateMany
                    (fun d => inScope (l_boardId list) d
                              && (oldPosition <? l_position d)
                              && (l_position d <=? newPosition)
                              && negb (hasId listId d))
                    (incPosition (-1)) (lists s)
                else
                  updateMany
                    (fun d => inScope (l_boardId list) d
                              && (newPosition <=? l_position d)
                              && (l_position d <? oldPosition)
                              && negb (hasId listId d))
                    (incPosition 1) (lists s) in
              let saved := updateMany (hasId listId) (setPosition newPosition) shifted in
              Result (Response 200 true "List moved successfully"
                        (PMoved listId (l_name list) oldPosition newPosition))
                     (Store (workspaces s) (boards s) saved (cards s)) conn []
      end
  end.

Definition archiveList (s : store) (conn : option Publisher.channel)
    (userId listId : string) : result :=
  match findList listId (lists s) with
  | None => respond 404 "List not found" s conn
  | Some list =>
      match findBoard (l_boardId list) (boards s) with
      | None => respond 403 "Insufficient permissions" s conn
      | Some board =>
          if negb (hasPermission board userId "member") then
            respond 403 "Insufficient permissions" s conn
          else if l_isArchived list then
            respond 400 "List is already archived" s conn
          else
            let saved := updateMany (hasId listId) (setArchived true) (lists s) in
            let cards' :=
              updateMany
                (fun c => String.eqb (c_listId c) listId && negb (c_isArchived c))
                archiveCard (cards s) in
            let shifted :=
              updateMany
                (fun d => inScope (l_boardId list) d
                          && (l_position list <? l_position d))
                (incPosition (-1)) saved in
            let archivedCardCount := countCards listId true cards' in
            let board' := addCards (- archivedCardCount) (addLists (-1) board) in
            Result (Response 200 true "List archived successfully"
                      (PArchived archivedCardCount))
                   (Store (workspaces s) (saveBoard board' (boards s)) shifted cards') conn []
      end
  end.

Definition deleteList (s : store) (conn : option Publisher.channel)
    (userId listId : string) : result :=
  match findList listId (lists s) with
  | None => respond 404 "List not found" s conn
  | Some list =>
      match findBoard (l_boardId list) (boards s) with
      | None => respond 403 "Insufficient permissions to delete list" s conn
      | Some board =>
          if negb (hasPermission board userId "admin") then
            respond 403 "Insufficient permissions to delete list" s conn
          else if 0 <? countCards listId false (cards s) then
            respond 400 "Cannot delete list with active cards" s conn
          else
            let cards' :=
              List.filter (fun c => negb (String.eqb (c_listId c) listId)) (cards s) in
            let shifted :=
              updateMany
                (fun d => inScope (l_boardId list) d
                          && (l_position list <? l_position d))
                (incPosition (-1)) (lists s) in
            let remaining := List.filter (fun d => negb (hasId listId d)) shifted in
            let board' := if l_isArchived list then board else addLists (-1) board in
            Result (Response 200 true "List deleted successfully" PNull)
                   (Store (workspaces s) (saveBoard board' (boards s)) remaining cards') conn []
      end
  end.

End Handlers.

End ListController.

(** ** The workspace controller: [createWorkspace] *)

Module WorkspaceController.

(** The request body's optional [settings]. *)
Record settings : Type := Settings {
  isPrivate : option bool;
  allowInvitations : option bool;
  requireApproval : option bool
}.

Section Handlers.

(** [stringHelpers.capitalizeWords], taken as a parameter of the handler,
    and the message of a 500 answer. *)
Variable capitalizeWords : string -> string.

Variable serverError : string.

Variables (now uuid newId : string).

(** [Workspace.findOne({ slug })] as a truth value. *)
Definition slugTaken (docs : list workspace) (slug : string) : bool :=
  existsb (fun w => String.eqb (w_slug w) slug) docs.

(** The loop [while (await Workspace.findOne({ slug })) { slug =
    `${baseSlug}-${counter}`; counter++ }], run for at most [fuel]
    tests of its condition; [None] when it has not ended by then. *)
Fixpoint uniqueSlug (docs : list workspace) (baseSlug slug : string)
    (counter fuel : nat) : option string :=
  match fuel with
  | O => None
  | S fuel' =>
      if slugTaken docs slug then
        uniqueSlug docs baseSlug (baseSlug +:+ "-" +:+ pretty counter)
          (S counter) fuel'
      else Some slug
  end.

(** What [workspace.save()] checks of the Workspace schema: the name, the
    description of at most 500 characters and the required slug. *)
Definition validWorkspace (w : workspace) : bool :=
  validName (w_name w)
  && (Z.of_nat (String.length (w_description w)) <=? 500)
  && negb (String.eqb (w_slug w) "").

(** [None] only if the slug loop has not ended after one more test than
    there are workspaces. The schema sets the name trimmed and the slug in
    lower case; [save] rejects a document that is not valid (500) and the
    unique index one whose slug is stored already (409). *)
Definition createWorkspace (s : store) (conn : option Publisher.channel)
    (userId name description : string) (settings : settings)
  : option result :=
  let baseSlug := StringHelpers.generateSlug name in
  slug ← uniqueSlug (workspaces s) baseSlug baseSlug 1
            (S (length (workspaces s)));
  let workspace :=
    Workspace newId (JsString.trim (capitalizeWords name)) description
      (JsString.toLowerCase slug) userId
      [Member userId "admin"]
      (default false (isPrivate settings))
      (default true (allowInvitations settings))
      (default false (requireApproval settings)) in
  if negb (validWorkspace workspace) then
    Some (respond 500 serverError s conn)
  else if slugTaken (workspaces s) (w_slug workspace) then
    Some (respond 409 "slug already exists" s conn)
  else
    let s' := Store (workspaces s ++ [workspace]) (boards s) (lists s) (cards s) in
    let '(conn', errs) :=
      tryPublish conn now uuid "workspace.created"
        (JObj [("workspaceId", JStr newId); ("name", JStr (w_name workspace));
               ("slug", JStr (w_slug workspace)); ("owner", JStr userId)])
        "Failed to publish workspace creation event:" in
    Some (Result (Response 201 true "Workspace created successfully"
                    (PWorkspace workspace))
                 s' conn' errs).

End Handlers.

End WorkspaceController.

(** ** Sequences of list operations on the store *)

Inductive operation : Type :=
| CreateList (newId userId name boardId : string) (position : option Z)
| MoveList (userId listId : string) (newPosition : Z)
| ArchiveList (userId listId : string)
| DeleteList (userId listId : string).

Section Run.

Variable capitalizeWords : string -> string.

Definition perform (s : store) (o : operation) : store :=
  db match o with
     | CreateList newId userId name boardId position =>
         ListController.createList capitalizeWords "" "" "" newId s None
           userId name boardId position
     | MoveList userId listId newPosition =>
         ListController.moveList s None userId listId newPosition
     | ArchiveList userId listId =>
         ListController.archiveList s None userId listId
     | DeleteList userId listId =>
         ListController.deleteList s None userId listId
     end.

Definition run (s : store) (ops : list operation) : store :=
  fold_left perform ops s.

End Run.

(** The positions of a board's scope, in storage order, and the property
    that they are exactly 0, 1, ..., n-1. *)
Definition positions (boardId : string) (docs : list listDoc) : list Z :=
  map l_position (List.filter (inScope boardId) docs).

Definition contiguous (boardId : string) (docs : list listDoc) : Prop :=
  positions boardId docs ≡ₚ seqZ 0 (Z.of_nat (length (positions boardId docs))).

(** ** Socket sessions and rooms (board-service socketHandler) *)

Module Socket.

(** One [socket.to(room).emit(event, payload)]: a broadcast to a room,
    the sender left out. *)
Record emission : Type := Emission {
  e_room : string;
  e_event : string;
  e_payload : list (string * string)
}.

(** The data of a pending [setTimeout] of the typing handlers. *)
Record typing : Type := Typing {
  t_boardId : string;
  t_cardId : string
}.

(** A socket: the authenticated user, the rooms it is in,
    [socket.currentBoard] ([None] for undefined or null) and the
    [typingTimer] of its typing handlers while that timer is pending. *)
Record session : Type := Session {
  userId : string;
  userName : string;
  rooms : gset string;
  currentBoard : option string;
  typingTimer : option typing
}.

Definition boardRoom (boardId : string) : string := "board:" +:+ boardId.
Definition userRoom (userId : string) : string := "user:" +:+ userId.

(** A string or null/undefined used as a condition. *)
Definition truthy (v : option string) : bool :=
  match v with
  | Some s => negb (String.eqb s "")
  | None => false
  end.

(** The state on ['connection']: the socket joins its personal room. *)
Definition connect (userId userName : string) : session :=
  Session userId userName {[ userRoom userId ]} None None.

Definition joinBoardRoom (socket : session) (boardId : string)
  : session * list emission :=
  let roomName := boardRoom boardId in
  (Session (userId socket) (userName socket) (rooms socket ∪ {[ roomName ]})
     (Some boardId) (typingTimer socket),
   [Emission roomName "user_joined_board"
      [("userId", userId socket); ("userName", userName socket);
       ("boardId", boardId)]]).

Definition leaveBoardRoom (socket : session) (boardId : string)
  : session * list emission :=
  let roomName := boardRoom boardId in
  (Session (userId socket) (userName socket) (rooms socket ∖ {[ roomName ]})
     (currentBoard socket) (typingTimer socket),
   [Emission roomName "user_left_board"
      [("userId", userId socket); ("userName", userName socket);
       ("boardId", boardId)]]).

Definition setCurrentBoard (v : option string) (socket : session) : session :=
  Session (userId socket) (userName socket) (rooms socket) v (typingTimer socket).

Definition setTypingTimer (t : option typing) (socket : session) : session :=
  Session (userId socket) (userName socket) (rooms socket) (currentBoard socket) t.

Definition stoppedTyping (socket : session) (t : typing) : emission :=
  Emission (boardRoom (t_boardId t)) "user_stopped_typing"
    [("userId", userId socket); ("cardId", t_cardId t); ("boardId", t_boardId t)].

(** What socket.io does when the transport is lost, before it calls the
    ['disconnect'] listeners: the socket is taken out of every room,
    its personal room included. *)
Definition leaveAll (socket : session) : session :=
  Session (userId socket) (userName socket) ∅
    (currentBoard socket) (typingTimer socket).

(** What reaches a session: the client's events, the expiry of the
    three-second typing timer, and the loss of the transport. *)
Inductive event : Type :=
| join_board (boardId : string)
| leave_board (boardId : string)
| start_typing (data : typing)
| stop_typing (data : typing)
| typing_timeout
| disconnect.

Definition handle (socket : session) (ev : event) : session * list emission :=
  match ev with
  | join_board boardId =>
      let '(socket1, out1) :=
        match currentBoard socket with
        | Some previous =>
            if truthy (Some previous) && negb (String.eqb previous boardId)
            then leaveBoardRoom socket previous
            else (socket, [])
        | None => (socket, [])
        end in
      let '(socket2, out2) := joinBoardRoom socket1 boardId in
      (socket2, out1 ++ out2)
  | leave_board boardId =>
      let '(socket1, out1) := leaveBoardRoom socket boardId in
      (setCurrentBoard None socket1, out1)
  | start_typing data =>
      (* clearTimeout of the pending timer, then a new one *)
      (setTypingTimer (Some data) socket,
       [Emission (boardRoom (t_boardId data)) "user_typing"
          [("userId", userId socket); ("userName", userName socket);
           ("cardId", t_cardId data); ("boardId", t_boardId data)]])
  | stop_typing data =>
      (setTypingTimer None socket, [stoppedTyping socket data])
  | typing_timeout =>
      match typingTimer socket with
      | Some data => (setTypingTimer None socket, [stoppedTyping socket data])
      | None => (socket, [])
      end
  | disconnect =>
      let socket0 := leaveAll socket in
      let '(socket1, out1) :=
        match currentBoard socket0 with
        | Some board =>
            if truthy (Some board) then leaveBoardRoom socket0 board
            else (socket0, [])
        | None => (socket0, [])
        end in
      let out2 :=
        match currentBoard socket1 with
        | Some board =>
            if truthy (Some board) then
              [Emission (boardRoom board) "user_presence_updated"
                 [("userId", userId socket1); ("userName", userName socket1);
                  ("status", "offline"); ("boardId", board)]]
            else []
        | None => []
        end in
      (socket1, out1 ++ out2)
  end.

(** A sequence of events handled in arrival order, with everything
    emitted on the way. *)
Fixpoint handleAll (socket : session) (evs : list event)
  : session * list emission :=
  match evs with
  | [] => (socket, [])
  | ev :: rest =>
      let '(socket1, out1) := handle socket ev in
      let '(socket2, out2) := handleAll socket1 rest in
      (socket2, out1 ++ out2)
  end.

(** The board rooms a session is in. *)
Definition boardRooms (socket : session) : gset string :=
  filter (fun room => String.prefix "board:" room = true) (rooms socket).

End Socket.

(** ** Vocabulary of the properties *)

(** [rankAtLeast role requiredRole]: both roles have a rank in the
    hierarchy and the rank of [role] is not below that of [requiredRole]. *)
Definition rankAtLeast (role requiredRole : string) : Prop :=
  exists a b,
    roleHierarchy role = Some a /\ roleHierarchy requiredRole = Some b /\ b <= a.

(** The slugs the loop of [createWorkspace] tries, in order. *)
Definition candidate (baseSlug : string) (k : nat) : string :=
  match k with
  | O => baseSlug
  | S _ => baseSlug +:+ "-" +:+ pretty k
  end.

(** The board and the four lists of the scenario: positions 0 to 3. *)
Definition sampleBoard : board :=
  Board "B" "W" "ann" [Member "bob" "member"] 4 0.

Definition sampleStore : store :=
  Store [] [sampleBoard]
    [ListDoc "a" "Todo" "B" 0 0 false; ListDoc "b" "Doing" "B" 1 0 false;
     ListDoc "c" "Review" "B" 2 0 false; ListDoc "d" "Done" "B" 3 0 false]
    [].

(** A board without lists. *)
Definition emptyBoardStore : store := Store [] [sampleBoard] [] [].

(** The normalisation the specification describes: a position outside
    [0, count] becomes [count]. *)
Definition clampPosition (count p : Z) : Z :=
  if (0 <=? p) && (p <=? count) then p else count.

(** The number of lists in a board's scope. *)
Definition count (boardId : string) (docs : list listDoc) : Z :=
  Z.of_nat (length (positions boardId docs)).

Definition idPositions (docs : list listDoc) : list (string * Z) :=
  map (fun d => (l_id d, l_position d)) docs.

(** [compact ps]: no position occurs twice and every one lies below the
    number of positions; the same as being a permutation of 0 .. n-1. *)
Definition compact (ps : list Z) : Prop :=
  NoDup ps /\ forall p, p ∈ ps -> 0 <= p < Z.of_nat (length ps).

(** The position arithmetic of the three shifts. *)
Definition shiftUp (p v : Z) : Z := if p <=? v then v + 1 else v.

Definition shiftDown (p v : Z) : Z := if p <? v then v - 1 else v.

Definition movedPosition (old new v : Z) : Z :=
  if old <? new then (if (old <? v) && (v <=? new) then v - 1 else v)
  else (if (new <=? v) && (v <? old) then v + 1 else v).

Ltac cases_Z :=
  repeat match goal with
    | |- context [Z.leb ?a ?b] => destruct (Z.leb_spec a b)
    | |- context [Z.ltb ?a ?b] => destruct (Z.ltb_spec a b)
    | H : context [Z.leb ?a ?b] |- _ => destruct (Z.leb_spec a b)
    | H : context [Z.ltb ?a ?b] |- _ => destruct (Z.ltb_spec a b)
    end; simpl in *.

(** The invariant of the list collection: ids are unique and every
    board's scope is compact. *)
Definition ordered (docs : list listDoc) : Prop :=
  NoDup (map l_id docs) /\ forall b, compact (positions b docs).

(** The requests for which the controller keeps the scopes compact: a
    fresh id for a new list (the driver's), a requested insert position
    within [0, count], a move of a list that is not archived to a position
    within [0, count - 1], and the deletion of a list that is not
    archived. *)
Definition admissible (s : store) (o : operation) : Prop :=
  match o with
  | CreateList newId _ _ boardId position =>
      findList newId (lists s) = None
      /\ match position with
         | Some p => 0 <= p <= count boardId (lists s)
         | None => True
         end
  | MoveList _ listId newPosition =>
      match findList listId (lists s) with
      | Some list =>
          l_isArchived list = false
          /\ 0 <= newPosition < count (l_boardId list) (lists s)
      | None => True
      end
  | ArchiveList _ _ => True
  | DeleteList _ listId =>
      match findList listId (lists s) with
      | Some list => l_isArchived list = false
      | None => True
      end
  end.

(** The name of a new list is one the List schema accepts, once it is
    capitalised and trimmed. *)
Definition named (capitalizeWords : string -> string) (o : operation) : Prop :=
  match o with
  | CreateList _ _ name _ _ =>
      validName (JsString.trim (capitalizeWords name)) = true
  | _ => True
  end.

(** Every request of a sequence is admissible in the state it meets, and
    every new list has a name the schema accepts. *)
Fixpoint admissibleAll (capitalizeWords : string -> string) (s : store)
    (ops : list operation) : Prop :=
  match ops with
  | [] => True
  | o :: rest =>
      admissible s o /\ named capitalizeWords o
      /\ admissibleAll capitalizeWords (perform capitalizeWords s o) rest
  end.

(** The largest element of a list of positions, computed as
    [findLastPosition] does. *)
Definition lastOf (ps : list Z) : option Z :=
  foldr (fun v acc =>
           Some match acc with
                | None => v
                | Some m => Z.max v m
                end)
        None ps.

(** What [moveList] does to one document: the shift of [updateMany],
    then the save of the moved list. *)
Definition moveUpdate (b listId : string) (old new : Z) (d : listDoc) : listDoc :=
  let d1 :=
    if old <? new then
      if inScope b d && (old <? l_position d) && (l_position d <=? new)
         && negb (hasId listId d)
      then incPosition (-1) d else d
    else
      if inScope b d && (new <=? l_position d) && (l_position d <? old)
         && negb (hasId listId d)
      then incPosition 1 d else d in
  if hasId listId d1 then setPosition new d1 else d1.

(** What [archiveList] and [deleteList] do to the documents after the
    removed position. *)
Definition closeGap (b : string) (p : Z) (d : listDoc) : listDoc :=
  if inScope b d && (p <? l_position d) then incPosition (-1) d else d.

Definition sampleOps : list operation :=
  [CreateList "e" "bob" "Later" "B" (Some 1);
   MoveList "bob" "d" 0;
   ArchiveList "bob" "a";
   DeleteList "ann" "b";
   CreateList "f" "bob" "Someday" "B" None].




(** The event names of a sequence of broadcasts. *)
Definition e_event_names (out : list Socket.emission) : list string :=
  map Socket.e_event out.

(** ** Routing keys as lists of segments *)

(** [parts.join(sep)]. *)
Fixpoint joinParts (sep : string) (parts : list string) : string :=
  match parts with
  | [] => ""
  | p :: rest =>
      match rest with
      | [] => p
      | _ :: _ => p +:+ sep +:+ joinParts sep rest
      end
  end.

(** [hasChar c s]: the character occurs in the string. *)
Fixpoint hasChar (c : ascii) (s : string) : bool :=
  match s with
  | EmptyString => false
  | String c' s' => Ascii.eqb c' c || hasChar c s'
  end.

(** What is left of a pattern once the routing key has run out: only
    [*] segments up to a [#]. *)
Fixpoint onlyStarsThenHash (patternParts : list string) : bool :=
  match patternParts with
  | [] => false
  | p :: ps =>
      if bool_decide (p = "#") then true
      else bool_decide (p = "*") && onlyStarsThenHash ps
  end.

(** Segment-wise matching, by recursion on the pattern: [#] accepts
    whatever is left, [*] accepts one segment, any other segment accepts
    itself. *)
Fixpoint segmentsMatch (routingParts patternParts : list string)
    {struct patternParts} : bool :=
  match patternParts with
  | [] =>
      match routingParts with
      | [] => true
      | _ :: _ => false
      end
  | p :: ps =>
      if bool_decide (p = "#") then true
      else
        match routingParts with
        | [] => bool_decide (p = "*") && onlyStarsThenHash ps
        | r :: rs =>
            (bool_decide (p = "*") || bool_decide (r = p)) && segmentsMatch rs ps
        end
  end.

(** A pattern segment that is neither wildcard. *)
Definition literal (p : string) : Prop := p <> "#" /\ p <> "*".

(** The patterns of a registry, in iteration order, and the handler a
    pattern maps to. *)
Definition patterns (handlers : Consumer.registry) : list string :=
  map fst handlers.

Definition handlerOf (pattern : string) (handlers : Consumer.registry)
  : option Consumer.handler :=
  snd <$> List.find (fun entry => String.eqb (fst entry) pattern) handlers.

(** The routing key of the message a publish call put on the channel. *)
Definition lastRoutingKey (r : option (Publisher.channel * string)) : option string :=
  match r with
  | Some (ch, _) => Publisher.p_routingKey <$> last ch
  | None => None
  end.

(** ** Workspace methods (board-service/models/Workspace.js)

    Unlike a board's, a workspace's [isMember] looks at the members table
    only; the owner counts as a member when listed there. *)

Module WorkspaceModel.

Definition isMember (w : workspace) (userId : string) : bool :=
  existsb (fun m => String.eqb (m_userId m) userId) (w_members w).

Definition hasPermission (w : workspace) (userId requiredRole : string) : bool :=
  if String.eqb (w_owner w) userId then true
  else
    match List.find (fun m => String.eqb (m_userId m) userId) (w_members w) with
    | None => false
    | Some m => js_ge (roleHierarchy (m_role m)) (roleHierarchy requiredRole)
    end.

End WorkspaceModel.

(** [Workspace.findById]. *)
Definition findWorkspace (workspaceId : string) (docs : list workspace)
  : option workspace :=
  List.find (fun w => String.eqb (w_id w) workspaceId) docs.

(** ** Member management of the board controller
    (board-service/controllers/boardController.js) *)

Inductive memberData : Type :=
| MNull
| MErrors
| MAdded (userId role : string)
| MRoleChanged (userId role previousRole : string).

Record memberResponse : Type := MemberResponse {
  mr_status : Z;
  mr_success : bool;
  mr_message : string;
  mr_data : memberData
}.

Record memberResult : Type := MemberResult {
  m_res : memberResponse;
  m_db : store
}.

Definition refuse (status : Z) (message : string) (s : store) : memberResult :=
  MemberResult (MemberResponse status false message MErrors) s.

Definition setMembers (members : list member) (b : board) : board :=
  Board (b_id b) (b_workspaceId b) (b_owner b) members
    (b_totalLists b) (b_totalCards b).

(** [members.findIndex(member => member.userId.toString() === memberId)],
    with [None] for -1. *)
Fixpoint findIndex (memberId : string) (members : list member) : option nat :=
  match members with
  | [] => None
  | m :: rest =>
      if String.eqb (m_userId m) memberId then Some O
      else S <$> findIndex memberId rest
  end.

(** [member.role = role] on the entry that [members.find] returns: the
    first entry of the user. *)
Fixpoint setRole (memberId role : string) (members : list member) : list member :=
  match members with
  | [] => []
  | m :: rest =>
      if String.eqb (m_userId m) memberId then Member (m_userId m) role :: rest
      else m :: setRole memberId role rest
  end.

Module BoardController.

Section Handlers.

(** The message of the response to an uncaught error: the error's own
    message, or a fixed text in production. *)
Variable serverError : string.

Definition addMember (s : store) (currentUserId boardId newUserId : string)
    (role : option string) : memberResult :=
  let role := default "member" role in
  match findBoard boardId (boards s) with
  | None => refuse 404 "Board not found" s
  | Some board =>
      if negb (hasPermission board currentUserId "admin") then
        refuse 403 "Insufficient permissions" s
      else if isMember board newUserId then
        refuse 409 "User is already a member" s
      else
        (* the board was read with its workspace populated; a board whose
           workspace is gone has null there, and the call on it throws *)
        match findWorkspace (b_workspaceId board) (workspaces s) with
        | None => refuse 500 serverError s
        | Some workspace =>
            if negb (WorkspaceModel.isMember workspace newUserId)
               && negb (String.eqb (w_owner workspace) newUserId) then
              refuse 400 "User must be a workspace member first" s
            else
              let board' :=
                setMembers (b_members board ++ [Member newUserId role]) board in
              MemberResult
                (MemberResponse 200 true "Member added successfully"
                   (MAdded newUserId role))
                (Store (workspaces s) (saveBoard board' (boards s))
                   (lists s) (cards s))
        end
  end.

Definition removeMember (s : store) (userId boardId memberId : string)
  : memberResult :=
  match findBoard boardId (boards s) with
  | None => refuse 404 "Board not found" s
  | Some board =>
      if negb (String.eqb memberId userId)
         && negb (hasPermission board userId "admin") then
        refuse 403 "Insufficient permissions" s
      else if String.eqb (b_owner board) memberId then
        refuse 400 "Cannot remove board owner" s
      else
        match findIndex memberId (b_members board) with
        | None => refuse 404 "Member not found" s
        | Some memberIndex =>
            let board' := setMembers (delete memberIndex (b_members board)) board in
            MemberResult
              (MemberResponse 200 true "Member removed successfully" MNull)
              (Store (workspaces s) (saveBoard board' (boards s))
                 (lists s) (cards s))
        end
  end.

Definition updateMemberRole (s : store) (userId boardId memberId role : string)
  : memberResult :=
  match findBoard boardId (boards s) with
  | None => refuse 404 "Board not found" s
  | Some board =>
      if negb (hasPermission board userId "admin") then
        refuse 403 "Insufficient permissions" s
      else if String.eqb (b_owner board) memberId then
        refuse 400 "Cannot change board owner role" s
      else
        match List.find (fun m => String.eqb (m_userId m) memberId)
                (b_members board) with
        | None => refuse 404 "Member not found" s
        | Some member =>
            let previousRole := m_role member in
            let board' := setMembers (setRole memberId role (b_members board)) board in
            MemberResult
              (MemberResponse 200 true "Member role updated successfully"
                 (MRoleChanged memberId role previousRole))
              (Store (workspaces s) (saveBoard board' (boards s))
                 (lists s) (cards s))
        end
  end.

End Handlers.

End BoardController.

(** Requests to the member management of a board, and sequences of them. *)
Inductive memberRequest : Type :=
| AddMember (currentUserId boardId newUserId : string) (role : option string)
| RemoveMember (userId boardId memberId : string)
| UpdateMemberRole (userId boardId memberId role : string).

Definition serve (serverError : string) (s : store) (q : memberRequest) : store :=
  m_db match q with
       | AddMember currentUserId boardId newUserId role =>
           BoardController.addMember serverError s currentUserId boardId newUserId role
       | RemoveMember userId boardId memberId =>
           BoardController.removeMember s userId boardId memberId
       | UpdateMemberRole userId boardId memberId role =>
           BoardController.updateMemberRole s userId boardId memberId role
       end.

(** Every board lists a user at most once. *)
Definition membersUnique (s : store) : Prop :=
  forall b, b ∈ boards s -> NoDup (map m_userId (b_members b)).

(** The user whose request it is, and the member a request is about. *)
Definition requester (q : memberRequest) : string :=
  match q with
  | AddMember currentUserId _ _ _ => currentUserId
  | RemoveMember userId _ _ => userId
  | UpdateMemberRole userId _ _ _ => userId
  end.

Definition boardOf (q : memberRequest) : string :=
  match q with
  | AddMember _ boardId _ _ => boardId
  | RemoveMember _ boardId _ => boardId
  | UpdateMemberRole _ boardId _ _ => boardId
  end.

Definition selfRemoval (q : memberRequest) : Prop :=
  match q with
  | RemoveMember userId _ memberId => memberId = userId
  | _ => False
  end.

(** A store with one workspace and the sample board in it, and a few
    requests to its member management. *)
Definition sampleWorkspace : workspace :=
  Workspace "W" "Team" "" "team" "ann"
    [Member "ann" "admin"; Member "bob" "member"; Member "cy" "member"]
    false true false.

Definition memberStore : store :=
  Store [sampleWorkspace] [sampleBoard] [] [].

Definition sampleRequests : list memberRequest :=
  [AddMember "ann" "B" "cy" (Some "viewer");
   UpdateMemberRole "ann" "B" "cy" "admin";
   RemoveMember "cy" "B" "bob";
   AddMember "cy" "B" "bob" None].

(** ** The list controller: [unarchiveList] *)

Inductive unarchiveData : Type :=
| UErrors
| UUnarchived (position : Z).

Record unarchiveResult : Type := UnarchiveResult {
  u_status : Z;
  u_success : bool;
  u_message : string;
  u_data : unarchiveData;
  u_db : store
}.

Definition unarchiveList (s : store) (userId listId : string) : unarchiveResult :=
  match findList listId (lists s) with
  | None => UnarchiveResult 404 false "List not found" UErrors s
  | Some list =>
      match findBoard (l_boardId list) (boards s) with
      | None => UnarchiveResult 403 false "Insufficient permissions" UErrors s
      | Some board =>
          if negb (hasPermission board userId "member") then
            UnarchiveResult 403 false "Insufficient permissions" UErrors s
          else if negb (l_isArchived list) then
            UnarchiveResult 400 false "List is not archived" UErrors s
          else
            let position :=
              match findLastPosition (l_boardId list) (lists s) with
              | Some maxPosition => maxPosition + 1
              | None => 0
              end in
            let saved :=
              updateMany (hasId listId)
                (fun d => setPosition position (setArchived false d)) (lists s) in
            (* the cards of the list stay archived *)
            UnarchiveResult 200 true "List unarchived successfully"
              (UUnarchived position)
              (Store (workspaces s) (saveBoard (addLists 1 board) (boards s))
                 saved (cards s))
      end
  end.

(** The board whose scope a list operation works on. *)
Definition targetBoard (s : store) (o : operation) : option string :=
  match o with
  | CreateList _ _ _ boardId _ => Some boardId
  | MoveList _ listId _ => l_boardId <$> findList listId (lists s)
  | ArchiveList _ listId => l_boardId <$> findList listId (lists s)
  | DeleteList _ listId => l_boardId <$> findList listId (lists s)
  end.

(** A safe integer, as [Number.isSafeInteger] has it: sums of such
    positions with 1 and -1 are exact. *)
Definition safeInteger (p : Z) : bool := Z.abs p <? 2 ^ 53.

Definition safePositions (docs : list listDoc) : bool :=
  forallb (fun d => safeInteger (l_position d)) docs.

(** The cards of a list. *)
Definition cardsOf (listId : string) (docs : list cardDoc) : list cardDoc :=
  List.filter (fun c => String.eqb (c_listId c) listId) docs.

(** ** Broadcasts of mutation outcomes (board-service socketHandler)

    [io.to(room).emit(event, data)] reaches every socket in the room. *)

Module Broadcast.

Definition payload : Type := list (string * string).

(** [handleListUpdates(io).list_created] and its siblings [list_updated],
    [list_moved], [list_deleted], and likewise the card, board and comment
    handlers that only address the board room: one broadcast of the data
    to the room of [data.boardId], under the handler's own name. *)
Definition toBoard (event boardId : string) (data : payload)
  : list Socket.emission :=
  [Socket.Emission (Socket.boardRoom boardId) event data].

(** [handleCardUpdates(io).card_assigned]: the board room, and the
    personal room of [data.assignedUserId]. *)
Definition card_assigned (boardId assignedUserId : string) (data : payload)
  : list Socket.emission :=
  [Socket.Emission (Socket.boardRoom boardId) "card_assigned" data;
   Socket.Emission (Socket.userRoom assignedUserId) "card_assigned_to_you" data].

(** [handleBoardUpdates(io).board_member_added] and
    [board_member_removed]. *)
Definition board_member_added (boardId newMemberId : string) (data : payload)
  : list Socket.emission :=
  [Socket.Emission (Socket.boardRoom boardId) "board_member_added" data;
   Socket.Emission (Socket.userRoom newMemberId) "added_to_board" data].

Definition board_member_removed (boardId removedMemberId : string) (data : payload)
  : list Socket.emission :=
  [Socket.Emission (Socket.boardRoom boardId) "board_member_removed" data;
   Socket.Emission (Socket.userRoom removedMemberId) "removed_from_board" data].

(** A socket receives what is sent to a room it is in. *)
Definition receives (socket : Socket.session) (e : Socket.emission) : Prop :=
  Socket.e_room e ∈ Socket.rooms socket.

End Broadcast.

(** The room of the board a session currently has, if any. *)
Definition currentRoom (socket : Socket.session) : gset string :=
  match Socket.currentBoard socket with
  | Some boardId => {[ Socket.boardRoom boardId ]}
  | None => ∅
  end.

(** A client that names boards by non-empty ids and only ever leaves the
    board it is on. *)
Definition disciplined (socket : Socket.session) (ev : Socket.event) : Prop :=
  match ev with
  | Socket.join_board boardId => boardId <> ""
  | Socket.leave_board boardId =>
      Socket.currentBoard socket = None \/ Socket.currentBoard socket = Some boardId
  | _ => True
  end.

Fixpoint disciplinedAll (socket : Socket.session) (evs : list Socket.event) : Prop :=
  match evs with
  | [] => True
  | ev :: rest =>
      disciplined socket ev /\ disciplinedAll (Socket.handle socket ev).1 rest
  end.

(** The events handled so far hold no [disconnect]: the session is still
    connected, and in the rooms it joined and did not leave. *)
Definition connected (evs : list Socket.event) : bool :=
  forallb (fun ev => match ev with Socket.disconnect => false | _ => true end) evs.

(** The rooms a session can be in: its personal room and board rooms. *)
Definition ownRooms (socket : Socket.session) : Prop :=
  forall room,
    room ∈ Socket.rooms socket ->
    room = Socket.userRoom (Socket.userId socket)
    \/ exists boardId, room = Socket.boardRoom boardId.

(** The session holds its personal room and, of board rooms, at most the
    one of its current board. *)
Definition oneBoardRoom (socket : Socket.session) : Prop :=
  Socket.userRoom (Socket.userId socket) ∈ Socket.rooms socket
  /\ Socket.rooms socket
     ⊆ {[ Socket.userRoom (Socket.userId socket) ]} ∪ currentRoom socket
  /\ Socket.currentBoard socket <> Some "".

(** Every character of [s] is in the class [p]. *)
Fixpoint allChars (p : ascii -> bool) (s : string) : bool :=
  match s with
  | EmptyString => true
  | String c s' => p c && allChars p s'
  end.

Definition startsWithDash (s : string) : bool :=
  match s with
  | EmptyString => false
  | String c _ => StringHelpers.isDash c
  end.

(** No two dashes of [s] are next to each other. *)
Fixpoint noDoubleDash (s : string) : bool :=
  match s with
  | EmptyString => true
  | String c s' =>
      negb (StringHelpers.isDash c && startsWithDash s') && noDoubleDash s'
  end.

(** The class [[a-z0-9-]]. *)
Definition slugLetter (c : ascii) : bool :=
  JsString.between 97 122 c || JsString.between 48 57 c
  || StringHelpers.isDash c.

(** The form of a slug: small letters, digits and single dashes. *)
Definition isSlug (s : string) : bool :=
  allChars slugLetter s && noDoubleDash s.

(** A fact of one character, by its 256 cases. *)
Ltac each_char c :=
  destruct c as [[] [] [] [] [] [] [] []]; vm_compute; try reflexivity;
  try discriminate; auto.

(** ** Properties: the event publisher *)

(** C1. Published without an explicit routing key, an event does not travel
    under its dot-separated type: [publishEvent] replaces the first dot of
    the type by an underscore, so [card.moved] is published as
    [card_moved] and [workspace.member.added] as [workspace_member.added],
    while the sibling [publishCardEvent] publishes [card.moved] under the
    dotted key [card.moved]. *)
Theorem publishEvent_default_routing_key (now uuid : string) (data : json) :
  Publisher.publishEvent (Some []) now uuid "card.moved" data ""
    = Some ([Publisher.Published "management_app_events" "card_moved"
               (Publisher.Message "card.moved" data now uuid) true uuid], uuid)
  /\ Publisher.routingPattern "workspace.member.added" ""
     = "workspace_member.added"
  /\ (forall eventType,
        Publisher.routingPattern eventType ""
        = JsString.replace "." "_" eventType)
  /\ Publisher.publishCardEvent (Some []) now uuid "card.moved" data
     = Some ([Publisher.Published "management_app_events" "card.moved"
                (Publisher.Message "card.moved" data now uuid) true uuid], uuid).
Proof.
  repeat split.
Qed.

(** ** Properties: the consumer's pattern matcher *)

Lemma matchPattern_hash (routingKey : string) :
  Consumer.matchPattern routingKey "#" = true.
Proof. reflexivity. Qed.

(** C5. The routing key [card.moved.urgent] matches [card.*.*] and
    [card.#] and does not match [card.*]; the pattern [#] alone matches
    every routing key, the empty one included. *)
Theorem matchPattern_examples :
  Consumer.matchPattern "card.moved.urgent" "card.*.*" = true
  /\ Consumer.matchPattern "card.moved.urgent" "card.#" = true
  /\ Consumer.matchPattern "card.moved.urgent" "card.*" = false
  /\ (forall routingKey, Consumer.matchPattern routingKey "#" = true)
  /\ Consumer.matchPattern "" "#" = true.
Proof.
  split; [vm_compute; reflexivity|].
  split; [vm_compute; reflexivity|].
  split; [vm_compute; reflexivity|].
  split; [exact matchPattern_hash | reflexivity].
Qed.

(** ** Properties: the consume callback *)

Section ConsumerProps.

Import Consumer.

Variable JSON_parse : string -> option json.




End ConsumerProps.

(** ** Properties: the permission check *)

Lemma js_ge_rankAtLeast role requiredRole :
  js_ge (roleHierarchy role) (roleHierarchy requiredRole) = true
  <-> rankAtLeast role requiredRole.
Proof.
  unfold rankAtLeast, js_ge.
  destruct (roleHierarchy role) as [a|], (roleHierarchy requiredRole) as [b|].
  - rewrite Z.leb_le. split.
    + intros H. exists a, b. auto.
    + intros (a' & b' & Ha & Hb & H). congruence.
  - split; [discriminate | intros (a' & b' & _ & Hb & _); discriminate].
  - split; [discriminate | intros (a' & b' & Ha & _); discriminate].
  - split; [discriminate | intros (a' & b' & Ha & _); discriminate].
Qed.

Lemma find_member_None userId (members : list member) :
  List.find (fun m => String.eqb (m_userId m) userId) members = None
  <-> forall m, m ∈ members -> m_userId m <> userId.
Proof.
  induction members as [|m rest IH]; simpl.
  - split; [intros _ m Hin; inversion Hin | reflexivity].
  - destruct (String.eqb_spec (m_userId m) userId) as [Heq|Hne].
    + split; [discriminate|].
      intros H. exfalso. apply (H m); [left | exact Heq].
    + rewrite IH. split.
      * intros H m' Hin. apply elem_of_cons in Hin as [->|Hin]; auto.
      * intros H m' Hin. apply H. right. exact Hin.
Qed.

Lemma find_member_unique userId (members : list member) m :
  NoDup (map m_userId members) ->
  m ∈ members -> m_userId m = userId ->
  List.find (fun m => String.eqb (m_userId m) userId) members = Some m.
Proof.
  induction members as [|m0 rest IH]; simpl; intros Hnd Hin Hid.
  - inversion Hin.
  - apply NoDup_cons in Hnd as [Hfresh Hnd].
    destruct (String.eqb_spec (m_userId m0) userId) as [Heq|Hne].
    + apply elem_of_cons in Hin as [->|Hin]; [reflexivity|].
      exfalso. apply Hfresh. rewrite Heq, <- Hid.
      apply list_elem_of_fmap. exists m. auto.
    + apply elem_of_cons in Hin as [->|Hin]; [congruence|].
      apply IH; assumption.
Qed.

(** C8. With one entry per user in the members table, [hasPermission] is
    true exactly for the owner and for a member whose role ranks at least
    as high as the required role, where viewer < member < admin; the owner
    passes whatever role is required, and a user who is neither owner nor
    member passes for none. *)
Theorem hasPermission_spec (b : board) (userId requiredRole : string) :
  NoDup (map m_userId (b_members b)) ->
  (hasPermission b userId requiredRole = true
   <-> b_owner b = userId
       \/ exists m, m ∈ b_members b /\ m_userId m = userId
                    /\ rankAtLeast (m_role m) requiredRole)
  /\ (b_owner b = userId -> hasPermission b userId requiredRole = true)
  /\ (isMember b userId = false -> hasPermission b userId requiredRole = false)
  /\ (exists v m a,
        roleHierarchy "viewer" = Some v /\ roleHierarchy "member" = Some m
        /\ roleHierarchy "admin" = Some a /\ v < m < a).
Proof.
  intros Hnd. unfold hasPermission, isMember.
  repeat split.
  - destruct (String.eqb_spec (b_owner b) userId) as [Heq|Hne]; [auto|].
    destruct (List.find _ (b_members b)) as [m|] eqn:Hfind; [|discriminate].
    intros Hge. right. exists m.
    apply find_some in Hfind as [Hin Hid].
    apply String.eqb_eq in Hid. apply list_elem_of_In in Hin.
    repeat split; try assumption. apply js_ge_rankAtLeast. exact Hge.
  - destruct (String.eqb_spec (b_owner b) userId) as [Heq|Hne]; [reflexivity|].
    intros [Heq|(m & Hin & Hid & Hrank)]; [contradiction|].
    rewrite (find_member_unique userId (b_members b) m Hnd Hin Hid).
    apply js_ge_rankAtLeast. exact Hrank.
  - intros ->. rewrite String.eqb_refl. reflexivity.
  - intros Hmem. apply orb_false_iff in Hmem as [Hex Hown]. rewrite Hown.
    destruct (List.find _ (b_members b)) as [m|] eqn:Hfind; [|reflexivity].
    exfalso. apply find_some in Hfind as [Hin Hid].
    assert (Htrue : existsb (fun m => String.eqb (m_userId m) userId) (b_members b) = true)
      by (apply existsb_exists; eauto).
    congruence.
  - exists 1, 2, 3. repeat split; lia.
Qed.

Lemma hasPermission_spec_witness :
  hasPermission
    (Board "b1" "w1" "ann" [Member "bob" "member"; Member "cy" "viewer"] 0 0)
    "bob" "member" = true.
Proof.
  assert (Hnd : NoDup (map m_userId [Member "bob" "member"; Member "cy" "viewer"])).
  { apply (bool_decide_unpack _). vm_compute. exact I. }
  destruct (hasPermission_spec
              (Board "b1" "w1" "ann" [Member "bob" "member"; Member "cy" "viewer"] 0 0)
              "bob" "member" Hnd) as [Hiff _].
  apply (proj2 Hiff). right. exists (Member "bob" "member").
  split; [left|]. split; [reflexivity|].
  exists 2, 2. repeat split. lia.
Defined.

(** ** Properties: socket sessions *)

Lemma boardRoom_not_userRoom boardId userId :
  Socket.boardRoom boardId <> Socket.userRoom userId.
Proof. discriminate. Qed.

(** The personal room is held until the transport is lost, whatever the
    session handles. *)
Lemma personal_room_kept (socket : Socket.session) (ev : Socket.event) :
  ev <> Socket.disconnect ->
  Socket.userRoom (Socket.userId socket) ∈ Socket.rooms socket ->
  Socket.userId (Socket.handle socket ev).1 = Socket.userId socket
  /\ Socket.userRoom (Socket.userId socket) ∈ Socket.rooms (Socket.handle socket ev).1.
Proof.
  intros Hlive Hin.
  pose proof (fun b => boardRoom_not_userRoom b (Socket.userId socket)) as Hne.
  destruct ev; simpl; try (split; [reflexivity | exact Hin]).
  - destruct (Socket.currentBoard socket) as [previous|]; simpl.
    + destruct (negb (String.eqb previous "") && negb (String.eqb previous boardId));
        simpl; (split; [reflexivity|]).
      * specialize (Hne previous) as H1. specialize (Hne boardId) as H2. set_solver.
      * set_solver.
    + split; [reflexivity | set_solver].
  - split; [reflexivity|]. specialize (Hne boardId). set_solver.
  - destruct (Socket.typingTimer socket); simpl; split; auto.
  - contradiction.
Qed.

(** A join to another board than the current one leaves the current
    board's room first, then enters the new one. *)
Lemma join_board_leaves_previous (socket : Socket.session) (previous boardId : string) :
  Socket.currentBoard socket = Some previous ->
  previous <> "" -> previous <> boardId ->
  Socket.rooms (Socket.handle socket (Socket.join_board boardId)).1
  = Socket.rooms socket ∖ {[ Socket.boardRoom previous ]} ∪ {[ Socket.boardRoom boardId ]}
  /\ Socket.currentBoard (Socket.handle socket (Socket.join_board boardId)).1
     = Some boardId
  /\ e_event_names (Socket.handle socket (Socket.join_board boardId)).2
     = ["user_left_board"; "user_joined_board"].
Proof.
  intros Hcur Hne Hother. simpl. rewrite Hcur. simpl.
  destruct (String.eqb_spec previous "") as [|_]; [contradiction|].
  destruct (String.eqb_spec previous boardId) as [|_]; [contradiction|].
  simpl. repeat split.
Qed.

(** C6. A session that joins board A, is then told to leave board B, and
    then joins board C ends up in the rooms of both A and C: [leave_board]
    forgets the current board without leaving its room, so the next join
    has no previous board to leave. The personal room is still held. *)
Theorem leave_other_board_then_join_two_rooms :
  let socket :=
    (Socket.handleAll (Socket.connect "u1" "Ann")
       [Socket.join_board "A"; Socket.leave_board "B"; Socket.join_board "C"]).1 in
  Socket.boardRooms socket = {[ "board:A"; "board:C" ]}
  /\ size (Socket.boardRooms socket) = 2%nat
  /\ Socket.currentBoard socket = Some "C"
  /\ "user:u1" ∈ Socket.rooms socket.
Proof.
  vm_compute. repeat split.
Qed.

(** Against C9: the disconnect handler does not touch the typing timer.
    After a session that was typing on board A disconnects, the timer is
    still pending and its expiry broadcasts "stopped typing" to the room. *)
Lemma disconnect_keeps_typing_timer :
  let socket :=
    (Socket.handleAll (Socket.connect "u1" "Ann")
       [Socket.join_board "A"; Socket.start_typing (Socket.Typing "A" "c1");
        Socket.disconnect]).1 in
  Socket.typingTimer socket = Some (Socket.Typing "A" "c1")
  /\ (Socket.handle socket Socket.typing_timeout).2
     = [Socket.Emission "board:A" "user_stopped_typing"
          [("userId", "u1"); ("cardId", "c1"); ("boardId", "A")]].
Proof.
  vm_compute. split; reflexivity.
Qed.

(** C9, as the code has it. On the loss of the transport the session is
    in no room any more, whatever state it was in. If its current board is
    set, the room of that board is told that the user left and then gets
    the presence "offline"; otherwise nothing is broadcast. The typing
    timer is left as it was: a pending timer stays pending and still
    broadcasts "stopped typing" when it expires. *)
Theorem disconnect_effect (socket : Socket.session) :
  let socket' := (Socket.handle socket Socket.disconnect).1 in
  let out := (Socket.handle socket Socket.disconnect).2 in
  Socket.rooms socket' = ∅
  /\ Socket.currentBoard socket' = Socket.currentBoard socket
  /\ Socket.typingTimer socket' = Socket.typingTimer socket
  /\ (forall data,
        Socket.typingTimer socket = Some data ->
        (Socket.handle socket' Socket.typing_timeout).2
        = [Socket.stoppedTyping socket data])
  /\ (forall board,
        Socket.currentBoard socket = Some board -> board <> "" ->
        out = [Socket.Emission (Socket.boardRoom board) "user_left_board"
                 [("userId", Socket.userId socket);
                  ("userName", Socket.userName socket); ("boardId", board)];
               Socket.Emission (Socket.boardRoom board) "user_presence_updated"
                 [("userId", Socket.userId socket);
                  ("userName", Socket.userName socket);
                  ("status", "offline"); ("boardId", board)]])
  /\ (Socket.truthy (Socket.currentBoard socket) = false -> out = []).
Proof.
  simpl. destruct socket as [uid uname rooms [board|] timer]; simpl.
  - destruct (String.eqb_spec board "") as [->|Hne]; simpl.
    + split; [reflexivity|]. split; [reflexivity|]. split; [reflexivity|].
      split; [intros data ->; reflexivity|].
      split; [intros b [= <-] Hb; contradiction|].
      intros _. reflexivity.
    + split; [apply subseteq_empty_difference_L, empty_subseteq|].
      split; [reflexivity|]. split; [reflexivity|].
      split; [intros data ->; reflexivity|].
      split; [|discriminate].
      intros b [= <-] _. destruct (String.eqb_spec board "") as [->|_]; [contradiction|].
      reflexivity.
  - split; [reflexivity|]. split; [reflexivity|]. split; [reflexivity|].
    split; [intros data ->; reflexivity|].
    split; [discriminate|].
    intros _. reflexivity.
Qed.

Lemma disconnect_effect_witness :
  (Socket.handle
     (Socket.handle
        (Socket.Session "u1" "Ann" {[ "user:u1"; "board:A" ]} (Some "A")
           (Some (Socket.Typing "A" "c1")))
        Socket.disconnect).1
     Socket.typing_timeout).2
  = [Socket.stoppedTyping
       (Socket.Session "u1" "Ann" {[ "user:u1"; "board:A" ]} (Some "A")
          (Some (Socket.Typing "A" "c1")))
       (Socket.Typing "A" "c1")].
Proof.
  destruct (disconnect_effect
              (Socket.Session "u1" "Ann" {[ "user:u1"; "board:A" ]} (Some "A")
                 (Some (Socket.Typing "A" "c1"))))
    as (_ & _ & _ & Htimer & _).
  apply (Htimer (Socket.Typing "A" "c1")). reflexivity.
Defined.

(** ** Properties: event publication is best effort *)

Lemma app_cons_neq (s : string) (c : ascii) (t : string) : s <> s +:+ String c t.
Proof.
  induction s as [|a s IH]; simpl.
  - discriminate.
  - intros [= H]. exact (IH H).
Qed.

Lemma candidate_inj baseSlug : Inj (=) (=) (candidate baseSlug).
Proof.
  intros [|i] [|j]; simpl; intros H.
  - reflexivity.
  - exfalso. exact (app_cons_neq _ _ _ H).
  - exfalso. symmetry in H. exact (app_cons_neq _ _ _ H).
  - apply (inj (String.app baseSlug)) in H.
    apply (inj (String.app "-")) in H.
    exact (inj pretty _ _ H).
Qed.

Section WorkspaceProps.

Import WorkspaceController.

Lemma uniqueSlug_None docs baseSlug fuel k :
  uniqueSlug docs baseSlug (candidate baseSlug k) (S k) fuel = None ->
  forall i, (i < fuel)%nat -> slugTaken docs (candidate baseSlug (k + i)) = true.
Proof.
  revert k. induction fuel as [|fuel IH]; intros k Hnone i Hi; [lia|].
  simpl in Hnone.
  destruct (slugTaken docs (candidate baseSlug k)) eqn:Htaken; [|discriminate].
  destruct i as [|i].
  - rewrite Nat.add_0_r. exact Htaken.
  - replace (k + S i)%nat with (S k + i)%nat by lia.
    apply IH; [exact Hnone | lia].
Qed.

Lemma slugTaken_elem docs slug :
  slugTaken docs slug = true -> slug ∈ map w_slug docs.
Proof.
  unfold slugTaken. rewrite existsb_exists.
  intros (w & Hin & Heq). apply String.eqb_eq in Heq. subst slug.
  apply list_elem_of_fmap. exists w. split; [reflexivity|].
  apply list_elem_of_In. exact Hin.
Qed.

(** The slug loop ends within one more test than there are workspaces:
    the candidates are pairwise distinct, so they cannot all be taken. *)
Lemma uniqueSlug_total docs baseSlug :
  is_Some (uniqueSlug docs baseSlug baseSlug 1 (S (length docs))).
Proof.
  destruct (uniqueSlug docs baseSlug baseSlug 1 (S (length docs))) as [slug|] eqn:Hloop;
    [eauto|exfalso].
  pose proof (uniqueSlug_None docs baseSlug (S (length docs)) 0 Hloop) as Htaken.
  set (tried := candidate baseSlug <$> seq 0 (S (length docs))).
  assert (Hnd : NoDup tried).
  { pose proof (candidate_inj baseSlug) as Hinj.
    apply (NoDup_fmap_2 (candidate baseSlug)). apply NoDup_seq. }
  assert (Hsub : tried ⊆+ map w_slug docs).
  { apply NoDup_submseteq; [exact Hnd|].
    intros slug Hin. apply list_elem_of_fmap in Hin as (i & -> & Hi).
    apply elem_of_seq in Hi. apply slugTaken_elem.
    apply (Htaken i). lia. }
  apply submseteq_length in Hsub.
  unfold tried in Hsub. rewrite length_fmap, length_seq, length_map in Hsub. lia.
Qed.

End WorkspaceProps.

(** C7. A broker that cannot be reached changes neither the response nor
    the stored state of [createList], [updateList] and [createWorkspace]:
    both are what they are when the event is published. A request whose
    writes succeed, so that it succeeds with the broker up, succeeds with
    it down as well, with the failure logged and the new or renamed
    document, under its trimmed name, in the store. *)
Theorem publish_failure_keeps_success
    (capitalizeWords : string -> string)
    (serverError now uuid newId : string) (s : store) (ch : Publisher.channel) :
  (forall userId name boardId position,
      let down := ListController.createList capitalizeWords serverError
                    now uuid newId s None userId name boardId position in
      let up := ListController.createList capitalizeWords serverError
                  now uuid newId s (Some ch) userId name boardId position in
      res down = res up /\ db down = db up
      /\ (r_success (res up) = true ->
          r_status (res down) = 201
          /\ errors down = ["Failed to publish list creation event:"]
          /\ exists list, r_data (res down) = PList list
                          /\ l_name list = JsString.trim (capitalizeWords name)
                          /\ list ∈ lists (db down)))
  /\ (forall userId listId name,
        let down := ListController.updateList capitalizeWords serverError
                      now uuid s None userId listId name in
        let up := ListController.updateList capitalizeWords serverError
                    now uuid s (Some ch) userId listId name in
        res down = res up /\ db down = db up
        /\ (r_success (res up) = true ->
            r_status (res down) = 200
            /\ errors down = ["Failed to publish list update event:"]
            /\ exists list, r_data (res down) = PList list
                            /\ l_name list = JsString.trim (capitalizeWords name)
                            /\ list ∈ lists (db down)))
  /\ (forall userId name description settings,
        exists down up,
          WorkspaceController.createWorkspace capitalizeWords serverError
            now uuid newId s None userId name description settings = Some down
          /\ WorkspaceController.createWorkspace capitalizeWords serverError
               now uuid newId s (Some ch) userId name description settings = Some up
          /\ res down = res up /\ db down = db up
          /\ (r_success (res up) = true ->
              errors down = ["Failed to publish workspace creation event:"]
              /\ exists w,
                   res down = Response 201 true "Workspace created successfully"
                                (PWorkspace w)
                   /\ w_name w = JsString.trim (capitalizeWords name)
                   /\ w ∈ workspaces (db down))).
Proof.
  split; [|split].
  - intros userId name boardId position. unfold ListController.createList.
    destruct (findBoard boardId (boards s)) as [board|];
      [|simpl; repeat split; discriminate].
    destruct (negb (isMember board userId)); [simpl; repeat split; discriminate|].
    destruct (negb (hasPermission board userId "member"));
      [simpl; repeat split; discriminate|].
    destruct position as [p|]; simpl;
      (destruct (negb (validName (JsString.trim (capitalizeWords name))));
       [simpl; repeat split; discriminate|]); simpl.
    + repeat split. eexists. split; [reflexivity|]. split; [reflexivity|].
      apply elem_of_app. right. left.
    + repeat split. eexists. split; [reflexivity|]. split; [reflexivity|].
      apply elem_of_app. right. left.
  - intros userId listId name. unfold ListController.updateList.
    destruct (findList listId (lists s)) as [list|] eqn:Hfind;
      [|simpl; repeat split; discriminate].
    destruct (findBoard (l_boardId list) (boards s)) as [board|];
      [|simpl; repeat split; discriminate].
    destruct (negb (hasPermission board userId "member"));
      [simpl; repeat split; discriminate|].
    simpl.
    destruct (negb (validName (JsString.trim (capitalizeWords name))));
      [simpl; repeat split; discriminate|]. simpl.
    repeat split. eexists. split; [reflexivity|]. split; [reflexivity|].
    apply find_some in Hfind as [Hin Hid].
    unfold updateMany. apply list_elem_of_fmap. exists list.
    rewrite Hid. split; [reflexivity|]. apply list_elem_of_In. exact Hin.
  - intros userId name description settings.
    unfold WorkspaceController.createWorkspace.
    destruct (uniqueSlug_total (workspaces s) (StringHelpers.generateSlug name))
      as [slug Hslug].
    rewrite Hslug. simpl.
    destruct (negb (WorkspaceController.validWorkspace _));
      [eexists; eexists; simpl; repeat split; discriminate|].
    destruct (WorkspaceController.slugTaken (workspaces s) _);
      [eexists; eexists; simpl; repeat split; discriminate|].
    simpl. eexists. eexists.
    split; [reflexivity|]. split; [reflexivity|].
    split; [reflexivity|]. split; [reflexivity|].
    intros _. split; [reflexivity|].
    eexists. split; [reflexivity|]. split; [reflexivity|].
    apply elem_of_app. right. left.
Qed.

(** What [save] rejects: a name of white space only, and a name without
    letters or digits, whose slug is empty. Nothing is stored then, with
    or without a broker. *)
Lemma createWorkspace_rejected (conn : option Publisher.channel) :
  (forall name,
      name ∈ ["   "; "!!!"] ->
      WorkspaceController.createWorkspace (fun name => name) "" "t0" "m1" "w1"
        emptyBoardStore conn "ann" name "" (WorkspaceController.Settings None None None)
      = Some (respond 500 "" emptyBoardStore conn))
  /\ (r_status <$> (res <$>
        WorkspaceController.createWorkspace (fun name => name) "" "t0" "m1" "w1"
          emptyBoardStore conn "ann" "Acme Corp" ""
          (WorkspaceController.Settings None None None)))
     = Some 201.
Proof.
  split.
  - intros name Hname.
    repeat (apply elem_of_cons in Hname as [->|Hname]); [| |inversion Hname];
      vm_compute; reflexivity.
  - destruct conn; vm_compute; reflexivity.
Qed.

(** ** Properties: the position engine of the list controller *)

Section UpdateLemmas.

Variables (f : listDoc -> bool) (g : listDoc -> listDoc).
Hypothesis g_id : forall d, l_id (g d) = l_id d.

Lemma updateMany_ids docs : map l_id (updateMany f g docs) = map l_id docs.
Proof.
  unfold updateMany. rewrite map_map. apply map_ext.
  intros d. destruct (f d); [apply g_id | reflexivity].
Qed.

Lemma findList_updateMany listId docs :
  findList listId (updateMany f g docs)
  = (fun d => if f d then g d else d) <$> findList listId docs.
Proof.
  unfold findList, updateMany.
  induction docs as [|d docs IH]; simpl; [reflexivity|].
  assert (Hid : hasId listId (if f d then g d else d) = hasId listId d).
  { unfold hasId. destruct (f d); [rewrite g_id|]; reflexivity. }
  rewrite Hid. destruct (hasId listId d); [reflexivity | exact IH].
Qed.

End UpdateLemmas.

Lemma findList_None listId docs :
  findList listId docs = None <-> listId ∉ map l_id docs.
Proof.
  unfold findList. induction docs as [|d docs IH]; simpl.
  - split; [intros _ H; inversion H | reflexivity].
  - unfold hasId at 1. destruct (String.eqb_spec (l_id d) listId) as [Heq|Hne].
    + split; [discriminate|]. intros H. exfalso. apply H. rewrite Heq. left.
    + rewrite IH. rewrite not_elem_of_cons. split; [auto | intros [_ H]; exact H].
Qed.

Lemma findList_unique docs d :
  NoDup (map l_id docs) -> d ∈ docs -> findList (l_id d) docs = Some d.
Proof.
  unfold findList. induction docs as [|d0 docs IH]; simpl; intros Hnd Hin.
  - inversion Hin.
  - apply NoDup_cons in Hnd as [Hfresh Hnd]. unfold hasId at 1.
    destruct (String.eqb_spec (l_id d0) (l_id d)) as [Heq|Hne].
    + apply elem_of_cons in Hin as [->|Hin]; [reflexivity|].
      exfalso. apply Hfresh. rewrite Heq. apply list_elem_of_fmap. eauto.
    + apply elem_of_cons in Hin as [->|Hin]; [congruence|]. apply IH; assumption.
Qed.

Lemma findList_Some listId docs d :
  findList listId docs = Some d -> d ∈ docs /\ l_id d = listId.
Proof.
  unfold findList. intros H. apply find_some in H as [Hin Hid].
  split; [apply list_elem_of_In; exact Hin | apply String.eqb_eq; exact Hid].
Qed.

Lemma setPosition_id p d : l_id (setPosition p d) = l_id d.
Proof. reflexivity. Qed.

Lemma incPosition_id n d : l_id (incPosition n d) = l_id d.
Proof. reflexivity. Qed.

Lemma hasId_false listId d : l_id d <> listId -> hasId listId d = false.
Proof. intros H. unfold hasId. apply String.eqb_neq. exact H. Qed.

Lemma hasId_true listId d : l_id d = listId -> hasId listId d = true.
Proof. intros H. unfold hasId. apply String.eqb_eq. exact H. Qed.

(** C3. The effect of a move that passes the controller's checks, list by
    list: nothing is written when the position does not change; otherwise
    the moved list is stored at the new position; every other list of the
    scope between the two positions steps by one towards the old position
    (down when moving right, up when moving left); every other list is
    left as it was. With lists at positions 0, 1, 2, 3, moving the one at 3
    to 1 puts it at 1, the former 1 at 2, the former 2 at 3, and leaves the
    one at 0. *)
Theorem moveList_effect :
  (forall (s : store) conn userId listId newPosition list board,
      NoDup (map l_id (lists s)) ->
      findList listId (lists s) = Some list ->
      findBoard (l_boardId list) (boards s) = Some board ->
      hasPermission board userId "member" = true ->
      let old := l_position list in
      let r := ListController.moveList s conn userId listId newPosition in
      let after d := findList (l_id d) (lists (db r)) in
      (newPosition = old -> db r = s)
      /\ (newPosition <> old -> after list = Some (setPosition newPosition list))
      /\ (forall d,
            d ∈ lists s -> l_id d <> listId ->
            inScope (l_boardId list) d = true ->
            (old < newPosition -> old < l_position d <= newPosition ->
             after d = Some (incPosition (-1) d))
            /\ (newPosition < old -> newPosition <= l_position d < old ->
                after d = Some (incPosition 1 d))
            /\ (~ old < l_position d <= newPosition ->
                ~ newPosition <= l_position d < old ->
                after d = Some d))
      /\ (forall d,
            d ∈ lists s -> l_id d <> listId ->
            inScope (l_boardId list) d = false -> after d = Some d)
      /\ map l_id (lists (db r)) = map l_id (lists s))
  /\ idPositions
       (lists (db (ListController.moveList sampleStore None "bob" "d" 1)))
     = [("a", 0); ("b", 2); ("c", 3); ("d", 1)].
Proof.
  split; [|vm_compute; reflexivity].
  intros s conn userId listId newPosition list board Hnd Hfind Hboard Hperm old r after.
  subst r after. unfold ListController.moveList.
  rewrite Hfind, Hboard, Hperm. simpl. fold old.
  destruct (Z.eqb_spec old newPosition) as [Heq|Hne]; simpl.
  { split; [reflexivity|]. split; [congruence|].
    assert (Hsame : forall d, d ∈ lists s -> findList (l_id d) (lists s) = Some d)
      by (intros d Hin; apply findList_unique; assumption).
    split; [|split; [auto | reflexivity]].
    intros d Hin _ _. split; [lia|]. split; [lia | auto]. }
  destruct (findList_Some _ _ _ Hfind) as [Hlist_in Hlist_id].
  split; [congruence|].
  assert (Hafter : forall d, d ∈ lists s ->
            findList (l_id d)
              (updateMany (hasId listId) (setPosition newPosition)
                 (if old <? newPosition
                  then updateMany
                         (fun d0 => inScope (l_boardId list) d0 && (old <? l_position d0)
                                    && (l_position d0 <=? newPosition)
                                    && negb (hasId listId d0))
                         (incPosition (-1)) (lists s)
                  else updateMany
                         (fun d0 => inScope (l_boardId list) d0
                                    && (newPosition <=? l_position d0)
                                    && (l_position d0 <? old)
                                    && negb (hasId listId d0))
                         (incPosition 1) (lists s)))
            = Some
                (let d1 :=
                   if old <? newPosition
                   then if inScope (l_boardId list) d && (old <? l_position d)
                           && (l_position d <=? newPosition) && negb (hasId listId d)
                        then incPosition (-1) d else d
                   else if inScope (l_boardId list) d && (newPosition <=? l_position d)
                           && (l_position d <? old) && negb (hasId listId d)
                        then incPosition 1 d else d in
                 if hasId listId d1 then setPosition newPosition d1 else d1)).
  { intros d Hin.
    rewrite findList_updateMany by apply setPosition_id.
    destruct (old <? newPosition);
      rewrite findList_updateMany by apply incPosition_id;
      rewrite (findList_unique _ _ Hnd Hin); reflexivity. }
  split.
  { intros _. rewrite (Hafter list Hlist_in).
    pose proof (hasId_true listId list Hlist_id) as Hid'. unfold hasId in *.
    rewrite Hid'. simpl. rewrite !andb_false_r.
    destruct (old <? newPosition); rewrite Hid'; reflexivity. }
  split.
  { intros d Hin Hid Hscope. rewrite (Hafter d Hin).
    pose proof (hasId_false listId d Hid) as Hid'. unfold hasId in *.
    rewrite Hid', Hscope. simpl. rewrite !andb_true_r.
    split; [|split].
    - intros Hlt [Hlo Hhi].
      destruct (Z.ltb_spec old newPosition); [|lia].
      destruct (Z.ltb_spec old (l_position d)); [|lia].
      destruct (Z.leb_spec (l_position d) newPosition); [|lia].
      simpl. rewrite Hid'. reflexivity.
    - intros Hlt [Hlo Hhi].
      destruct (Z.ltb_spec old newPosition); [lia|].
      destruct (Z.leb_spec newPosition (l_position d)); [|lia].
      destruct (Z.ltb_spec (l_position d) old); [|lia].
      simpl. rewrite Hid'. reflexivity.
    - intros Hout1 Hout2.
      destruct (Z.ltb_spec old newPosition).
      + destruct (Z.ltb_spec old (l_position d));
          destruct (Z.leb_spec (l_position d) newPosition); simpl;
          try (rewrite Hid'; reflexivity); lia.
      + destruct (Z.leb_spec newPosition (l_position d));
          destruct (Z.ltb_spec (l_position d) old); simpl;
          try (rewrite Hid'; reflexivity); lia. }
  split.
  { intros d Hin Hid Hscope. rewrite (Hafter d Hin).
    pose proof (hasId_false listId d Hid) as Hid'. unfold hasId in *.
    rewrite Hscope. simpl. destruct (old <? newPosition); rewrite Hid'; reflexivity. }
  rewrite updateMany_ids by apply setPosition_id.
  destruct (old <? newPosition); apply updateMany_ids; apply incPosition_id.
Qed.

(** Against C4: a list created at position 5 on a board without lists is
    stored at position 5, not at the clamped position 0. *)
Lemma createList_position_not_clamped :
  let r := ListController.createList (fun name => name) "" "" "" "n1"
             emptyBoardStore None "bob" "Inbox" "B" (Some 5) in
  idPositions (lists (db r)) = [("n1", 5)]
  /\ clampPosition (count "B" (lists emptyBoardStore)) 5 = 0.
Proof.
  vm_compute. split; reflexivity.
Qed.

Lemma find_app_None {A : Type} (f : A -> bool) (l1 l2 : list A) :
  List.find f l1 = None -> List.find f (l1 ++ l2) = List.find f l2.
Proof.
  induction l1 as [|x l1 IH]; simpl; [reflexivity|].
  destruct (f x); [discriminate | exact IH].
Qed.

(** C4, as the code has it. The controller does not normalise a requested
    position: a list created with a position and a name the schema accepts
    is stored at exactly that position, and a moved list at exactly the
    requested new position, whatever the number of lists in the scope. A
    list created without a position in an empty scope is stored at
    position 0. *)
Theorem requested_position_used_as_given :
  (forall capitalizeWords serverError now uuid newId (s : store) conn
          userId name boardId board,
      findBoard boardId (boards s) = Some board ->
      isMember board userId = true ->
      hasPermission board userId "member" = true ->
      findList newId (lists s) = None ->
      validName (JsString.trim (capitalizeWords name)) = true ->
      (forall p,
          findList newId
            (lists (db (ListController.createList capitalizeWords serverError
                          now uuid newId s conn userId name boardId (Some p))))
          = Some (ListDoc newId (JsString.trim (capitalizeWords name))
                    boardId p 0 false))
      /\ (List.filter (inScope boardId) (lists s) = [] ->
          findList newId
            (lists (db (ListController.createList capitalizeWords serverError
                          now uuid newId s conn userId name boardId None)))
          = Some (ListDoc newId (JsString.trim (capitalizeWords name))
                    boardId 0 0 false)))
  /\ (forall (s : store) conn userId listId newPosition list board,
        findList listId (lists s) = Some list ->
        findBoard (l_boardId list) (boards s) = Some board ->
        hasPermission board userId "member" = true ->
        newPosition <> l_position list ->
        findList listId
          (lists (db (ListController.moveList s conn userId listId newPosition)))
        = Some (setPosition newPosition list)).
Proof.
  split.
  - intros capitalizeWords serverError now uuid newId s conn userId name boardId
      board Hboard Hmember Hperm Hfresh Hname.
    unfold ListController.createList. rewrite Hboard, Hmember, Hperm. simpl.
    split.
    + intros p. rewrite Hname. simpl.
      destruct (tryPublish conn now uuid "list.created" _ _) as [conn' errs]. simpl.
      unfold findList. rewrite find_app_None.
      * simpl. unfold hasId. simpl. rewrite String.eqb_refl. reflexivity.
      * fold (findList newId
                (updateMany (fun d => inScope boardId d && (p <=? l_position d))
                   (incPosition 1) (lists s))).
        rewrite findList_updateMany by apply incPosition_id.
        rewrite Hfresh. reflexivity.
    + intros Hempty. unfold findLastPosition. rewrite Hempty. simpl.
      rewrite Hname. simpl.
      destruct (tryPublish conn now uuid "list.created" _ _) as [conn' errs]. simpl.
      unfold findList in *. rewrite find_app_None by exact Hfresh.
      simpl. unfold hasId. simpl. rewrite String.eqb_refl. reflexivity.
  - intros s conn userId listId newPosition list board Hfind Hboard Hperm Hne.
    unfold ListController.moveList. rewrite Hfind, Hboard, Hperm. simpl.
    destruct (Z.eqb_spec (l_position list) newPosition) as [Heq|_]; [congruence|].
    simpl. rewrite findList_updateMany by apply setPosition_id.
    pose proof (findList_Some _ _ _ Hfind) as [_ Hid].
    pose proof (hasId_true _ _ Hid) as Hid'.
    destruct (l_position list <? newPosition);
      rewrite findList_updateMany by apply incPosition_id;
      rewrite Hfind; simpl; rewrite Hid'; rewrite !andb_false_r;
      unfold hasId in *; rewrite Hid'; reflexivity.
Qed.

(** *** Compact sequences of positions *)

Lemma compact_contiguous (ps : list Z) :
  compact ps <-> ps ≡ₚ seqZ 0 (Z.of_nat (length ps)).
Proof.
  split.
  - intros [Hnd Hbound].
    apply submseteq_length_Permutation.
    + apply NoDup_submseteq; [exact Hnd|].
      intros p Hin. apply elem_of_seqZ. specialize (Hbound p Hin). lia.
    + rewrite length_seqZ. lia.
  - intros Hperm. split.
    + rewrite Hperm. apply NoDup_seqZ.
    + intros p Hin. rewrite Hperm in Hin. apply elem_of_seqZ in Hin. lia.
Qed.

Lemma compact_perm (ps qs : list Z) : ps ≡ₚ qs -> compact ps -> compact qs.
Proof.
  intros Hperm [Hnd Hbound]. split.
  - rewrite <- Hperm. exact Hnd.
  - intros p Hin. rewrite <- Hperm in Hin. rewrite <- Hperm. auto.
Qed.

Lemma compact_nil : compact [].
Proof. split; [constructor | intros p Hin; inversion Hin]. Qed.

Lemma compact_insert (p : Z) (ps : list Z) :
  compact ps -> 0 <= p <= Z.of_nat (length ps) ->
  compact (p :: map (shiftUp p) ps).
Proof.
  intros [Hnd Hbound] Hp. split.
  - apply NoDup_cons. split.
    + intros Hin. apply list_elem_of_fmap in Hin as (v & Hv & _).
      unfold shiftUp in Hv. cases_Z; lia.
    + apply NoDup_fmap_2_strong; [|exact Hnd].
      intros v w _ _. unfold shiftUp. cases_Z; lia.
  - simpl. rewrite length_map. intros q Hin.
    apply elem_of_cons in Hin as [->|Hin]; [lia|].
    apply list_elem_of_fmap in Hin as (v & -> & Hv).
    specialize (Hbound v Hv). unfold shiftUp. cases_Z; lia.
Qed.

Lemma compact_remove (p : Z) (ps : list Z) :
  compact (p :: ps) -> compact (map (shiftDown p) ps).
Proof.
  intros [Hnd Hbound]. apply NoDup_cons in Hnd as [Hfresh Hnd].
  simpl in Hbound.
  assert (Hne : forall v, v ∈ ps -> v <> p) by (intros v Hv ->; contradiction).
  split.
  - apply NoDup_fmap_2_strong; [|exact Hnd].
    intros v w Hv Hw. specialize (Hne v Hv) as Hv'. specialize (Hne w Hw) as Hw'.
    unfold shiftDown. cases_Z; lia.
  - rewrite length_map. intros q Hin.
    apply list_elem_of_fmap in Hin as (v & -> & Hv).
    specialize (Hne v Hv) as Hv'.
    assert (Hvb : 0 <= v < Z.of_nat (S (length ps))) by (apply Hbound; right; exact Hv).
    assert (Hpb : 0 <= p < Z.of_nat (S (length ps))) by (apply Hbound; left).
    unfold shiftDown. cases_Z; lia.
Qed.

Lemma compact_move (old new : Z) (ps : list Z) :
  compact (old :: ps) -> 0 <= new < Z.of_nat (S (length ps)) ->
  compact (new :: map (movedPosition old new) ps).
Proof.
  intros [Hnd Hbound] Hnew. apply NoDup_cons in Hnd as [Hfresh Hnd].
  simpl in Hbound.
  assert (Hne : forall v, v ∈ ps -> v <> old) by (intros v Hv ->; contradiction).
  split.
  - apply NoDup_cons. split.
    + intros Hin. apply list_elem_of_fmap in Hin as (v & Hv & Hin).
      specialize (Hne v Hin). unfold movedPosition in Hv. cases_Z; lia.
    + apply NoDup_fmap_2_strong; [|exact Hnd].
      intros v w Hv Hw. specialize (Hne v Hv) as Hv'. specialize (Hne w Hw) as Hw'.
      unfold movedPosition. cases_Z; lia.
  - simpl. rewrite length_map. intros q Hin.
    apply elem_of_cons in Hin as [->|Hin]; [lia|].
    apply list_elem_of_fmap in Hin as (v & -> & Hv).
    specialize (Hne v Hv) as Hv'.
    assert (Hvb : 0 <= v < Z.of_nat (S (length ps))) by (apply Hbound; right; exact Hv).
    assert (Hob : 0 <= old < Z.of_nat (S (length ps))) by (apply Hbound; left).
    unfold movedPosition. cases_Z; lia.
Qed.

(** *** Positions of a scope under pointwise updates *)

Lemma positions_app b l1 l2 :
  positions b (l1 ++ l2) = positions b l1 ++ positions b l2.
Proof. unfold positions. rewrite List.filter_app, map_app. reflexivity. Qed.

Lemma positions_cons b d docs :
  positions b (d :: docs)
  = (if inScope b d then [l_position d] else []) ++ positions b docs.
Proof. unfold positions. simpl. destruct (inScope b d); reflexivity. Qed.

Lemma positions_map_scope b (G : listDoc -> listDoc) (h : Z -> Z) docs :
  (forall d, d ∈ docs -> inScope b (G d) = inScope b d) ->
  (forall d, d ∈ docs -> inScope b d = true -> l_position (G d) = h (l_position d)) ->
  positions b (map G docs) = map h (positions b docs).
Proof.
  induction docs as [|d docs IH]; intros Hscope Hpos; [reflexivity|].
  simpl. rewrite !positions_cons, map_app.
  rewrite IH;
    [| intros d' Hd'; apply Hscope; right; exact Hd'
     | intros d' Hd' Hs; apply Hpos; [right; exact Hd' | exact Hs]].
  rewrite (Hscope d) by left.
  destruct (inScope b d) eqn:Hd; simpl; [|reflexivity].
  rewrite (Hpos d) by (left || assumption). reflexivity.
Qed.

Lemma positions_map_id b (G : listDoc -> listDoc) docs :
  (forall d, d ∈ docs -> inScope b (G d) = inScope b d) ->
  (forall d, d ∈ docs -> inScope b d = true -> l_position (G d) = l_position d) ->
  positions b (map G docs) = positions b docs.
Proof.
  intros Hscope Hpos.
  rewrite (positions_map_scope b G (fun v => v)) by assumption.
  apply map_id.
Qed.

Lemma inScope_boardId b d : inScope b d = true -> l_boardId d = b.
Proof.
  unfold inScope. intros H. apply andb_true_iff in H as [H _].
  apply String.eqb_eq. exact H.
Qed.

Lemma inScope_other b b' d : b <> b' -> inScope b' d = true -> inScope b d = false.
Proof.
  intros Hne H. apply inScope_boardId in H. unfold inScope.
  destruct (String.eqb_spec (l_boardId d) b); [congruence | reflexivity].
Qed.

(** A list found by id splits the collection around it; with unique ids
    no other document carries that id. *)
Lemma split_by_id listId docs list :
  NoDup (map l_id docs) -> findList listId docs = Some list ->
  exists pre post,
    docs = pre ++ list :: post
    /\ l_id list = listId
    /\ (forall d, d ∈ pre ++ post -> l_id d <> listId).
Proof.
  intros Hnd Hfind. apply findList_Some in Hfind as [Hin Hid].
  apply list_elem_of_split in Hin as (pre & post & ->).
  exists pre, post. split; [reflexivity|]. split; [exact Hid|].
  rewrite map_app in Hnd. simpl in Hnd.
  apply NoDup_app in Hnd as (_ & Hdisj & Hpost).
  apply NoDup_cons in Hpost as [Hfresh _].
  intros d Hd Heq. apply elem_of_app in Hd as [Hd|Hd].
  - apply (Hdisj (l_id d)).
    + apply list_elem_of_fmap. eauto.
    + rewrite Heq, <- Hid. left.
  - apply Hfresh. rewrite Hid, <- Heq. apply list_elem_of_fmap. eauto.
Qed.

Lemma filter_keep_all {A : Type} (f : A -> bool) (l : list A) :
  (forall x, x ∈ l -> f x = true) -> List.filter f l = l.
Proof.
  induction l as [|x l IH]; intros H; simpl; [reflexivity|].
  rewrite (H x) by left. rewrite IH; [reflexivity|].
  intros y Hy. apply H. right. exact Hy.
Qed.

(** *** Each request keeps the collection ordered *)

Lemma findLastPosition_lastOf b docs :
  findLastPosition b docs = lastOf (positions b docs).
Proof.
  unfold findLastPosition, positions, lastOf.
  induction (List.filter (inScope b) docs) as [|d ds IH]; simpl; [reflexivity|].
  rewrite IH. reflexivity.
Qed.

Lemma lastOf_spec ps :
  match lastOf ps with
  | None => ps = []
  | Some m => m ∈ ps /\ forall v, v ∈ ps -> v <= m
  end.
Proof.
  induction ps as [|p ps IH]; simpl; [reflexivity|].
  destruct (lastOf ps) as [m|].
  - destruct IH as [Hin Hmax]. split.
    + destruct (Z.max_spec p m) as [[_ ->]|[_ ->]]; [right; exact Hin | left].
    + intros v Hv. apply elem_of_cons in Hv as [->|Hv]; [lia|].
      specialize (Hmax v Hv). lia.
  - subst ps. split; [left|].
    intros v Hv. apply elem_of_cons in Hv as [->|Hv]; [lia | inversion Hv].
Qed.

(** In a compact scope, the position after the last one is the number of
    lists. *)
Lemma next_position_compact b docs :
  compact (positions b docs) ->
  match findLastPosition b docs with
  | Some maxPosition => maxPosition + 1
  | None => 0
  end = count b docs.
Proof.
  intros Hc. rewrite findLastPosition_lastOf. unfold count.
  pose proof (lastOf_spec (positions b docs)) as Hlast.
  destruct (lastOf (positions b docs)) as [m|].
  - destruct Hlast as [Hin Hmax].
    pose proof Hc as [_ Hbound]. specialize (Hbound m Hin).
    apply compact_contiguous in Hc.
    assert (Htop : Z.of_nat (length (positions b docs)) - 1 ∈ positions b docs).
    { apply list_elem_of_In. apply (Permutation_in _ (Permutation_sym Hc)).
      apply list_elem_of_In, elem_of_seqZ. lia. }
    specialize (Hmax _ Htop). lia.
  - rewrite Hlast. reflexivity.
Qed.

Lemma compact_append (ps : list Z) :
  compact ps -> compact (ps ++ [Z.of_nat (length ps)]).
Proof.
  intros Hc. apply (compact_perm (Z.of_nat (length ps) :: ps)).
  - apply Permutation_cons_append.
  - assert (Hsame : map (shiftUp (Z.of_nat (length ps))) ps = ps).
    { transitivity (map (fun v : Z => v) ps); [|apply map_id].
      apply map_ext_in. intros v Hv.
      apply list_elem_of_In in Hv. destruct Hc as [_ Hbound].
      specialize (Hbound v Hv). unfold shiftUp. cases_Z; lia. }
    rewrite <- Hsame at 2. apply compact_insert; [exact Hc | lia].
Qed.

Section Steps.

Variable capitalizeWords : string -> string.

Lemma createList_ordered serverError now uuid newId s conn userId name boardId position :
  ordered (lists s) ->
  admissible s (CreateList newId userId name boardId position) ->
  validName (JsString.trim (capitalizeWords name)) = true ->
  ordered (lists (db (ListController.createList capitalizeWords serverError
                        now uuid newId s conn userId name boardId position))).
Proof.
  intros [Hnd Hcompact] [Hfresh Hpos] Hname. unfold ListController.createList.
  destruct (findBoard boardId (boards s)) as [board|]; [|split; assumption].
  destruct (negb (isMember board userId)); [split; assumption|].
  destruct (negb (hasPermission board userId "member")); [split; assumption|].
  apply findList_None in Hfresh.
  assert (Hnew : forall b p,
             positions b
               [ListDoc newId (JsString.trim (capitalizeWords name)) boardId p 0 false]
             = if String.eqb boardId b then [p] else []).
  { intros b p. unfold positions, inScope. simpl.
    destruct (String.eqb boardId b); reflexivity. }
  destruct position as [p|]; simpl; rewrite Hname; simpl;
    destruct (tryPublish conn now uuid "list.created" _ _) as [conn' errs]; simpl.
  - split.
    + rewrite map_app, updateMany_ids by apply incPosition_id. simpl.
      apply NoDup_app. split; [exact Hnd|]. split; [|apply NoDup_singleton].
      intros x Hx Hx'. apply list_elem_of_singleton in Hx'. subst x. contradiction.
    + intros b. rewrite positions_app, Hnew. unfold updateMany.
      destruct (String.eqb_spec boardId b) as [<-|Hne].
      * rewrite (positions_map_scope boardId _ (shiftUp p)).
        -- apply (compact_perm (p :: map (shiftUp p) (positions boardId (lists s)))).
           ++ apply Permutation_cons_append.
           ++ apply compact_insert; [apply Hcompact | exact Hpos].
        -- intros d _. destruct (inScope boardId d && (p <=? l_position d)); reflexivity.
        -- intros d _ Hd. rewrite Hd. unfold shiftUp. simpl.
           destruct (p <=? l_position d); reflexivity.
      * rewrite app_nil_r, positions_map_id; [apply Hcompact | |].
        -- intros d _. destruct (inScope boardId d && (p <=? l_position d)); reflexivity.
        -- intros d _ Hd. rewrite (inScope_other boardId b d Hne Hd). reflexivity.
  - split.
    + rewrite map_app. simpl.
      apply NoDup_app. split; [exact Hnd|]. split; [|apply NoDup_singleton].
      intros x Hx Hx'. apply list_elem_of_singleton in Hx'. subst x. contradiction.
    + intros b. rewrite positions_app, Hnew.
      destruct (String.eqb_spec boardId b) as [<-|Hne].
      * rewrite next_position_compact by apply Hcompact.
        apply compact_append, Hcompact.
      * rewrite app_nil_r. apply Hcompact.
Qed.

End Steps.

Lemma moveUpdate_id b listId old new d : l_id (moveUpdate b listId old new d) = l_id d.
Proof.
  unfold moveUpdate.
  destruct (old <? new);
    match goal with |- context [if ?c then incPosition _ d else d] => destruct c end;
    match goal with |- context [if ?c then setPosition _ _ else _] => destruct c end;
    reflexivity.
Qed.

Lemma moveUpdate_inScope b listId old new b' d :
  inScope b' (moveUpdate b listId old new d) = inScope b' d.
Proof.
  unfold moveUpdate.
  destruct (old <? new);
    match goal with |- context [if ?c then incPosition _ d else d] => destruct c end;
    match goal with |- context [if ?c then setPosition _ _ else _] => destruct c end;
    reflexivity.
Qed.

Lemma moveUpdate_moved b listId old new d :
  hasId listId d = true -> moveUpdate b listId old new d = setPosition new d.
Proof.
  intros Hid. unfold moveUpdate. rewrite Hid. simpl. rewrite !andb_false_r.
  destruct (old <? new); rewrite Hid; reflexivity.
Qed.

Lemma moveUpdate_in_scope b listId old new d :
  hasId listId d = false -> inScope b d = true ->
  l_position (moveUpdate b listId old new d) = movedPosition old new (l_position d).
Proof.
  intros Hid Hscope. unfold moveUpdate, movedPosition.
  rewrite Hid, Hscope. simpl. rewrite !andb_true_r.
  destruct (old <? new);
    match goal with |- context [if ?c then incPosition _ d else d] => destruct c end;
    unfold hasId in *; simpl; rewrite Hid; reflexivity.
Qed.

Lemma moveUpdate_out_of_scope b listId old new d :
  hasId listId d = false -> inScope b d = false ->
  moveUpdate b listId old new d = d.
Proof.
  intros Hid Hscope. unfold moveUpdate. rewrite Hscope. simpl.
  destruct (old <? new); rewrite Hid; reflexivity.
Qed.

Lemma closeGap_id b p d : l_id (closeGap b p d) = l_id d.
Proof. unfold closeGap. destruct (inScope b d && (p <? l_position d)); reflexivity. Qed.

Lemma closeGap_inScope b p b' d : inScope b' (closeGap b p d) = inScope b' d.
Proof. unfold closeGap. destruct (inScope b d && (p <? l_position d)); reflexivity. Qed.

Lemma closeGap_in_scope b p d :
  inScope b d = true -> l_position (closeGap b p d) = shiftDown p (l_position d).
Proof.
  intros Hscope. unfold closeGap, shiftDown. rewrite Hscope. simpl.
  destruct (p <? l_position d); reflexivity.
Qed.

Lemma closeGap_out_of_scope b p d : inScope b d = false -> closeGap b p d = d.
Proof. intros Hscope. unfold closeGap. rewrite Hscope. reflexivity. Qed.

Lemma hasId_false_in listId (docs : list listDoc) :
  (forall d, d ∈ docs -> l_id d <> listId) ->
  forall d, d ∈ docs -> hasId listId d = false.
Proof. intros H d Hd. apply hasId_false, H, Hd. Qed.

(** Moving the list found in the middle of a collection keeps every scope
    compact. *)
Lemma move_compact b' pre list post new :
  l_isArchived list = false ->
  (forall d, d ∈ pre ++ post -> l_id d <> l_id list) ->
  0 <= new < count (l_boardId list) (pre ++ list :: post) ->
  compact (positions b' (pre ++ list :: post)) ->
  compact (positions b'
             (map (moveUpdate (l_boardId list) (l_id list) (l_position list) new)
                (pre ++ list :: post))).
Proof.
  intros Harch Hothers Hnew Hc.
  set (b := l_boardId list) in *. set (old := l_position list) in *.
  set (G := moveUpdate b (l_id list) old new).
  pose proof (hasId_false_in _ _ Hothers) as Hids.
  assert (HG : G list = setPosition new list)
    by (apply moveUpdate_moved, hasId_true; reflexivity).
  rewrite map_app, positions_app. simpl. rewrite positions_cons, HG.
  rewrite positions_app, positions_cons in Hc.
  change (inScope b' (setPosition new list)) with (inScope b' list).
  change (l_position (setPosition new list)) with new.
  destruct (String.eqb_spec b b') as [<-|Hne].
  - assert (Hlist : inScope b list = true).
    { unfold inScope, b. rewrite String.eqb_refl, Harch. reflexivity. }
    rewrite Hlist in *. simpl in *.
    rewrite !(positions_map_scope b G (movedPosition old new)).
    + apply (compact_perm
               (new :: map (movedPosition old new) (positions b pre ++ positions b post))).
      * rewrite map_app. apply Permutation_middle.
      * apply compact_move.
        -- apply (compact_perm (positions b pre ++ old :: positions b post));
             [symmetry; apply Permutation_middle | exact Hc].
        -- unfold count in Hnew. rewrite positions_app, positions_cons, Hlist in Hnew.
           simpl in Hnew. rewrite !length_app in *. simpl in Hnew. lia.
    + intros d _. apply moveUpdate_inScope.
    + intros d Hd. apply moveUpdate_in_scope, Hids, elem_of_app. right. exact Hd.
    + intros d _. apply moveUpdate_inScope.
    + intros d Hd. apply moveUpdate_in_scope, Hids, elem_of_app. left. exact Hd.
  - assert (Hlist : inScope b' list = false).
    { unfold inScope. fold b. destruct (String.eqb_spec b b'); [contradiction | reflexivity]. }
    rewrite Hlist in *. simpl in *.
    rewrite !(positions_map_id b' G); [exact Hc | | | |].
    + intros d _. apply moveUpdate_inScope.
    + intros d Hd Hs. unfold G. rewrite moveUpdate_out_of_scope; [reflexivity | |].
      * apply Hids, elem_of_app. right. exact Hd.
      * apply (inScope_other b b' d Hne Hs).
    + intros d _. apply moveUpdate_inScope.
    + intros d Hd Hs. unfold G. rewrite moveUpdate_out_of_scope; [reflexivity | |].
      * apply Hids, elem_of_app. left. exact Hd.
      * apply (inScope_other b b' d Hne Hs).
Qed.

(** Taking a list out of its scope and closing the gap keeps every scope
    compact. *)
Lemma remove_compact b' pre list post :
  l_isArchived list = false ->
  compact (positions b' (pre ++ list :: post)) ->
  compact (positions b'
             (map (closeGap (l_boardId list) (l_position list)) (pre ++ post))).
Proof.
  intros Harch Hc.
  set (b := l_boardId list) in *. set (p := l_position list) in *.
  rewrite positions_app, positions_cons in Hc.
  destruct (String.eqb_spec b b') as [<-|Hne].
  - assert (Hlist : inScope b list = true).
    { unfold inScope, b. rewrite String.eqb_refl, Harch. reflexivity. }
    rewrite Hlist in Hc. simpl in Hc.
    rewrite (positions_map_scope b _ (shiftDown p)).
    + rewrite positions_app. apply (compact_remove p).
      apply (compact_perm (positions b pre ++ p :: positions b post));
        [symmetry; apply Permutation_middle | exact Hc].
    + intros d _. apply closeGap_inScope.
    + intros d _. apply closeGap_in_scope.
  - assert (Hlist : inScope b' list = false).
    { unfold inScope. fold b. destruct (String.eqb_spec b b'); [contradiction | reflexivity]. }
    rewrite Hlist in Hc. simpl in Hc.
    rewrite positions_map_id; [rewrite positions_app; exact Hc | |].
    + intros d _. apply closeGap_inScope.
    + intros d _ Hs. rewrite closeGap_out_of_scope; [reflexivity|].
      apply (inScope_other b b' d Hne Hs).
Qed.

Lemma moveList_ordered s conn userId listId newPosition :
  ordered (lists s) ->
  admissible s (MoveList userId listId newPosition) ->
  ordered (lists (db (ListController.moveList s conn userId listId newPosition))).
Proof.
  intros [Hnd Hc] Hadm. simpl in Hadm. unfold ListController.moveList.
  destruct (findList listId (lists s)) as [list|] eqn:Hfind; [|split; assumption].
  destruct (findBoard (l_boardId list) (boards s)) as [board|]; [|split; assumption].
  destruct (negb (hasPermission board userId "member")); [split; assumption|].
  destruct (l_position list =? newPosition); [split; assumption|].
  destruct Hadm as [Harch Hrange]. simpl.
  destruct (split_by_id _ _ _ Hnd Hfind) as (pre & post & Hdocs & Hid & Hothers).
  match goal with
  | |- ordered ?l =>
      assert (Hlists : l = map (moveUpdate (l_boardId list) listId
                                   (l_position list) newPosition) (lists s))
  end.
  { unfold updateMany, moveUpdate.
    destruct (l_position list <? newPosition); rewrite map_map; reflexivity. }
  rewrite Hlists. split.
  - rewrite map_map. erewrite map_ext; [exact Hnd|].
    intros d. apply moveUpdate_id.
  - intros b'. rewrite Hdocs in *. subst listId.
    apply move_compact; auto.
Qed.

Lemma archiveList_ordered s conn userId listId :
  ordered (lists s) ->
  ordered (lists (db (ListController.archiveList s conn userId listId))).
Proof.
  intros [Hnd Hc]. unfold ListController.archiveList.
  destruct (findList listId (lists s)) as [list|] eqn:Hfind; [|split; assumption].
  destruct (findBoard (l_boardId list) (boards s)) as [board|]; [|split; assumption].
  destruct (negb (hasPermission board userId "member")); [split; assumption|].
  destruct (l_isArchived list) eqn:Harch; [split; assumption|].
  simpl. split.
  - rewrite !updateMany_ids; [exact Hnd | reflexivity | reflexivity].
  - intros b'.
    destruct (split_by_id _ _ _ Hnd Hfind) as (pre & post & Hdocs & Hid & Hothers).
    pose proof (hasId_false_in _ _ Hothers) as Hids.
    specialize (Hc b'). rewrite Hdocs in *.
    fold (closeGap (l_boardId list) (l_position list)).
    unfold updateMany. rewrite map_map, map_app. simpl.
    rewrite (hasId_true listId list Hid).
    assert (Hgone : closeGap (l_boardId list) (l_position list) (setArchived true list)
                    = setArchived true list).
    { apply closeGap_out_of_scope. unfold inScope. simpl. apply andb_false_r. }
    assert (Hkept : forall part, (forall d, d ∈ part -> hasId listId d = false) ->
              map (fun d => closeGap (l_boardId list) (l_position list)
                              (if hasId listId d then setArchived true d else d)) part
              = map (closeGap (l_boardId list) (l_position list)) part).
    { intros part Hpart. apply map_ext_in. intros d Hd.
      rewrite Hpart by (apply list_elem_of_In; exact Hd). reflexivity. }
    rewrite !Hkept by (intros d Hd; apply Hids, elem_of_app; auto).
    unfold closeGap at 2. fold (closeGap (l_boardId list) (l_position list) (setArchived true list)).
    rewrite Hgone.
    rewrite positions_app, positions_cons.
    replace (inScope b' (setArchived true list)) with false
      by (unfold inScope; simpl; symmetry; apply andb_false_r).
    simpl. rewrite <- positions_app, <- map_app.
    apply remove_compact; assumption.
Qed.

Lemma deleteList_ordered s conn userId listId :
  ordered (lists s) ->
  admissible s (DeleteList userId listId) ->
  ordered (lists (db (ListController.deleteList s conn userId listId))).
Proof.
  intros [Hnd Hc] Hadm. simpl in Hadm. unfold ListController.deleteList.
  destruct (findList listId (lists s)) as [list|] eqn:Hfind; [|split; assumption].
  destruct (findBoard (l_boardId list) (boards s)) as [board|]; [|split; assumption].
  destruct (negb (hasPermission board userId "admin")); [split; assumption|].
  destruct (0 <? countCards listId false (cards s)); [split; assumption|].
  simpl.
  destruct (split_by_id _ _ _ Hnd Hfind) as (pre & post & Hdocs & Hid & Hothers).
  pose proof (hasId_false_in _ _ Hothers) as Hids.
  fold (closeGap (l_boardId list) (l_position list)).
  assert (Hremaining :
            List.filter (fun d => negb (hasId listId d))
              (updateMany (fun d => inScope (l_boardId list) d
                                    && (l_position list <? l_position d))
                 (incPosition (-1)) (lists s))
            = map (closeGap (l_boardId list) (l_position list)) (pre ++ post)).
  { rewrite Hdocs. unfold updateMany.
    fold (closeGap (l_boardId list) (l_position list)).
    rewrite !map_app, List.filter_app. simpl.
    unfold hasId at 2. rewrite closeGap_id. fold (hasId listId list).
    rewrite (hasId_true listId list Hid). simpl.
    rewrite !filter_keep_all; [reflexivity | |];
      intros d Hd; apply list_elem_of_fmap in Hd as (d0 & -> & Hd0);
      unfold hasId; rewrite closeGap_id; fold (hasId listId d0);
      rewrite Hids; [reflexivity | | reflexivity |]; apply elem_of_app; auto. }
  rewrite Hremaining. split.
  - rewrite map_map. erewrite map_ext; [|intros d; apply closeGap_id].
    rewrite Hdocs, map_app in Hnd. simpl in Hnd.
    apply NoDup_app in Hnd as (Hpre & Hdisj & Hpost).
    apply NoDup_cons in Hpost as [_ Hpost].
    rewrite map_app. apply NoDup_app. split; [exact Hpre|]. split; [|exact Hpost].
    intros x Hx Hx'. apply (Hdisj x Hx). right. exact Hx'.
  - intros b'. specialize (Hc b'). rewrite Hdocs in Hc.
    apply remove_compact; assumption.
Qed.

Lemma perform_ordered capitalizeWords s o :
  ordered (lists s) -> admissible s o -> named capitalizeWords o ->
  ordered (lists (perform capitalizeWords s o)).
Proof.
  intros Hord Hadm Hname. destruct o; unfold perform.
  - apply createList_ordered; assumption.
  - apply moveList_ordered; assumption.
  - apply archiveList_ordered; assumption.
  - apply deleteList_ordered; assumption.
Qed.

Lemma run_ordered capitalizeWords ops : forall s,
  ordered (lists s) -> admissibleAll capitalizeWords s ops ->
  ordered (lists (run capitalizeWords s ops)).
Proof.
  induction ops as [|o ops IH]; intros s Hord Hadm; simpl; [exact Hord|].
  destruct Hadm as (Ho & Hname & Hrest).
  apply IH; [apply perform_ordered; assumption | exact Hrest].
Qed.

(** Against C2: a list created at position 5 on a board without lists
    leaves the board's positions at {5}, which is not {0}. *)
Lemma createList_beyond_count_leaves_gap :
  ~ contiguous "B"
      (lists (run (fun name => name) emptyBoardStore
                [CreateList "n1" "bob" "Inbox" "B" (Some 5)])).
Proof.
  intros H. apply compact_contiguous in H as [_ Hbound].
  specialize (Hbound 5). vm_compute in Hbound.
  destruct Hbound as [_ Hlt]; [left | discriminate Hlt].
Qed.

(** Outside the admissible requests as well: a creation with a blank name
    at position 1 of four lists shifts the lists from position 1 on, then
    the schema rejects the new list, and position 1 stays empty. *)
Lemma createList_blank_name_leaves_gap :
  let r := ListController.createList (fun name => name) "" "" "" "e"
             sampleStore None "bob" "   " "B" (Some 1) in
  r_status (res r) = 500
  /\ idPositions (lists (db r)) = [("a", 0); ("b", 2); ("c", 3); ("d", 4)]
  /\ lists (db r)
     = lists (run (fun name => name) sampleStore
                [CreateList "e" "bob" "   " "B" (Some 1)]).
Proof. vm_compute. repeat split. Qed.

(** C2, as the code has it. Starting from a collection with unique list
    ids in which every board's positions are 0 .. n-1, any sequence of
    admissible creations, moves, archivals and deletions leaves every
    board's positions at 0 .. n-1 for its new number n of lists, without
    gaps or duplicates. Admissible: a new list with a name the schema
    accepts and an insert position within [0, count], a move of a list
    that is not archived to a position within [0, count - 1], a deletion
    of a list that is not archived. *)
Theorem contiguity_preserved capitalizeWords (s : store) (ops : list operation) :
  NoDup (map l_id (lists s)) ->
  (forall b, contiguous b (lists s)) ->
  admissibleAll capitalizeWords s ops ->
  forall b, contiguous b (lists (run capitalizeWords s ops)).
Proof.
  intros Hnd Hc Hadm b. apply compact_contiguous.
  apply (run_ordered capitalizeWords ops s); [|exact Hadm].
  split; [exact Hnd|]. intros b'. apply compact_contiguous, Hc.
Qed.

Lemma contiguity_preserved_witness :
  positions "B" (lists (run (fun name => name) sampleStore sampleOps))
  ≡ₚ [0; 1; 2; 3].
Proof.
  assert (Hnd : NoDup (map l_id (lists sampleStore))).
  { apply (bool_decide_unpack _). vm_compute. exact I. }
  assert (Hc : forall b, contiguous b (lists sampleStore)).
  { intros b. unfold contiguous, positions, sampleStore, inScope.
    cbn -[String.eqb seqZ].
    destruct (String.eqb "B" b); vm_compute; reflexivity. }
  assert (Hadm : admissibleAll (fun name => name) sampleStore sampleOps).
  { vm_compute. repeat split; discriminate. }
  exact (contiguity_preserved (fun name => name) sampleStore sampleOps Hnd Hc Hadm "B").
Defined.

(** Outside the admissible requests: deleting a list that is already
    archived shifts the live lists by its stale position. After archiving
    and then deleting the first of four lists, two live lists share
    position 0. *)
Lemma deleteList_archived_shifts_live_lists :
  positions "B"
    (lists (run (fun name => name) sampleStore
              [ArchiveList "bob" "a"; DeleteList "ann" "a"]))
  = [0; 0; 1].
Proof. vm_compute. reflexivity. Qed.

(** *** Instances on the sample data *)

Lemma moveList_effect_witness :
  findList "d" (lists (db (ListController.moveList sampleStore None "bob" "d" 1)))
  = Some (ListDoc "d" "Done" "B" 1 0 false).
Proof.
  assert (Hnd : NoDup (map l_id (lists sampleStore))).
  { apply (bool_decide_unpack _). vm_compute. exact I. }
  destruct (proj1 moveList_effect sampleStore None "bob" "d" 1
              (ListDoc "d" "Done" "B" 3 0 false) sampleBoard
              Hnd eq_refl eq_refl eq_refl)
    as (_ & Hmoved & _).
  apply Hmoved. discriminate.
Defined.

Lemma requested_position_used_as_given_witness :
  findList "n1"
    (lists (db (ListController.createList (fun name => name) "" "" "" "n1"
                  emptyBoardStore None "bob" "Inbox" "B" (Some 5))))
  = Some (ListDoc "n1" "Inbox" "B" 5 0 false).
Proof.
  destruct (proj1 requested_position_used_as_given (fun name => name) "" "" "" "n1"
              emptyBoardStore None "bob" "Inbox" "B" sampleBoard
              eq_refl eq_refl eq_refl eq_refl eq_refl)
    as [Hgiven _].
  exact (Hgiven 5).
Defined.

Lemma publish_failure_keeps_success_witness :
  r_status
    (res (ListController.createList (fun name => name) "" "t0" "m1" "n1"
            sampleStore None "bob" "Inbox" "B" None)) = 201.
Proof.
  destruct (publish_failure_keeps_success (fun name => name)
              "" "t0" "m1" "n1" sampleStore [])
    as (Hcreate & _ & _).
  destruct (Hcreate "bob" "Inbox" "B" None) as (_ & _ & Hsuccess).
  destruct (Hsuccess eq_refl) as [Hstatus _].
  exact Hstatus.
Defined.


(** ** Properties: splitting and joining strings *)

Lemma split_nonempty sep s : JsString.split sep s <> [].
Proof.
  destruct s as [|c s]; simpl; [discriminate|].
  destruct (Ascii.eqb c sep); [discriminate|].
  destruct (JsString.split sep s); discriminate.
Qed.

(** Joining the parts of a split with the separator gives the string
    back. *)
Lemma join_split sep s :
  joinParts (String sep "") (JsString.split sep s) = s.
Proof.
  induction s as [|c s IH]; simpl; [reflexivity|].
  destruct (Ascii.eqb_spec c sep) as [->|Hne].
  - pose proof (split_nonempty sep s) as Hnil.
    destruct (JsString.split sep s) as [|p ps]; [contradiction|].
    simpl in *. rewrite IH. reflexivity.
  - pose proof (split_nonempty sep s) as Hnil.
    destruct (JsString.split sep s) as [|p ps]; [contradiction|].
    destruct ps as [|q qs]; [simpl in *; congruence|].
    change (joinParts (String sep "") (String c p :: q :: qs))
      with (String c (joinParts (String sep "") (p :: q :: qs))).
    rewrite IH. reflexivity.
Qed.

Lemma split_inj sep s t : JsString.split sep s = JsString.split sep t -> s = t.
Proof.
  intros H. rewrite <- (join_split sep s), <- (join_split sep t), H. reflexivity.
Qed.

Lemma split_dotless sep s : hasChar sep s = false -> JsString.split sep s = [s].
Proof.
  induction s as [|c s IH]; simpl; [reflexivity|].
  intros H. apply orb_false_iff in H as [Hc Hs]. rewrite Hc, (IH Hs). reflexivity.
Qed.

Lemma split_app sep a b :
  JsString.split sep (a +:+ String sep b)
  = JsString.split sep a ++ JsString.split sep b.
Proof.
  induction a as [|c a IH]; simpl.
  - rewrite Ascii.eqb_refl. reflexivity.
  - destruct (Ascii.eqb c sep); [rewrite IH; reflexivity|].
    rewrite IH. pose proof (split_nonempty sep a) as Hnil.
    destruct (JsString.split sep a); [contradiction | reflexivity].
Qed.

(** ** Properties: the pattern matcher as a recursion on segments *)

Lemma matchLoop_exhausted (R P : list string) n : forall i,
  (length R <= i)%nat -> (length R < length P)%nat -> (i + n = length P)%nat ->
  Consumer.matchLoop R P i n = onlyStarsThenHash (drop i P).
Proof.
  induction n as [|n IH]; intros i HR Hlt Hn; simpl.
  - rewrite drop_ge by lia. simpl. apply Nat.eqb_neq. lia.
  - destruct (lookup_lt_is_Some_2 P i) as [p Hp]; [lia|].
    rewrite (drop_S _ _ _ Hp), Hp, (lookup_ge_None_2 R i) by lia. simpl.
    repeat case_bool_decide; simplify_eq; try reflexivity; try congruence.
    apply IH; lia.
Qed.

Lemma matchLoop_segments (R P : list string) n : forall i,
  (i <= length R)%nat -> (i <= length P)%nat ->
  (i + n = Nat.max (length R) (length P))%nat ->
  Consumer.matchLoop R P i n = segmentsMatch (drop i R) (drop i P).
Proof.
  induction n as [|n IH]; intros i HR HP Hn.
  - simpl. rewrite !drop_ge by lia. simpl. apply Nat.eqb_eq. lia.
  - simpl. destruct (decide (i < length P)%nat) as [HiP|HiP].
    + destruct (lookup_lt_is_Some_2 P i HiP) as [p Hp].
      rewrite (drop_S _ _ _ Hp), Hp.
      destruct (decide (i < length R)%nat) as [HiR|HiR].
      * destruct (lookup_lt_is_Some_2 R i HiR) as [r Hr].
        rewrite (drop_S _ _ _ Hr), Hr. simpl.
        repeat case_bool_decide; simplify_eq; simpl; try reflexivity;
          try congruence; apply IH; lia.
      * rewrite (lookup_ge_None_2 R i) by lia. rewrite (drop_ge R) by lia. simpl.
        repeat case_bool_decide; simplify_eq; simpl; try reflexivity; try congruence.
        apply matchLoop_exhausted; lia.
    + rewrite (lookup_ge_None_2 P i) by lia. rewrite (drop_ge P) by lia.
      destruct (lookup_lt_is_Some_2 R i) as [r Hr]; [lia|].
      rewrite (drop_S _ _ _ Hr), Hr. simpl.
      repeat case_bool_decide; simplify_eq; simpl; try reflexivity; congruence.
Qed.

(** X1. The index loop of [matchPattern] computes segment-wise matching
    of the key's dot-separated segments against the pattern's: a [#]
    segment accepts whatever is left of the key, a [*] segment accepts one
    segment, any other segment accepts only itself, and once the key has
    run out only [*] segments followed by a [#] are accepted. *)
Theorem matchPattern_segments (routingKey pattern : string) :
  Consumer.matchPattern routingKey pattern
  = segmentsMatch (JsString.split "." routingKey) (JsString.split "." pattern).
Proof.
  unfold Consumer.matchPattern.
  destruct (String.eqb_spec pattern "#") as [->|_].
  - reflexivity.
  - rewrite (matchLoop_segments _ _ _ 0%nat) by lia. reflexivity.
Qed.

Lemma segmentsMatch_literal (P : list string) : forall R,
  Forall literal P -> (segmentsMatch R P = true <-> R = P).
Proof.
  induction P as [|p ps IH]; intros R Hlit.
  - destruct R; simpl; split; congruence.
  - apply Forall_cons in Hlit as [[Hhash Hstar] Hlit]. simpl.
    rewrite (bool_decide_eq_false_2 _ Hhash), (bool_decide_eq_false_2 _ Hstar).
    destruct R as [|r rs]; simpl; [split; discriminate|].
    rewrite andb_true_iff, bool_decide_eq_true, (IH rs Hlit).
    split; [intros [-> ->]; reflexivity | intros [= -> ->]; auto].
Qed.

(** X2. A pattern without wildcard segments matches exactly one routing
    key: itself. *)
Theorem matchPattern_literal (routingKey pattern : string) :
  Forall literal (JsString.split "." pattern) ->
  (Consumer.matchPattern routingKey pattern = true <-> routingKey = pattern).
Proof.
  intros Hlit. rewrite matchPattern_segments, (segmentsMatch_literal _ _ Hlit).
  split; [apply split_inj | intros ->; reflexivity].
Qed.

Lemma matchPattern_literal_witness :
  Consumer.matchPattern "list.created" "list.created" = true.
Proof.
  apply (matchPattern_literal "list.created" "list.created"); [|reflexivity].
  vm_compute. repeat constructor; discriminate.
Defined.

Lemma segmentsMatch_hash (A R Q : list string) :
  segmentsMatch (A ++ R) (A ++ "#" :: Q) = true.
Proof.
  induction A as [|a A IH]; simpl.
  - reflexivity.
  - case_bool_decide; [reflexivity|].
    rewrite IH, (bool_decide_eq_true_2 (a = a)) by reflexivity.
    rewrite orb_true_r. reflexivity.
Qed.

(** X3. A pattern is read only up to its first [#] segment: a key that
    repeats the segments written before the [#] matches, whatever follows
    them in the key and whatever follows the [#] in the pattern; the key
    may also end right before the [#]. *)
Theorem matchPattern_hash_prefix (a r q : string) :
  Consumer.matchPattern (a +:+ "." +:+ r) (a +:+ ".#") = true
  /\ Consumer.matchPattern (a +:+ "." +:+ r) (a +:+ ".#." +:+ q) = true
  /\ Consumer.matchPattern a (a +:+ ".#") = true
  /\ Consumer.matchPattern a (a +:+ ".#." +:+ q) = true.
Proof.
  rewrite !matchPattern_segments.
  change (a +:+ "." +:+ r) with (a +:+ String "." r).
  change (a +:+ ".#") with (a +:+ String "." "#").
  change (a +:+ ".#." +:+ q) with (a +:+ String "." ("#" +:+ String "." q)).
  rewrite !split_app. change (JsString.split "." "#") with ["#"].
  repeat split.
  - apply segmentsMatch_hash.
  - apply (segmentsMatch_hash _ _ (JsString.split "." q)).
  - rewrite <- (app_nil_r (JsString.split "." a)) at 1. apply segmentsMatch_hash.
  - rewrite <- (app_nil_r (JsString.split "." a)) at 1.
    apply (segmentsMatch_hash _ _ (JsString.split "." q)).
Qed.

Lemma onlyStarsThenHash_no_hash (P : list string) :
  Forall (fun p => p <> "#") P -> onlyStarsThenHash P = false.
Proof.
  induction 1 as [|p ps Hp _ IH]; simpl; [reflexivity|].
  rewrite (bool_decide_eq_false_2 _ Hp), IH. apply andb_false_r.
Qed.

Lemma segmentsMatch_length (P : list string) : forall R,
  Forall (fun p => p <> "#") P -> segmentsMatch R P = true -> length R = length P.
Proof.
  induction P as [|p ps IH]; intros R Hno Hm.
  - destruct R; [reflexivity | discriminate].
  - apply Forall_cons in Hno as [Hp Hno]. simpl in Hm.
    rewrite (bool_decide_eq_false_2 _ Hp) in Hm.
    destruct R as [|r rs].
    + rewrite (onlyStarsThenHash_no_hash _ Hno), andb_false_r in Hm. discriminate.
    + apply andb_true_iff in Hm as [_ Hm]. simpl. f_equal. apply IH; assumption.
Qed.

Lemma segmentsMatch_star (A : list string) (s : string) :
  segmentsMatch (A ++ [s]) (A ++ ["*"]) = true.
Proof.
  induction A as [|a A IH]; simpl.
  - reflexivity.
  - case_bool_decide; [reflexivity|].
    rewrite IH, (bool_decide_eq_true_2 (a = a)) by reflexivity.
    rewrite orb_true_r. reflexivity.
Qed.

(** X4. A [*] segment accepts one segment of any content, the empty
    segment included; and a pattern without a [#] segment only matches
    keys that have as many segments as the pattern. *)
Theorem matchPattern_star_one_segment :
  (forall a s,
      hasChar "." s = false ->
      Consumer.matchPattern (a +:+ "." +:+ s) (a +:+ ".*") = true)
  /\ (forall routingKey pattern,
        Forall (fun p => p <> "#") (JsString.split "." pattern) ->
        Consumer.matchPattern routingKey pattern = true ->
        length (JsString.split "." routingKey)
        = length (JsString.split "." pattern)).
Proof.
  split.
  - intros a s Hs. rewrite matchPattern_segments.
    change (a +:+ "." +:+ s) with (a +:+ String "." s).
    change (a +:+ ".*") with (a +:+ String "." "*").
    rewrite !split_app, (split_dotless _ _ Hs).
    apply segmentsMatch_star.
  - intros routingKey pattern Hno. rewrite matchPattern_segments.
    apply segmentsMatch_length. exact Hno.
Qed.

Lemma matchPattern_star_one_segment_witness :
  Consumer.matchPattern "card." "card.*" = true
  /\ length (JsString.split "." "card.moved") = length (JsString.split "." "card.*").
Proof.
  split.
  - exact (proj1 matchPattern_star_one_segment "card" "" eq_refl).
  - apply (proj2 matchPattern_star_one_segment "card.moved" "card.*").
    + vm_compute. repeat constructor; discriminate.
    + vm_compute. reflexivity.
Defined.

(** ** Properties: the handler registry *)

Lemma handlerOf_register_other p h q (r : Consumer.registry) :
  q <> p ->
  handlerOf q (Consumer.registerHandler p h r) = handlerOf q r.
Proof.
  intros Hne. unfold handlerOf. induction r as [|[p0 h0] r IH]; simpl.
  - destruct (String.eqb_spec p q); [congruence | reflexivity].
  - destruct (String.eqb_spec p0 p) as [->|Hp0]; simpl.
    + destruct (String.eqb_spec p q); [congruence | reflexivity].
    + destruct (String.eqb_spec p0 q); [reflexivity | exact IH].
Qed.

(** X5. [registerHandler] behaves as a map that remembers insertion
    order: the pattern then maps to the new handler and every other
    pattern to what it mapped to; a pattern that was registered keeps its
    place in the iteration order, a new one goes last; patterns stay
    unique. *)
Theorem registerHandler_map (p : string) (h : Consumer.handler)
    (r : Consumer.registry) :
  handlerOf p (Consumer.registerHandler p h r) = Some h
  /\ (forall q, q <> p ->
        handlerOf q (Consumer.registerHandler p h r) = handlerOf q r)
  /\ (p ∈ patterns r -> patterns (Consumer.registerHandler p h r) = patterns r)
  /\ (p ∉ patterns r -> patterns (Consumer.registerHandler p h r) = patterns r ++ [p])
  /\ (NoDup (patterns r) -> NoDup (patterns (Consumer.registerHandler p h r))).
Proof.
  assert (Hin : p ∈ patterns r ->
                patterns (Consumer.registerHandler p h r) = patterns r).
  { unfold patterns. induction r as [|[p0 h0] r IH]; simpl; intros H.
    - inversion H.
    - destruct (String.eqb_spec p0 p) as [->|Hne]; [reflexivity|].
      simpl. f_equal. apply IH.
      apply elem_of_cons in H as [->|H]; [contradiction | exact H]. }
  assert (Hout : p ∉ patterns r ->
                 patterns (Consumer.registerHandler p h r) = patterns r ++ [p]).
  { clear Hin. unfold patterns. induction r as [|[p0 h0] r IH]; simpl; intros H.
    - reflexivity.
    - apply not_elem_of_cons in H as [Hne H].
      destruct (String.eqb_spec p0 p) as [->|_]; [contradiction|].
      simpl. f_equal. apply IH, H. }
  split; [|split; [|split; [|split]]].
  - clear Hin Hout. unfold handlerOf. induction r as [|[p0 h0] r IH]; simpl.
    + rewrite String.eqb_refl. reflexivity.
    + destruct (String.eqb_spec p0 p) as [->|Hne]; simpl.
      * rewrite String.eqb_refl. reflexivity.
      * destruct (String.eqb_spec p0 p); [contradiction | exact IH].
  - intros q. apply handlerOf_register_other.
  - exact Hin.
  - exact Hout.
  - intros Hnd. destruct (decide (p ∈ patterns r)) as [H|H].
    + rewrite (Hin H). exact Hnd.
    + rewrite (Hout H). apply NoDup_app. split; [exact Hnd|].
      split; [|apply NoDup_singleton].
      intros x Hx Hx'. apply list_elem_of_singleton in Hx'. subst x. contradiction.
Qed.

Lemma registerHandler_map_witness :
  patterns (Consumer.registerHandler "user.*" (fun _ => Consumer.Throws)
              [("user.*", fun _ => Consumer.Returns);
               ("notification.*", fun _ => Consumer.Returns)])
  = ["user.*"; "notification.*"].
Proof.
  destruct (registerHandler_map "user.*" (fun _ => Consumer.Throws)
              [("user.*", fun _ => Consumer.Returns);
               ("notification.*", fun _ => Consumer.Returns)])
    as (_ & _ & Hkept & _).
  apply Hkept. left.
Defined.

(** ** Properties: routing keys of the publisher *)

Lemma replace_dotless c repl s :
  hasChar c s = false -> JsString.replace c repl s = s.
Proof.
  induction s as [|c' s IH]; simpl; [reflexivity|].
  intros H. apply orb_false_iff in H as [Hc Hs]. rewrite Hc, (IH Hs). reflexivity.
Qed.

Lemma replace_first c repl a b :
  hasChar c a = false ->
  JsString.replace c repl (a +:+ String c b) = a +:+ repl +:+ b.
Proof.
  induction a as [|c' a IH]; simpl.
  - intros _. rewrite Ascii.eqb_refl. reflexivity.
  - intros H. apply orb_false_iff in H as [Hc Ha]. rewrite Hc, (IH Ha). reflexivity.
Qed.

Lemma replace_changes c d s :
  c <> d -> hasChar c s = true -> JsString.replace c (String d "") s <> s.
Proof.
  intros Hcd. induction s as [|c' s IH]; simpl; [discriminate|].
  destruct (Ascii.eqb_spec c' c) as [->|Hne]; simpl.
  - intros _ [= H]. congruence.
  - intros Hs [= H]. exact (IH Hs H).
Qed.

Lemma replace_length c d s :
  String.length (JsString.replace c (String d "") s) = String.length s.
Proof.
  induction s as [|c' s IH]; simpl; [reflexivity|].
  destruct (Ascii.eqb c' c); simpl; [reflexivity | rewrite IH; reflexivity].
Qed.

(** X6. The routing key [publishEvent] uses: an explicit, non-empty key
    is used as given; without one the key is the event type with its
    first dot, and only the first, turned into an underscore. That key has
    the length of the event type and equals it exactly when the type
    contains no dot. *)
Theorem routingPattern_spec :
  (forall eventType routingKey,
      routingKey <> "" -> Publisher.routingPattern eventType routingKey = routingKey)
  /\ (forall a b,
        hasChar "." a = false ->
        Publisher.routingPattern (a +:+ "." +:+ b) "" = a +:+ "_" +:+ b)
  /\ (forall eventType,
        Publisher.routingPattern eventType "" = eventType
        <-> hasChar "." eventType = false)
  /\ (forall eventType,
        String.length (Publisher.routingPattern eventType "")
        = String.length eventType).
Proof.
  unfold Publisher.routingPattern. split; [|split; [|split]].
  - intros eventType routingKey Hne.
    destruct (String.eqb_spec routingKey ""); [contradiction | reflexivity].
  - intros a b Ha. simpl. apply (replace_first "." "_" a b). exact Ha.
  - intros eventType. simpl. split.
    + intros Heq. destruct (hasChar "." eventType) eqn:Hdot; [|reflexivity].
      exfalso.
      apply (replace_changes "." "_" eventType); [discriminate | exact Hdot | exact Heq].
    + apply replace_dotless.
  - intros eventType. simpl. apply replace_length.
Qed.

Lemma routingPattern_spec_witness :
  Publisher.routingPattern "board.member.added" "" = "board_member.added"
  /\ Publisher.routingPattern "ping" "" = "ping".
Proof.
  destruct routingPattern_spec as (_ & Hfirst & Hsame & _).
  split.
  - exact (Hfirst "board" "member.added" eq_refl).
  - apply (proj2 (Hsame "ping")). reflexivity.
Defined.

Lemma action_segments :
  (forall a b rest,
      hasChar "." a = false -> hasChar "." b = false ->
      Publisher.action (a +:+ "." +:+ b) = Some b
      /\ Publisher.action (a +:+ "." +:+ b +:+ "." +:+ rest) = Some b)
  /\ (forall e, hasChar "." e = false -> Publisher.action e = None).
Proof.
  unfold Publisher.action. split.
  - intros a b rest Ha Hb.
    change (a +:+ "." +:+ b) with (a +:+ String "." b).
    change (a +:+ "." +:+ b +:+ "." +:+ rest)
      with (a +:+ String "." (b +:+ String "." rest)).
    rewrite !split_app, !(split_dotless _ _ Ha), (split_dotless _ _ Hb).
    split; reflexivity.
  - intros e He. rewrite (split_dotless _ _ He). reflexivity.
Qed.

(** X7. The convenience publishers route by the second dot-separated
    segment of the event type alone: [publishUserEvent] publishes [a.b]
    and [a.b.rest] under [user.b], whatever [a] and [rest] are, and an
    event type without a dot under [user.undefined]; likewise
    [publishBoardEvent] with [board.] and [publishCardEvent] with
    [card.]. *)
Theorem convenience_routing_keys (ch : Publisher.channel) (now uuid : string)
    (data : json) :
  (forall a b rest,
      hasChar "." a = false -> hasChar "." b = false ->
      lastRoutingKey (Publisher.publishUserEvent (Some ch) now uuid
                        (a +:+ "." +:+ b) data) = Some ("user." +:+ b)
      /\ lastRoutingKey (Publisher.publishUserEvent (Some ch) now uuid
                           (a +:+ "." +:+ b +:+ "." +:+ rest) data)
         = Some ("user." +:+ b)
      /\ lastRoutingKey (Publisher.publishBoardEvent (Some ch) now uuid
                           (a +:+ "." +:+ b) data) = Some ("board." +:+ b)
      /\ lastRoutingKey (Publisher.publishBoardEvent (Some ch) now uuid
                           (a +:+ "." +:+ b +:+ "." +:+ rest) data)
         = Some ("board." +:+ b)
      /\ lastRoutingKey (Publisher.publishCardEvent (Some ch) now uuid
                           (a +:+ "." +:+ b) data) = Some ("card." +:+ b)
      /\ lastRoutingKey (Publisher.publishCardEvent (Some ch) now uuid
                           (a +:+ "." +:+ b +:+ "." +:+ rest) data)
         = Some ("card." +:+ b))
  /\ (forall e,
        hasChar "." e = false ->
        lastRoutingKey (Publisher.publishUserEvent (Some ch) now uuid e data)
        = Some "user.undefined"
        /\ lastRoutingKey (Publisher.publishBoardEvent (Some ch) now uuid e data)
           = Some "board.undefined"
        /\ lastRoutingKey (Publisher.publishCardEvent (Some ch) now uuid e data)
           = Some "card.undefined").
Proof.
  destruct action_segments as [Hseg Hnone].
  unfold Publisher.publishUserEvent, Publisher.publishBoardEvent,
    Publisher.publishCardEvent, Publisher.publishEvent, lastRoutingKey.
  split.
  - intros a b rest Ha Hb. destruct (Hseg a b rest Ha Hb) as [-> ->].
    rewrite !last_snoc. simpl. repeat split.
  - intros e He. rewrite (Hnone e He), !last_snoc. simpl. repeat split.
Qed.

Lemma convenience_routing_keys_witness :
  lastRoutingKey (Publisher.publishBoardEvent (Some []) "t0" "m1"
                    "workspace.member.added" JNull) = Some "board.member".
Proof.
  destruct (convenience_routing_keys [] "t0" "m1" JNull) as [Hseg _].
  destruct (Hseg "workspace" "member" "added" eq_refl eq_refl)
    as (_ & _ & _ & Hboard & _).
  exact Hboard.
Defined.

(** ** Properties: board permissions *)

Lemma isMember_false (b : board) (userId : string) :
  isMember b userId = false
  <-> b_owner b <> userId /\ userId ∉ map m_userId (b_members b).
Proof.
  unfold isMember. rewrite orb_false_iff. split.
  - intros [Hex Hown]. split; [apply String.eqb_neq; exact Hown|].
    intros Hin. apply list_elem_of_fmap in Hin as (m & -> & Hm).
    assert (Htrue : existsb (fun m0 => String.eqb (m_userId m0) (m_userId m))
                      (b_members b) = true).
    { apply existsb_exists. exists m. split; [apply list_elem_of_In; exact Hm|].
      apply String.eqb_refl. }
    congruence.
  - intros [Hown Hnot]. split; [|apply String.eqb_neq; exact Hown].
    destruct (existsb _ (b_members b)) eqn:Hex; [|reflexivity].
    exfalso. apply existsb_exists in Hex as (m & Hm & Heq).
    apply String.eqb_eq in Heq. apply Hnot. rewrite <- Heq.
    apply list_elem_of_fmap. exists m. split; [reflexivity|].
    apply list_elem_of_In. exact Hm.
Qed.

Lemma rankAtLeast_trans r1 r2 r3 :
  rankAtLeast r1 r2 -> rankAtLeast r2 r3 -> rankAtLeast r1 r3.
Proof.
  intros (a & b & Ha & Hb & Hab) (b' & c & Hb' & Hc & Hbc).
  exists a, c. repeat split; try assumption.
  rewrite Hb in Hb'. injection Hb' as <-. lia.
Qed.

(** X8. Whoever passes [hasPermission] for some role is a member of the
    board in the sense of [isMember], and also passes for every role that
    ranks no higher than that role: admin rights include member rights,
    which include viewer rights. *)
Theorem hasPermission_member_and_lower (b : board) (userId role lower : string) :
  hasPermission b userId role = true ->
  isMember b userId = true
  /\ (rankAtLeast role lower -> hasPermission b userId lower = true).
Proof.
  unfold hasPermission, isMember.
  destruct (String.eqb (b_owner b) userId); [intros _; split; [apply orb_true_r | reflexivity]|].
  destruct (List.find _ (b_members b)) as [m|] eqn:Hfind; [|discriminate].
  intros Hge. split.
  - rewrite orb_false_r. apply existsb_exists. exists m.
    apply find_some in Hfind. exact Hfind.
  - intros Hlower. apply js_ge_rankAtLeast. apply js_ge_rankAtLeast in Hge.
    exact (rankAtLeast_trans _ _ _ Hge Hlower).
Qed.

Lemma hasPermission_member_and_lower_witness :
  hasPermission
    (Board "b1" "w1" "ann" [Member "bob" "admin"; Member "cy" "viewer"] 0 0)
    "bob" "viewer" = true.
Proof.
  destruct (hasPermission_member_and_lower
              (Board "b1" "w1" "ann" [Member "bob" "admin"; Member "cy" "viewer"] 0 0)
              "bob" "member" "viewer" eq_refl) as [_ Hlower].
  apply Hlower. exists 2, 1. repeat split. lia.
Defined.

(** X9. When the required role is not one of viewer, member and admin,
    only the owner passes: no member does, whatever the member's role. *)
Theorem hasPermission_unknown_role (b : board) (userId requiredRole : string) :
  roleHierarchy requiredRole = None ->
  (hasPermission b userId requiredRole = true <-> b_owner b = userId).
Proof.
  intros Hnone. unfold hasPermission. rewrite Hnone.
  destruct (String.eqb_spec (b_owner b) userId) as [Heq|Hne]; [tauto|].
  destruct (List.find _ (b_members b)) as [m|]; unfold js_ge;
    [destruct (roleHierarchy (m_role m))|]; split; congruence.
Qed.

Lemma hasPermission_unknown_role_witness :
  hasPermission
    (Board "b1" "w1" "ann" [Member "bob" "admin"] 0 0) "ann" "owner" = true.
Proof.
  apply (hasPermission_unknown_role
           (Board "b1" "w1" "ann" [Member "bob" "admin"] 0 0) "ann" "owner");
    reflexivity.
Defined.

(** ** Properties: member management of a board *)

Lemma findBoard_Some boardId docs b :
  findBoard boardId docs = Some b -> b ∈ docs /\ b_id b = boardId.
Proof.
  unfold findBoard. intros H. apply find_some in H as [Hin Hid].
  split; [apply list_elem_of_In; exact Hin | apply String.eqb_eq; exact Hid].
Qed.

Lemma findBoard_saveBoard boardId docs b b' :
  findBoard boardId docs = Some b -> b_id b' = b_id b ->
  findBoard boardId (saveBoard b' docs) = Some b'.
Proof.
  intros Hfind Hid. pose proof (findBoard_Some _ _ _ Hfind) as [_ Hb].
  unfold findBoard, saveBoard, updateMany in *.
  induction docs as [|d docs IH]; simpl in *; [discriminate|].
  destruct (String.eqb_spec (b_id d) boardId) as [Hd|Hd].
  - assert (Hsame : String.eqb (b_id d) (b_id b') = true)
      by (apply String.eqb_eq; congruence).
    rewrite Hsame. simpl.
    assert (Hb' : String.eqb (b_id b') boardId = true)
      by (apply String.eqb_eq; congruence).
    rewrite Hb'. reflexivity.
  - assert (Hother : String.eqb (b_id d) (b_id b') = false)
      by (apply String.eqb_neq; congruence).
    rewrite Hother. simpl.
    destruct (String.eqb_spec (b_id d) boardId); [contradiction|].
    apply IH. exact Hfind.
Qed.

Lemma elem_of_saveBoard b b' docs :
  b ∈ saveBoard b' docs -> b = b' \/ b ∈ docs.
Proof.
  unfold saveBoard, updateMany. intros H.
  apply list_elem_of_fmap in H as (d & -> & Hd).
  destruct (String.eqb (b_id d) (b_id b')); auto.
Qed.

Lemma findIndex_delete (memberId : string) (members : list member) : forall i,
  findIndex memberId members = Some i ->
  (forall u, u <> memberId ->
     List.find (fun m => String.eqb (m_userId m) u) (delete i members)
     = List.find (fun m => String.eqb (m_userId m) u) members)
  /\ (NoDup (map m_userId members) -> memberId ∉ map m_userId (delete i members))
  /\ (forall m, m ∈ members -> m_userId m <> memberId -> m ∈ delete i members).
Proof.
  induction members as [|m0 rest IH]; intros i Hi; simpl in Hi; [discriminate|].
  destruct (String.eqb_spec (m_userId m0) memberId) as [Heq|Hne].
  - injection Hi as <-. simpl. split; [|split].
    + intros u Hu. destruct (String.eqb_spec (m_userId m0) u); [congruence | reflexivity].
    + intros Hnd. apply NoDup_cons in Hnd as [Hfresh _]. rewrite <- Heq. exact Hfresh.
    + intros m Hm Hid. apply elem_of_cons in Hm as [->|Hm]; [contradiction | exact Hm].
  - destruct (findIndex memberId rest) as [j|] eqn:Hj; [|discriminate].
    injection Hi as <-. destruct (IH j eq_refl) as (Hfind & Hgone & Hkept).
    change (delete (S j) (m0 :: rest)) with (m0 :: delete j rest).
    split; [|split].
    + intros u Hu. simpl. rewrite (Hfind u Hu). reflexivity.
    + intros Hnd. apply NoDup_cons in Hnd as [_ Hnd]. simpl.
      apply not_elem_of_cons. split; [congruence | exact (Hgone Hnd)].
    + intros m Hm Hid. apply elem_of_cons in Hm as [->|Hm]; [left|].
      right. apply Hkept; assumption.
Qed.

Lemma setRole_spec (memberId role : string) (members : list member) :
  map m_userId (setRole memberId role members) = map m_userId members
  /\ (forall u, u <> memberId ->
        List.find (fun m => String.eqb (m_userId m) u) (setRole memberId role members)
        = List.find (fun m => String.eqb (m_userId m) u) members)
  /\ (memberId ∈ map m_userId members ->
      List.find (fun m => String.eqb (m_userId m) memberId)
        (setRole memberId role members) = Some (Member memberId role))
  /\ (forall m, m ∈ members -> m_userId m <> memberId ->
        m ∈ setRole memberId role members).
Proof.
  induction members as [|m0 rest (IHids & IHfind & IHset & IHkept)]; simpl.
  - repeat split; try reflexivity; intros; try assumption.
    exfalso. eapply not_elem_of_nil. eassumption.
  - destruct (String.eqb_spec (m_userId m0) memberId) as [Heq|Hne]; simpl.
    + split; [reflexivity|]. split; [|split].
      * intros u Hu. rewrite Heq.
        destruct (String.eqb_spec memberId u); [congruence|].
        destruct (String.eqb_spec (m_userId m0) u); [congruence | reflexivity].
      * intros _. rewrite Heq, String.eqb_refl. reflexivity.
      * intros m Hm Hid. apply elem_of_cons in Hm as [->|Hm]; [contradiction|].
        right. exact Hm.
    + split; [rewrite IHids; reflexivity|]. split; [|split].
      * intros u Hu. rewrite (IHfind u Hu). reflexivity.
      * intros Hin. apply elem_of_cons in Hin as [Hin|Hin]; [congruence|].
        destruct (String.eqb_spec (m_userId m0) memberId); [contradiction|].
        exact (IHset Hin).
      * intros m Hm Hid. apply elem_of_cons in Hm as [->|Hm]; [left|].
        right. apply IHkept; assumption.
Qed.

Lemma find_member_app userId (members : list member) (m : member) :
  List.find (fun m0 => String.eqb (m_userId m0) userId) (members ++ [m])
  = match List.find (fun m0 => String.eqb (m_userId m0) userId) members with
    | Some m0 => Some m0
    | None => if String.eqb (m_userId m) userId then Some m else None
    end.
Proof.
  induction members as [|m0 rest IH]; simpl; [reflexivity|].
  destruct (String.eqb (m_userId m0) userId); [reflexivity | exact IH].
Qed.

Lemma serve_membersUnique serverError s q :
  membersUnique s -> membersUnique (serve serverError s q).
Proof.
  intros Hu.
  assert (Hsave : forall board board',
             findBoard (boardOf q) (boards s) = Some board ->
             NoDup (map m_userId (b_members board')) ->
             membersUnique (Store (workspaces s) (saveBoard board' (boards s))
                              (lists s) (cards s))).
  { intros board board' _ Hnd b Hb. simpl in Hb.
    apply elem_of_saveBoard in Hb as [->|Hb]; [exact Hnd | apply Hu, Hb]. }
  destruct q as [currentUserId boardId newUserId role
                |userId boardId memberId|userId boardId memberId role];
    unfold serve; simpl in Hsave.
  - unfold BoardController.addMember.
    destruct (findBoard boardId (boards s)) as [board|] eqn:Hfind; [|exact Hu].
    destruct (negb (hasPermission board currentUserId "admin")); [exact Hu|].
    destruct (isMember board newUserId) eqn:Hmem; [exact Hu|].
    destruct (findWorkspace _ _) as [w|]; [|exact Hu].
    destruct (negb (WorkspaceModel.isMember w newUserId) && _); [exact Hu|].
    simpl. apply (Hsave board); [reflexivity|]. simpl.
    apply isMember_false in Hmem as [_ Hfresh].
    rewrite map_app. apply NoDup_app. split.
    + apply Hu. apply (findBoard_Some _ _ _ Hfind).
    + split; [|apply NoDup_singleton].
      intros x Hx Hx'. apply list_elem_of_singleton in Hx'. subst x. contradiction.
  - unfold BoardController.removeMember.
    destruct (findBoard boardId (boards s)) as [board|] eqn:Hfind; [|exact Hu].
    destruct (negb (String.eqb memberId userId) && _); [exact Hu|].
    destruct (String.eqb (b_owner board) memberId); [exact Hu|].
    destruct (findIndex memberId (b_members board)) as [i|]; [|exact Hu].
    simpl. apply (Hsave board); [reflexivity|]. simpl.
    rewrite list_fmap_delete.
    eapply sublist_NoDup; [|apply sublist_delete].
    apply Hu. apply (findBoard_Some _ _ _ Hfind).
  - unfold BoardController.updateMemberRole.
    destruct (findBoard boardId (boards s)) as [board|] eqn:Hfind; [|exact Hu].
    destruct (negb (hasPermission board userId "admin")); [exact Hu|].
    destruct (String.eqb (b_owner board) memberId); [exact Hu|].
    destruct (List.find _ (b_members board)); [|exact Hu].
    simpl. apply (Hsave board); [reflexivity|]. simpl.
    rewrite (proj1 (setRole_spec memberId role (b_members board))).
    apply Hu. apply (findBoard_Some _ _ _ Hfind).
Qed.

(** X10. Member management keeps every board's members table at one
    entry per user: after any sequence of add, remove and role-change
    requests on a store where no board lists a user twice, no board lists
    a user twice. *)
Theorem member_requests_keep_members_unique serverError
    (qs : list memberRequest) (s : store) :
  membersUnique s -> membersUnique (fold_left (serve serverError) qs s).
Proof.
  revert s. induction qs as [|q qs IH]; intros s Hu; simpl; [exact Hu|].
  apply IH, serve_membersUnique, Hu.
Qed.

Lemma member_requests_keep_members_unique_witness :
  membersUnique (fold_left (serve "") sampleRequests memberStore).
Proof.
  apply (member_requests_keep_members_unique "" sampleRequests memberStore).
  intros b Hb. apply list_elem_of_singleton in Hb. subst b.
  apply (bool_decide_unpack _). vm_compute. exact I.
Defined.

(** X11. After a successful [removeMember] on a board that lists every
    user once, the removed user is no member of the board any more and
    passes [hasPermission] for no role, while every other user's
    permissions are what they were. *)
Theorem removeMember_revokes (s : store) (userId boardId memberId : string)
    (board : board) :
  findBoard boardId (boards s) = Some board ->
  NoDup (map m_userId (b_members board)) ->
  let r := BoardController.removeMember s userId boardId memberId in
  mr_success (m_res r) = true ->
  exists board',
    findBoard boardId (boards (m_db r)) = Some board'
    /\ isMember board' memberId = false
    /\ (forall role, hasPermission board' memberId role = false)
    /\ (forall u role, u <> memberId ->
          hasPermission board' u role = hasPermission board u role).
Proof.
  intros Hfind Hnd r. subst r. unfold BoardController.removeMember. rewrite Hfind.
  destruct (negb (String.eqb memberId userId) && _); [discriminate|].
  destruct (String.eqb_spec (b_owner board) memberId) as [|Hown]; [discriminate|].
  destruct (findIndex memberId (b_members board)) as [i|] eqn:Hi; [|discriminate].
  intros _. simpl.
  destruct (findIndex_delete _ _ _ Hi) as (Hothers & Hgone & _).
  exists (setMembers (delete i (b_members board)) board).
  split; [apply (findBoard_saveBoard _ _ board); [exact Hfind | reflexivity]|].
  assert (Hmem : isMember (setMembers (delete i (b_members board)) board) memberId
                 = false).
  { apply isMember_false. simpl. split; [exact Hown | exact (Hgone Hnd)]. }
  split; [exact Hmem|]. split.
  - intros role.
    destruct (hasPermission (setMembers (delete i (b_members board)) board)
                memberId role) eqn:Hperm; [|reflexivity].
    destruct (hasPermission_member_and_lower _ _ _ role Hperm) as [Hyes _].
    congruence.
  - intros u role Hu. unfold hasPermission. simpl.
    rewrite (Hothers u Hu). reflexivity.
Qed.

Lemma removeMember_revokes_witness :
  exists board',
    findBoard "B"
      (boards (m_db (BoardController.removeMember memberStore "bob" "B" "bob")))
    = Some board'
    /\ isMember board' "bob" = false.
Proof.
  assert (Hnd : NoDup (map m_userId (b_members sampleBoard))).
  { apply (bool_decide_unpack _). vm_compute. exact I. }
  destruct (removeMember_revokes memberStore "bob" "B" "bob" sampleBoard
              eq_refl Hnd eq_refl) as (board' & Hfind & Hmem & _).
  exists board'. split; assumption.
Defined.

(** X12. After a successful [addMember] or [updateMemberRole] the user
    concerned passes [hasPermission] exactly for the roles that rank no
    higher than the role given, and every other user's permissions are
    what they were. *)
Theorem granted_role_decides (serverError : string) (s : store)
    (userId boardId memberId : string) (board : board) :
  findBoard boardId (boards s) = Some board ->
  (forall role,
      let r := BoardController.addMember serverError s userId boardId memberId role in
      mr_success (m_res r) = true ->
      exists board',
        findBoard boardId (boards (m_db r)) = Some board'
        /\ (forall required,
              hasPermission board' memberId required = true
              <-> rankAtLeast (default "member" role) required)
        /\ (forall u required, u <> memberId ->
              hasPermission board' u required = hasPermission board u required))
  /\ (forall role,
        let r := BoardController.updateMemberRole s userId boardId memberId role in
        mr_success (m_res r) = true ->
        exists board',
          findBoard boardId (boards (m_db r)) = Some board'
          /\ (forall required,
                hasPermission board' memberId required = true
                <-> rankAtLeast role required)
          /\ (forall u required, u <> memberId ->
                hasPermission board' u required = hasPermission board u required)).
Proof.
  intros Hfind. split.
  - intros role r. subst r. unfold BoardController.addMember. rewrite Hfind.
    destruct (negb (hasPermission board userId "admin")); [discriminate|].
    destruct (isMember board memberId) eqn:Hmem; [discriminate|].
    destruct (findWorkspace _ _) as [w|]; [|discriminate].
    destruct (negb (WorkspaceModel.isMember w memberId) && _); [discriminate|].
    intros _. simpl.
    apply isMember_false in Hmem as [Hown Hfresh].
    assert (Hnone : List.find (fun m => String.eqb (m_userId m) memberId)
                      (b_members board) = None).
    { apply find_member_None. intros m Hm Heq. apply Hfresh. rewrite <- Heq.
      apply list_elem_of_fmap. eauto. }
    eexists. split; [apply (findBoard_saveBoard _ _ board); [exact Hfind | reflexivity]|].
    split.
    + intros required. unfold hasPermission. simpl.
      destruct (String.eqb_spec (b_owner board) memberId); [contradiction|].
      rewrite find_member_app, Hnone. simpl. rewrite String.eqb_refl.
      apply js_ge_rankAtLeast.
    + intros u required Hu. unfold hasPermission. simpl.
      rewrite find_member_app. simpl.
      destruct (String.eqb_spec memberId u); [congruence|].
      destruct (List.find (fun m => String.eqb (m_userId m) u) (b_members board));
        reflexivity.
  - intros role r. subst r. unfold BoardController.updateMemberRole. rewrite Hfind.
    destruct (negb (hasPermission board userId "admin")); [discriminate|].
    destruct (String.eqb_spec (b_owner board) memberId) as [|Hown]; [discriminate|].
    destruct (List.find _ (b_members board)) as [m|] eqn:Hm; [|discriminate].
    intros _. simpl.
    destruct (setRole_spec memberId role (b_members board))
      as (_ & Hothers & Hset & _).
    assert (Hin : memberId ∈ map m_userId (b_members board)).
    { apply find_some in Hm as [Hin Heq]. apply String.eqb_eq in Heq.
      rewrite <- Heq. apply list_elem_of_fmap. exists m.
      split; [reflexivity | apply list_elem_of_In; exact Hin]. }
    eexists. split; [apply (findBoard_saveBoard _ _ board); [exact Hfind | reflexivity]|].
    split.
    + intros required. unfold hasPermission. simpl.
      destruct (String.eqb_spec (b_owner board) memberId); [contradiction|].
      rewrite (Hset Hin). simpl. apply js_ge_rankAtLeast.
    + intros u required Hu. unfold hasPermission. simpl.
      rewrite (Hothers u Hu). reflexivity.
Qed.

Lemma granted_role_decides_witness :
  exists board',
    findBoard "B"
      (boards (m_db (BoardController.addMember "" memberStore "ann" "B" "cy" None)))
    = Some board'
    /\ hasPermission board' "cy" "member" = true.
Proof.
  destruct (granted_role_decides "" memberStore "ann" "B" "cy" sampleBoard eq_refl)
    as [Hadd _].
  destruct (Hadd None eq_refl) as (board' & Hfind & Hrole & _).
  exists board'. split; [exact Hfind|].
  apply Hrole. exists 2, 2. repeat split. lia.
Defined.

(** X13. A request to the member management by a user without admin
    permission on the board changes nothing in the store, unless it is the
    user's removal of themselves. *)
Theorem member_requests_need_admin (serverError : string) (s : store)
    (q : memberRequest) :
  (forall board,
      findBoard (boardOf q) (boards s) = Some board ->
      hasPermission board (requester q) "admin" = false) ->
  ~ selfRemoval q ->
  serve serverError s q = s.
Proof.
  intros Hno Hself.
  destruct q as [currentUserId boardId newUserId role
                |userId boardId memberId|userId boardId memberId role];
    unfold serve; simpl in *.
  - unfold BoardController.addMember.
    destruct (findBoard boardId (boards s)) as [board|]; [|reflexivity].
    rewrite (Hno board eq_refl). reflexivity.
  - unfold BoardController.removeMember.
    destruct (findBoard boardId (boards s)) as [board|]; [|reflexivity].
    rewrite (Hno board eq_refl).
    destruct (String.eqb_spec memberId userId); [contradiction | reflexivity].
  - unfold BoardController.updateMemberRole.
    destruct (findBoard boardId (boards s)) as [board|]; [|reflexivity].
    rewrite (Hno board eq_refl). reflexivity.
Qed.

Lemma member_requests_need_admin_witness :
  serve "" memberStore (UpdateMemberRole "bob" "B" "bob" "admin") = memberStore.
Proof.
  apply (member_requests_need_admin "" memberStore
           (UpdateMemberRole "bob" "B" "bob" "admin")).
  - intros board [= <-]. reflexivity.
  - intros H. exact H.
Defined.

(** X14. No request to the member management takes the board away from
    its owner: the board is still there afterwards, with the same owner,
    every members entry of the owner untouched, and the owner passing
    [hasPermission] for every role. *)
Theorem owner_is_kept (serverError : string) (s : store) (q : memberRequest)
    (board : board) :
  findBoard (boardOf q) (boards s) = Some board ->
  exists board',
    findBoard (boardOf q) (boards (serve serverError s q)) = Some board'
    /\ b_owner board' = b_owner board
    /\ (forall m, m ∈ b_members board -> m_userId m = b_owner board ->
          m ∈ b_members board')
    /\ (forall role, hasPermission board' (b_owner board) role = true).
Proof.
  intros Hfind.
  assert (Hkeep : forall board',
             (findBoard (boardOf q) (boards (serve serverError s q)) = Some board') ->
             b_owner board' = b_owner board ->
             (forall m, m ∈ b_members board -> m_userId m = b_owner board ->
                m ∈ b_members board') ->
             exists board',
               findBoard (boardOf q) (boards (serve serverError s q)) = Some board'
               /\ b_owner board' = b_owner board
               /\ (forall m, m ∈ b_members board -> m_userId m = b_owner board ->
                     m ∈ b_members board')
               /\ (forall role, hasPermission board' (b_owner board) role = true)).
  { intros board' H1 H2 H3. exists board'. repeat split; try assumption.
    intros role. unfold hasPermission. rewrite H2, String.eqb_refl. reflexivity. }
  assert (Hsaved : forall members,
             findBoard (boardOf q)
               (saveBoard (setMembers members board) (boards s))
             = Some (setMembers members board)).
  { intros members. apply (findBoard_saveBoard _ _ board); [exact Hfind | reflexivity]. }
  destruct q as [currentUserId boardId newUserId role
                |userId boardId memberId|userId boardId memberId role];
    unfold serve in *; simpl in *.
  - unfold BoardController.addMember in *. rewrite Hfind in *.
    destruct (negb (hasPermission board currentUserId "admin"));
      [apply (Hkeep board); auto|].
    destruct (isMember board newUserId); [apply (Hkeep board); auto|].
    destruct (findWorkspace _ _) as [w|]; [|apply (Hkeep board); auto].
    destruct (negb (WorkspaceModel.isMember w newUserId) && _);
      [apply (Hkeep board); auto|].
    simpl in *. eapply Hkeep; [apply Hsaved | reflexivity|].
    intros m Hm _. simpl. apply elem_of_app. left. exact Hm.
  - unfold BoardController.removeMember in *. rewrite Hfind in *.
    destruct (negb (String.eqb memberId userId) && _); [apply (Hkeep board); auto|].
    destruct (String.eqb_spec (b_owner board) memberId) as [|Hown];
      [apply (Hkeep board); auto|].
    destruct (findIndex memberId (b_members board)) as [i|] eqn:Hi;
      [|apply (Hkeep board); auto].
    simpl in *. eapply Hkeep; [apply Hsaved | reflexivity|].
    intros m Hm Hid. simpl.
    apply (proj2 (proj2 (findIndex_delete _ _ _ Hi))); [exact Hm | congruence].
  - unfold BoardController.updateMemberRole in *. rewrite Hfind in *.
    destruct (negb (hasPermission board userId "admin")); [apply (Hkeep board); auto|].
    destruct (String.eqb_spec (b_owner board) memberId) as [|Hown];
      [apply (Hkeep board); auto|].
    destruct (List.find _ (b_members board)); [|apply (Hkeep board); auto].
    simpl in *. eapply Hkeep; [apply Hsaved | reflexivity|].
    intros x Hx Hid. simpl.
    apply (proj2 (proj2 (proj2 (setRole_spec memberId role (b_members board)))));
      [exact Hx | congruence].
Qed.

Lemma owner_is_kept_witness :
  exists board',
    findBoard "B" (boards (serve "" memberStore (RemoveMember "bob" "B" "ann")))
    = Some board'
    /\ b_owner board' = "ann".
Proof.
  destruct (owner_is_kept "" memberStore (RemoveMember "bob" "B" "ann")
              sampleBoard eq_refl) as (board' & Hfind & Hown & _).
  exists board'. split; assumption.
Defined.

(** ** Properties: more of the list controller *)

Lemma split_updateMany_id listId (g : listDoc -> listDoc) pre list post :
  l_id list = listId ->
  (forall d, d ∈ pre ++ post -> l_id d <> listId) ->
  updateMany (hasId listId) g (pre ++ list :: post) = pre ++ g list :: post.
Proof.
  intros Hid Hothers. unfold updateMany. rewrite map_app. simpl.
  rewrite (hasId_true _ _ Hid).
  assert (Hsame : forall part, (forall d, d ∈ part -> l_id d <> listId) ->
            map (fun d => if hasId listId d then g d else d) part = part).
  { intros part Hpart. transitivity (map (fun d : listDoc => d) part); [|apply map_id].
    apply map_ext_in. intros d Hd.
    rewrite hasId_false; [reflexivity|]. apply Hpart, list_elem_of_In, Hd. }
  rewrite !Hsame; [reflexivity | |];
    intros d Hd; apply Hothers, elem_of_app; auto.
Qed.

(** X15. [unarchiveList] keeps the collection ordered and puts the list
    back at the end of its board: on success the list is live again at
    the position that equals the number of live lists the board had, and
    every board's positions are again 0 .. n-1. *)
Theorem unarchiveList_appends (s : store) (userId listId : string) :
  ordered (lists s) ->
  let r := unarchiveList s userId listId in
  ordered (lists (u_db r))
  /\ (u_success r = true ->
      exists list,
        findList listId (lists s) = Some list
        /\ l_isArchived list = true
        /\ u_data r = UUnarchived (count (l_boardId list) (lists s))
        /\ findList listId (lists (u_db r))
           = Some (setPosition (count (l_boardId list) (lists s))
                     (setArchived false list))).
Proof.
  intros [Hnd Hc] r. subst r. unfold unarchiveList.
  destruct (findList listId (lists s)) as [list|] eqn:Hfind;
    [|split; [split; assumption | discriminate]].
  destruct (findBoard (l_boardId list) (boards s)) as [board|];
    [|split; [split; assumption | discriminate]].
  destruct (negb (hasPermission board userId "member"));
    [split; [split; assumption | discriminate]|].
  destruct (l_isArchived list) eqn:Harch;
    [|split; [split; assumption | discriminate]].
  simpl. rewrite (next_position_compact _ _ (Hc (l_boardId list))).
  destruct (split_by_id _ _ _ Hnd Hfind) as (pre & post & Hdocs & Hid & Hothers).
  split.
  - split.
    + rewrite updateMany_ids; [exact Hnd | reflexivity].
    + intros b'. specialize (Hc b') as Hb'.
      rewrite Hdocs in *. rewrite (split_updateMany_id _ _ _ _ _ Hid Hothers).
      rewrite positions_app, positions_cons in *.
      assert (Hout : inScope b' list = false)
        by (unfold inScope; rewrite Harch; apply andb_false_r).
      rewrite Hout in Hb'. simpl in Hb'.
      unfold inScope. simpl. rewrite andb_true_r.
      destruct (String.eqb_spec (l_boardId list) b') as [<-|Hne]; simpl;
        [|exact Hb'].
      unfold count. rewrite positions_app, positions_cons.
      replace (inScope (l_boardId list) list) with false
        by (symmetry; unfold inScope; rewrite Harch; apply andb_false_r).
      simpl.
      apply (compact_perm
               ((positions (l_boardId list) pre ++ positions (l_boardId list) post)
                ++ [Z.of_nat (length (positions (l_boardId list) pre
                                      ++ positions (l_boardId list) post))])).
      * rewrite <- app_assoc. apply Permutation_app_head.
        symmetry. apply Permutation_cons_append.
      * apply compact_append. exact Hb'.
  - intros _. exists list. split; [reflexivity|]. split; [exact Harch|].
    split; [reflexivity|].
    rewrite findList_updateMany by reflexivity.
    rewrite Hfind. simpl. rewrite (hasId_true _ _ Hid). reflexivity.
Qed.

Lemma unarchiveList_appends_witness :
  findList "a"
    (lists (u_db (unarchiveList
                    (db (ListController.archiveList sampleStore None "bob" "a"))
                    "bob" "a")))
  = Some (ListDoc "a" "Todo" "B" 3 0 false).
Proof.
  assert (Hlists :
            lists (db (ListController.archiveList sampleStore None "bob" "a"))
            = [ListDoc "a" "Todo" "B" 0 0 true; ListDoc "b" "Doing" "B" 0 0 false;
               ListDoc "c" "Review" "B" 1 0 false; ListDoc "d" "Done" "B" 2 0 false])
    by (vm_compute; reflexivity).
  assert (Hord : ordered
                   (lists (db (ListController.archiveList sampleStore None "bob" "a")))).
  { rewrite Hlists. split.
    - apply (bool_decide_unpack _). vm_compute. exact I.
    - intros b. apply compact_contiguous.
      unfold positions, inScope. cbn -[String.eqb seqZ].
      destruct (String.eqb "B" b); vm_compute; reflexivity. }
  destruct (unarchiveList_appends
              (db (ListController.archiveList sampleStore None "bob" "a"))
              "bob" "a" Hord) as [_ Hlast].
  destruct (Hlast eq_refl) as (list & Hfind & _ & _ & Hafter).
  injection Hfind as <-. exact Hafter.
Defined.

Lemma incPosition_inverse d : incPosition (-1) (incPosition 1 d) = d.
Proof.
  destruct d as [i n b p c a]. unfold incPosition. simpl. f_equal. lia.
Qed.

Lemma incPosition_inverse' d : incPosition 1 (incPosition (-1) d) = d.
Proof.
  destruct d as [i n b p c a]. unfold incPosition. simpl. f_equal. lia.
Qed.

Lemma findLastPosition_bound b docs d :
  d ∈ docs -> inScope b d = true ->
  exists m, findLastPosition b docs = Some m /\ l_position d <= m.
Proof.
  intros Hd Hs. rewrite findLastPosition_lastOf.
  assert (Hin : l_position d ∈ positions b docs).
  { unfold positions. apply list_elem_of_fmap. exists d. split; [reflexivity|].
    apply list_elem_of_In, filter_In. split; [apply list_elem_of_In; exact Hd | exact Hs]. }
  pose proof (lastOf_spec (positions b docs)) as Hlast.
  destruct (lastOf (positions b docs)) as [m|].
  - exists m. split; [reflexivity|]. apply Hlast, Hin.
  - rewrite Hlast in Hin. inversion Hin.
Qed.

Lemma countCards_none listId archived docs :
  (forall c, c ∈ docs -> c_listId c <> listId) ->
  countCards listId archived docs = 0
  /\ List.filter (fun c => negb (String.eqb (c_listId c) listId)) docs = docs.
Proof.
  intros Hnone. unfold countCards. induction docs as [|c docs IH]; simpl; [auto|].
  assert (Hc : String.eqb (c_listId c) listId = false)
    by (apply String.eqb_neq, Hnone; left).
  rewrite Hc. simpl.
  destruct IH as [IH1 IH2]; [intros c' Hc'; apply Hnone; right; exact Hc'|].
  split; [exact IH1 | rewrite IH2; reflexivity].
Qed.

Lemma addLists_inverse b : addLists (-1) (addLists 1 b) = b.
Proof.
  destruct b as [i w o m tl tc]. unfold addLists. simpl. f_equal. lia.
Qed.

(** X16. Creating a list under a name the schema accepts and then deleting
    it again restores the list collection exactly, whatever safe integer
    was requested as its position among lists at safe integers: every
    list the creation shifted is shifted back, the cards are untouched and
    the board's statistics are what they were. *)
Theorem create_then_delete_restores (capitalizeWords : string -> string)
    (serverError now uuid newId : string) (s : store) conn
    (userId adminId name boardId : string) (position : option Z) (board : board) :
  findBoard boardId (boards s) = Some board ->
  isMember board userId = true ->
  hasPermission board userId "member" = true ->
  hasPermission board adminId "admin" = true ->
  findList newId (lists s) = None ->
  (forall c, c ∈ cards s -> c_listId c <> newId) ->
  validName (JsString.trim (capitalizeWords name)) = true ->
  safePositions (lists s) = true ->
  from_option safeInteger true position = true ->
  let created := ListController.createList capitalizeWords serverError
                   now uuid newId s conn userId name boardId position in
  let deleted := ListController.deleteList (db created) (broker created)
                   adminId newId in
  r_status (res created) = 201 /\ r_status (res deleted) = 200
  /\ lists (db deleted) = lists s
  /\ cards (db deleted) = cards s
  /\ findBoard boardId (boards (db deleted)) = Some board.
Proof.
  intros Hboard Hmember Hperm Hadmin Hfresh Hcards Hname _ _ created deleted.
  subst deleted created. unfold ListController.createList.
  rewrite Hboard, Hmember, Hperm. simpl.
  set (position' := match position with
                    | Some p => p
                    | None => match findLastPosition boardId (lists s) with
                              | Some maxPosition => maxPosition + 1
                              | None => 0
                              end
                    end).
  set (shifted := match position with
                  | Some p => updateMany
                                (fun d => inScope boardId d && (p <=? l_position d))
                                (incPosition 1) (lists s)
                  | None => lists s
                  end).
  set (new := ListDoc newId (JsString.trim (capitalizeWords name)) boardId
                position' 0 false).
  assert (Hcreated :
            forall conn' errs,
              let created := Result (Response 201 true "List created successfully" (PList new))
                               (Store (workspaces s) (saveBoard (addLists 1 board) (boards s))
                                  (shifted ++ [new]) (cards s)) conn' errs in
              let deleted := ListController.deleteList (db created) (broker created)
                               adminId newId in
              r_status (res created) = 201 /\ r_status (res deleted) = 200
              /\ lists (db deleted) = lists s
              /\ cards (db deleted) = cards s
              /\ findBoard boardId (boards (db deleted)) = Some board).
  { intros conn' errs. simpl. unfold ListController.deleteList. simpl.
    assert (Hids : map l_id shifted = map l_id (lists s)).
    { unfold shifted. destruct position; [apply updateMany_ids, incPosition_id | reflexivity]. }
    assert (Hfresh' : findList newId shifted = None).
    { apply findList_None. rewrite Hids. apply findList_None, Hfresh. }
    assert (Hnew : findList newId (shifted ++ [new]) = Some new).
    { unfold findList in *. rewrite (find_app_None _ _ _ Hfresh'). simpl.
      unfold hasId. simpl. rewrite String.eqb_refl. reflexivity. }
    rewrite Hnew. simpl.
    rewrite (findBoard_saveBoard boardId (boards s) board (addLists 1 board) Hboard eq_refl).
    change (hasPermission (addLists 1 board) adminId "admin")
      with (hasPermission board adminId "admin").
    rewrite Hadmin. simpl.
    destruct (countCards_none newId false (cards s) Hcards) as [-> Hkeep]. simpl.
    split; [reflexivity|]. split; [reflexivity|].
    split; [|split; [exact Hkeep|]].
    - unfold updateMany.
      rewrite map_app, List.filter_app. cbn [map List.filter].
      change (List.filter (fun d => negb (hasId newId d))
                (map (closeGap boardId position') shifted)
              ++ (if negb (hasId newId (closeGap boardId position' new))
                  then [closeGap boardId position' new] else [])
              = lists s).
      assert (Hlast : negb (hasId newId (closeGap boardId position' new)) = false).
      { unfold hasId. rewrite closeGap_id. simpl. rewrite String.eqb_refl. reflexivity. }
      rewrite Hlast, app_nil_r.
      rewrite filter_keep_all.
      + transitivity (map (fun d : listDoc => d) (lists s)); [|apply map_id].
        unfold shifted. destruct position as [p|].
        * unfold updateMany. rewrite map_map. apply map_ext. intros d.
          unfold closeGap, position'.
          destruct (inScope boardId d) eqn:Hs; simpl; [|rewrite Hs; reflexivity].
          destruct (Z.leb_spec p (l_position d)); simpl.
          -- change (inScope boardId (incPosition 1 d)) with (inScope boardId d).
             rewrite Hs. simpl.
             destruct (Z.ltb_spec p (l_position d + 1)); [|lia].
             apply incPosition_inverse.
          -- rewrite Hs. simpl.
             destruct (Z.ltb_spec p (l_position d)); [lia | reflexivity].
        * apply map_ext_in. intros d Hd. apply list_elem_of_In in Hd.
          unfold closeGap, position'.
          destruct (inScope boardId d) eqn:Hs; simpl; [|reflexivity].
          destruct (findLastPosition_bound boardId (lists s) d Hd Hs) as (m & -> & Hm).
          destruct (Z.ltb_spec (m + 1) (l_position d)); [lia | reflexivity].
      + intros d Hd. apply list_elem_of_fmap in Hd as (d0 & -> & Hd0).
        unfold hasId. rewrite closeGap_id. apply negb_true_iff, String.eqb_neq.
        intros Heq. apply findList_None in Hfresh'. apply Hfresh'.
        rewrite <- Heq. apply list_elem_of_fmap. eauto.
    - rewrite addLists_inverse.
      apply (findBoard_saveBoard boardId _ (addLists 1 board)); [|reflexivity].
      apply (findBoard_saveBoard boardId _ board); [exact Hboard | reflexivity]. }
  destruct position as [p|]; simpl; rewrite Hname; simpl;
    destruct (tryPublish conn now uuid "list.created" _ _) as [conn' errs];
    apply Hcreated.
Qed.

Lemma create_then_delete_restores_witness :
  lists (db (ListController.deleteList
               (db (ListController.createList (fun name => name) "" "t0" "m1" "n1"
                      sampleStore None "bob" "Inbox" "B" (Some 1)))
               None "ann" "n1"))
  = lists sampleStore.
Proof.
  assert (Hcards : forall c, c ∈ cards sampleStore -> c_listId c <> "n1")
    by (intros c Hc; inversion Hc).
  destruct (create_then_delete_restores (fun name => name) "" "t0" "m1" "n1"
              sampleStore None "bob" "ann" "Inbox" "B" (Some 1) sampleBoard
              eq_refl eq_refl eq_refl eq_refl eq_refl Hcards
              eq_refl eq_refl eq_refl)
    as (_ & _ & Hlists & _).
  exact Hlists.
Defined.

Lemma findList_map (G : listDoc -> listDoc) listId docs :
  (forall d, l_id (G d) = l_id d) ->
  findList listId (map G docs) = G <$> findList listId docs.
Proof.
  intros Hid. unfold findList. induction docs as [|d docs IH]; simpl; [reflexivity|].
  unfold hasId at 1. rewrite Hid. fold (hasId listId d).
  destruct (hasId listId d); [reflexivity | exact IH].
Qed.

Lemma moveList_lists s conn userId listId newPosition list board :
  findList listId (lists s) = Some list ->
  findBoard (l_boardId list) (boards s) = Some board ->
  hasPermission board userId "member" = true ->
  l_position list <> newPosition ->
  db (ListController.moveList s conn userId listId newPosition)
  = Store (workspaces s) (boards s)
      (map (moveUpdate (l_boardId list) listId (l_position list) newPosition)
         (lists s))
      (cards s).
Proof.
  intros Hfind Hboard Hperm Hne. unfold ListController.moveList.
  rewrite Hfind, Hboard, Hperm. simpl.
  destruct (Z.eqb_spec (l_position list) newPosition); [contradiction|]. simpl.
  f_equal. unfold updateMany, moveUpdate.
  destruct (l_position list <? newPosition); rewrite map_map; reflexivity.
Qed.

Lemma moveUpdate_other b listId old new d :
  hasId listId d = false ->
  moveUpdate b listId old new d
  = if inScope b d then setPosition (movedPosition old new (l_position d)) d else d.
Proof.
  intros Hid. destruct (inScope b d) eqn:Hs.
  - destruct d as [i n bd p c a].
    unfold moveUpdate, movedPosition, setPosition, incPosition. rewrite Hs, Hid.
    cbn [l_position negb andb].
    destruct (old <? new).
    + destruct ((old <? p) && (p <=? new)); cbn [andb];
        unfold hasId in *; cbn [l_id] in *; rewrite Hid; [f_equal; lia | reflexivity].
    + destruct ((new <=? p) && (p <? old)); cbn [andb];
        unfold hasId in *; cbn [l_id] in *; rewrite Hid; reflexivity.
  - apply moveUpdate_out_of_scope; assumption.
Qed.

Lemma movedPosition_back old new p :
  p <> old -> movedPosition new old (movedPosition old new p) = p.
Proof.
  intros Hp. unfold movedPosition.
  destruct (Z.ltb_spec old new), (Z.ltb_spec new old); try lia.
  - destruct (Z.ltb_spec old p), (Z.leb_spec p new); cbn [andb]; cases_Z; lia.
  - destruct (Z.leb_spec new p), (Z.ltb_spec p old); cbn [andb]; cases_Z; lia.
  - destruct (Z.leb_spec new p), (Z.ltb_spec p old); cbn [andb]; cases_Z; lia.
Qed.

Lemma moveUpdate_back b listId old new d :
  hasId listId d = false ->
  (inScope b d = true -> l_position d <> old) ->
  moveUpdate b listId new old (moveUpdate b listId old new d) = d.
Proof.
  intros Hid Hpos. rewrite (moveUpdate_other b listId old new d Hid).
  destruct (inScope b d) eqn:Hs.
  - rewrite moveUpdate_other by exact Hid.
    change (inScope b (setPosition (movedPosition old new (l_position d)) d))
      with (inScope b d).
    rewrite Hs. cbn [l_position setPosition].
    rewrite (movedPosition_back old new _ (Hpos eq_refl)).
    destruct d. reflexivity.
  - rewrite moveUpdate_other by exact Hid. rewrite Hs. reflexivity.
Qed.

Lemma setPosition_back list new :
  setPosition (l_position list) (setPosition new list) = list.
Proof. destruct list. reflexivity. Qed.

(** X17. Moving a live list to another position and then back to where
    it was restores the store exactly, whatever the other position is, as
    long as the collection is ordered. *)
Theorem move_and_back_restores (s : store) conn (userId listId : string)
    (newPosition : Z) (list : listDoc) (board : board) :
  ordered (lists s) ->
  findList listId (lists s) = Some list ->
  l_isArchived list = false ->
  findBoard (l_boardId list) (boards s) = Some board ->
  hasPermission board userId "member" = true ->
  let moved := ListController.moveList s conn userId listId newPosition in
  let back := ListController.moveList (db moved) (broker moved) userId listId
                (l_position list) in
  db back = s.
Proof.
  intros [Hnd Hc] Hfind Harch Hboard Hperm moved back. subst back moved.
  destruct (Z.eq_dec (l_position list) newPosition) as [Heq|Hne].
  { assert (Hnoop : db (ListController.moveList s conn userId listId newPosition) = s).
    { unfold ListController.moveList. rewrite Hfind, Hboard, Hperm. simpl.
      rewrite (proj2 (Z.eqb_eq _ _) Heq). reflexivity. }
    rewrite Hnoop. unfold ListController.moveList.
    rewrite Hfind, Hboard, Hperm. simpl. rewrite Z.eqb_refl. reflexivity. }
  rewrite (moveList_lists s conn userId listId newPosition list board
             Hfind Hboard Hperm Hne).
  set (G := moveUpdate (l_boardId list) listId (l_position list) newPosition).
  destruct (split_by_id _ _ _ Hnd Hfind) as (pre & post & Hdocs & Hid & Hothers).
  assert (Hmoved : findList listId (map G (lists s))
                   = Some (setPosition newPosition list)).
  { rewrite findList_map by (intros d; apply moveUpdate_id).
    rewrite Hfind. simpl. unfold G.
    rewrite (moveUpdate_moved _ _ _ _ _ (hasId_true _ _ Hid)). reflexivity. }
  rewrite (moveList_lists _ _ userId listId (l_position list)
             (setPosition newPosition list) board); simpl;
    [|exact Hmoved | exact Hboard | exact Hperm | congruence].
  destruct s as [ws bs ls cs]. simpl in *. f_equal.
  rewrite map_map.
  transitivity (map (fun d : listDoc => d) ls); [|apply map_id].
  apply map_ext_in. intros d Hd. apply list_elem_of_In in Hd.
  destruct (hasId listId d) eqn:Hd_id.
  - assert (d = list).
    { apply String.eqb_eq in Hd_id.
      pose proof (findList_unique _ _ Hnd Hd) as Hfound.
      rewrite Hd_id, Hfind in Hfound. congruence. }
    subst d. unfold G.
    rewrite (moveUpdate_moved _ _ _ _ _ Hd_id).
    rewrite moveUpdate_moved by exact Hd_id. apply setPosition_back.
  - apply moveUpdate_back; [exact Hd_id|].
    intros Hscope Hsame.
    specialize (Hc (l_boardId list)) as [Hnodup _].
    rewrite Hdocs in Hnodup, Hd.
    rewrite positions_app, positions_cons in Hnodup.
    assert (Hlist : inScope (l_boardId list) list = true)
      by (unfold inScope; rewrite String.eqb_refl, Harch; reflexivity).
    rewrite Hlist in Hnodup. simpl in Hnodup.
    apply NoDup_app in Hnodup as (_ & Hdisj & Hpost).
    apply NoDup_cons in Hpost as [Hfresh _].
    assert (Hin : forall part, d ∈ part ->
              l_position list ∈ positions (l_boardId list) part).
    { intros part Hpart. rewrite <- Hsame. unfold positions.
      apply list_elem_of_fmap. exists d. split; [reflexivity|].
      apply list_elem_of_In, filter_In.
      split; [apply list_elem_of_In; exact Hpart | exact Hscope]. }
    apply elem_of_app in Hd as [Hd|Hd].
    + apply (Hdisj _ (Hin pre Hd)). left.
    + apply elem_of_cons in Hd as [->|Hd].
      * apply hasId_true in Hid. congruence.
      * exact (Hfresh (Hin post Hd)).
Qed.

Lemma move_and_back_restores_witness :
  db (ListController.moveList
        (db (ListController.moveList sampleStore None "bob" "d" 1))
        None "bob" "d" 3)
  = sampleStore.
Proof.
  assert (Hord : ordered (lists sampleStore)).
  { split.
    - apply (bool_decide_unpack _). vm_compute. exact I.
    - intros b. apply compact_contiguous.
      unfold positions, sampleStore, inScope. cbn -[String.eqb seqZ].
      destruct (String.eqb "B" b); vm_compute; reflexivity. }
  exact (move_and_back_restores sampleStore None "bob" "d" 1
           (ListDoc "d" "Done" "B" 3 0 false) sampleBoard
           Hord eq_refl eq_refl eq_refl eq_refl).
Defined.

(** X18. [deleteList] never deletes a list that still has live cards:
    with at least one the store is left as it is and the request fails.
    When it succeeds, the list is gone, every card of the list is gone
    with it (archived ones too), the cards of other lists are all still
    there, and the ids of the remaining lists are the former ids without
    the deleted one. *)
Theorem deleteList_guard (s : store) conn (userId listId : string) :
  let r := ListController.deleteList s conn userId listId in
  (0 < countCards listId false (cards s) ->
   db r = s /\ r_success (res r) = false)
  /\ (r_success (res r) = true ->
      findList listId (lists (db r)) = None
      /\ cardsOf listId (cards (db r)) = []
      /\ (forall c, c ∈ cards s -> c_listId c <> listId -> c ∈ cards (db r))
      /\ map l_id (lists (db r))
         = List.filter (fun i => negb (String.eqb i listId)) (map l_id (lists s))).
Proof.
  intros r. subst r. unfold ListController.deleteList.
  destruct (findList listId (lists s)) as [list|];
    [|split; [intros _; split; reflexivity | discriminate]].
  destruct (findBoard (l_boardId list) (boards s)) as [board|];
    [|split; [intros _; split; reflexivity | discriminate]].
  destruct (negb (hasPermission board userId "admin"));
    [split; [intros _; split; reflexivity | discriminate]|].
  destruct (Z.ltb_spec 0 (countCards listId false (cards s))) as [Hpos|Hzero];
    [split; [intros _; split; reflexivity | discriminate]|].
  split; [lia|]. intros _. simpl.
  fold (closeGap (l_boardId list) (l_position list)).
  assert (Hids : map l_id
                   (List.filter (fun d => negb (hasId listId d))
                      (updateMany (fun d => inScope (l_boardId list) d
                                            && (l_position list <? l_position d))
                         (incPosition (-1)) (lists s)))
                 = List.filter (fun i => negb (String.eqb i listId))
                     (map l_id (lists s))).
  { unfold updateMany. fold (closeGap (l_boardId list) (l_position list)).
    induction (lists s) as [|d docs IH]; simpl; [reflexivity|].
    unfold hasId at 1. rewrite closeGap_id.
    destruct (String.eqb (l_id d) listId); simpl; [exact IH|].
    rewrite closeGap_id, IH. reflexivity. }
  split; [|split; [|split; [|exact Hids]]].
  - apply findList_None. rewrite Hids. intros Hin.
    apply list_elem_of_In, filter_In in Hin as [_ Hin].
    rewrite String.eqb_refl in Hin. discriminate.
  - clear Hzero. unfold cardsOf.
    induction (cards s) as [|c cs IH]; simpl; [reflexivity|].
    destruct (String.eqb (c_listId c) listId) eqn:Hc; simpl; [exact IH|].
    rewrite Hc. exact IH.
  - intros c Hc Hne. apply list_elem_of_In, filter_In.
    split; [apply list_elem_of_In; exact Hc|].
    apply negb_true_iff, String.eqb_neq. exact Hne.
Qed.

Lemma deleteList_guard_witness :
  db (ListController.deleteList
        (Store [] [sampleBoard] (lists sampleStore) [CardDoc "k1" "a" false])
        None "ann" "a")
  = Store [] [sampleBoard] (lists sampleStore) [CardDoc "k1" "a" false].
Proof.
  destruct (deleteList_guard
              (Store [] [sampleBoard] (lists sampleStore) [CardDoc "k1" "a" false])
              None "ann" "a") as [Hguard _].
  apply Hguard. vm_compute. reflexivity.
Defined.

Lemma findBoard_saveBoard_permission boardId docs b b' userId role :
  findBoard boardId docs = Some b -> b_id b' = b_id b ->
  b_owner b' = b_owner b -> b_members b' = b_members b ->
  exists b'', findBoard boardId (saveBoard b' docs) = Some b''
              /\ hasPermission b'' userId role = hasPermission b userId role.
Proof.
  intros Hfind Hid Hown Hmem. exists b'.
  split; [apply (findBoard_saveBoard _ _ b); assumption|].
  unfold hasPermission. rewrite Hown, Hmem. reflexivity.
Qed.

(** X19. Archiving a list archives its cards, and unarchiving the list
    does not bring them back: after a successful [archiveList], the
    [unarchiveList] of the same list by the same user succeeds, the list
    is live again, every card of the list is still archived, and the
    cards of other lists are as they were. *)
Theorem unarchive_leaves_cards_archived (s : store) conn (userId listId : string) :
  let a := ListController.archiveList s conn userId listId in
  let u := unarchiveList (db a) userId listId in
  r_success (res a) = true ->
  u_success u = true
  /\ (exists l, findList listId (lists (u_db u)) = Some l /\ l_isArchived l = false)
  /\ (forall c, c ∈ cards (u_db u) -> c_listId c = listId -> c_isArchived c = true)
  /\ (forall c, c ∈ cards s -> c_listId c <> listId -> c ∈ cards (u_db u)).
Proof.
  intros a u. subst u a. unfold ListController.archiveList.
  destruct (findList listId (lists s)) as [list|] eqn:Hfind; [|discriminate].
  destruct (findBoard (l_boardId list) (boards s)) as [board|] eqn:Hboard;
    [|discriminate].
  destruct (hasPermission board userId "member") eqn:Hperm; [|discriminate].
  destruct (l_isArchived list) eqn:Harch; [discriminate|].
  intros _. simpl.
  pose proof (findList_Some _ _ _ Hfind) as [_ Hid].
  set (cards' := updateMany
                   (fun c => String.eqb (c_listId c) listId && negb (c_isArchived c))
                   archiveCard (cards s)).
  set (lists' := updateMany
                   (fun d => inScope (l_boardId list) d
                             && (l_position list <? l_position d))
                   (incPosition (-1))
                   (updateMany (hasId listId) (setArchived true) (lists s))).
  assert (Hfound : findList listId lists' = Some (setArchived true list)).
  { unfold lists'. rewrite !findList_updateMany by reflexivity.
    rewrite Hfind. simpl. rewrite (hasId_true _ _ Hid). unfold inScope. simpl.
    rewrite andb_false_r. reflexivity. }
  unfold unarchiveList. simpl. rewrite Hfound. simpl.
  destruct (findBoard_saveBoard_permission (l_boardId list) (boards s) board
              (addCards (- countCards listId true cards') (addLists (-1) board))
              userId "member" Hboard eq_refl eq_refl eq_refl)
    as (board'' & -> & ->).
  rewrite Hperm. simpl.
  split; [reflexivity|]. split; [|split].
  - eexists. rewrite findList_updateMany by reflexivity.
    rewrite Hfound. simpl. unfold hasId. simpl.
    rewrite (proj2 (String.eqb_eq _ _) Hid). split; reflexivity.
  - intros c Hc Hlist. unfold cards', updateMany in Hc.
    apply list_elem_of_fmap in Hc as (c0 & -> & Hc0).
    destruct (String.eqb (c_listId c0) listId && negb (c_isArchived c0)) eqn:Hcond;
      [reflexivity|].
    apply andb_false_iff in Hcond as [Hcond|Hcond].
    + apply String.eqb_neq in Hcond. contradiction.
    + apply negb_false_iff. exact Hcond.
  - intros c Hc Hne. unfold cards', updateMany.
    apply list_elem_of_fmap. exists c. split; [|exact Hc].
    apply String.eqb_neq in Hne. rewrite Hne. reflexivity.
Qed.

Lemma unarchive_leaves_cards_archived_witness :
  u_success (unarchiveList
               (db (ListController.archiveList
                      (Store [] [sampleBoard] (lists sampleStore)
                         [CardDoc "k1" "a" false; CardDoc "k2" "b" false])
                      None "bob" "a"))
               "bob" "a") = true.
Proof.
  destruct (unarchive_leaves_cards_archived
              (Store [] [sampleBoard] (lists sampleStore)
                 [CardDoc "k1" "a" false; CardDoc "k2" "b" false])
              None "bob" "a" eq_refl) as (Hsuccess & _).
  exact Hsuccess.
Defined.

(** X20. A list operation works on one board only: with unique list ids,
    every list of another board than the one the operation is about is in
    the store afterwards exactly as it was. *)
Theorem other_boards_untouched (capitalizeWords : string -> string)
    (s : store) (o : operation) (d : listDoc) :
  NoDup (map l_id (lists s)) ->
  d ∈ lists s ->
  targetBoard s o <> Some (l_boardId d) ->
  d ∈ lists (perform capitalizeWords s o).
Proof.
  intros Hnd Hd Htarget.
  assert (Hout : forall b, b <> l_boardId d -> inScope b d = false).
  { intros b Hb. unfold inScope.
    destruct (String.eqb_spec (l_boardId d) b); [congruence | reflexivity]. }
  assert (Hother : forall listId list,
             findList listId (lists s) = Some list ->
             l_boardId list <> l_boardId d -> hasId listId d = false).
  { intros listId list Hfind Hb. apply hasId_false. intros Hid.
    pose proof (findList_unique _ _ Hnd Hd) as Hfound.
    rewrite Hid, Hfind in Hfound. congruence. }
  destruct o as [newId userId name boardId position
                |userId listId newPosition|userId listId|userId listId];
    unfold perform; simpl in Htarget.
  - unfold ListController.createList.
    destruct (findBoard boardId (boards s)) as [board|]; [|exact Hd].
    destruct (negb (isMember board userId)); [exact Hd|].
    destruct (negb (hasPermission board userId "member")); [exact Hd|].
    assert (Hb : boardId <> l_boardId d) by congruence.
    assert (Hshift : forall p,
               d ∈ updateMany (fun d => inScope boardId d && (p <=? l_position d))
                     (incPosition 1) (lists s)).
    { intros p. unfold updateMany. apply list_elem_of_fmap. exists d.
      split; [|exact Hd]. rewrite (Hout boardId Hb). reflexivity. }
    destruct position as [p|]; simpl;
      destruct (negb (validName (JsString.trim (capitalizeWords name)))); simpl;
      try (apply elem_of_app; left); try exact Hd; apply Hshift.
  - unfold ListController.moveList.
    destruct (findList listId (lists s)) as [list|] eqn:Hfind; [|exact Hd].
    destruct (findBoard (l_boardId list) (boards s)) as [board|]; [|exact Hd].
    destruct (negb (hasPermission board userId "member")); [exact Hd|].
    destruct (l_position list =? newPosition); [exact Hd|].
    simpl in *. assert (Hb : l_boardId list <> l_boardId d) by congruence.
    unfold updateMany.
    destruct (l_position list <? newPosition); rewrite map_map;
      apply list_elem_of_fmap; exists d; (split; [|exact Hd]);
      rewrite (Hout _ Hb); simpl; rewrite (Hother _ _ Hfind Hb); reflexivity.
  - unfold ListController.archiveList.
    destruct (findList listId (lists s)) as [list|] eqn:Hfind; [|exact Hd].
    destruct (findBoard (l_boardId list) (boards s)) as [board|]; [|exact Hd].
    destruct (negb (hasPermission board userId "member")); [exact Hd|].
    destruct (l_isArchived list); [exact Hd|].
    simpl in *. assert (Hb : l_boardId list <> l_boardId d) by congruence.
    unfold updateMany. rewrite map_map.
    apply list_elem_of_fmap. exists d. split; [|exact Hd].
    rewrite (Hother _ _ Hfind Hb), (Hout _ Hb). reflexivity.
  - unfold ListController.deleteList.
    destruct (findList listId (lists s)) as [list|] eqn:Hfind; [|exact Hd].
    destruct (findBoard (l_boardId list) (boards s)) as [board|]; [|exact Hd].
    destruct (negb (hasPermission board userId "admin")); [exact Hd|].
    destruct (0 <? countCards listId false (cards s)); [exact Hd|].
    simpl in *. assert (Hb : l_boardId list <> l_boardId d) by congruence.
    apply list_elem_of_In, filter_In. split.
    + apply list_elem_of_In. unfold updateMany.
      apply list_elem_of_fmap. exists d. split; [|exact Hd].
      rewrite (Hout _ Hb). reflexivity.
    + rewrite (Hother _ _ Hfind Hb). reflexivity.
Qed.

Lemma other_boards_untouched_witness :
  ListDoc "z" "Elsewhere" "C" 0 0 false
  ∈ lists (perform (fun name => name)
             (Store [] [sampleBoard]
                (ListDoc "z" "Elsewhere" "C" 0 0 false :: lists sampleStore) [])
             (MoveList "bob" "d" 0)).
Proof.
  apply (other_boards_untouched (fun name => name)
           (Store [] [sampleBoard]
              (ListDoc "z" "Elsewhere" "C" 0 0 false :: lists sampleStore) [])
           (MoveList "bob" "d" 0)).
  - apply (bool_decide_unpack _). vm_compute. exact I.
  - left.
  - vm_compute. discriminate.
Defined.

(** ** Properties: rooms of a session *)

Lemma handleAll_cons socket ev rest :
  (Socket.handleAll socket (ev :: rest)).1
  = (Socket.handleAll (Socket.handle socket ev).1 rest).1.
Proof.
  simpl. destruct (Socket.handle socket ev) as [socket1 out1]. simpl.
  destruct (Socket.handleAll socket1 rest) as [socket2 out2]. reflexivity.
Qed.

Lemma userRoom_inj u v : Socket.userRoom u = Socket.userRoom v -> u = v.
Proof. unfold Socket.userRoom. apply (inj (String.app "user:")). Qed.

Lemma boardRoom_inj a b : Socket.boardRoom a = Socket.boardRoom b -> a = b.
Proof. unfold Socket.boardRoom. apply (inj (String.app "board:")). Qed.

Lemma handle_userId socket ev :
  Socket.userId (Socket.handle socket ev).1 = Socket.userId socket.
Proof.
  destruct ev; simpl; try reflexivity.
  - destruct (Socket.currentBoard socket) as [previous|]; simpl; [|reflexivity].
    destruct (negb (String.eqb previous "") && negb (String.eqb previous boardId));
      reflexivity.
  - destruct (Socket.typingTimer socket); reflexivity.
  - destruct (Socket.currentBoard socket) as [board|]; simpl; [|reflexivity].
    destruct (negb (String.eqb board "")); reflexivity.
Qed.

#[local] Set Warnings "-clear-no-such-hyp".

Lemma handle_oneBoardRoom socket ev :
  ev <> Socket.disconnect ->
  oneBoardRoom socket -> disciplined socket ev ->
  oneBoardRoom (Socket.handle socket ev).1.
Proof.
  intros Hlive (Hown & Hsub & Hne) Hd. unfold oneBoardRoom.
  rewrite handle_userId. split; [apply personal_room_kept; assumption|].
  pose proof (fun b => boardRoom_not_userRoom b (Socket.userId socket)) as Hdiff.
  unfold currentRoom in *.
  destruct ev as [boardId|boardId|data|data| |]; simpl in *;
    try (split; assumption).
  - destruct (Socket.currentBoard socket) as [previous|] eqn:Hcur; simpl.
    + destruct (String.eqb_spec previous "") as [->|_]; [contradiction|]. simpl.
      destruct (String.eqb_spec previous boardId) as [->|_]; simpl.
      * split; [set_solver | congruence].
      * split; [set_solver | congruence].
    + split; [set_solver | congruence].
  - split; [|discriminate].
    destruct Hd as [Hcur|Hcur]; rewrite Hcur in Hsub; set_solver.
  - destruct (Socket.typingTimer socket); simpl; split; assumption.
  - contradiction.
Qed.

Lemma connected_cons ev evs :
  connected (ev :: evs) = true -> ev <> Socket.disconnect /\ connected evs = true.
Proof.
  unfold connected. simpl. intros Hlive. apply andb_true_iff in Hlive as [Hev Hrest].
  split; [|exact Hrest]. intros ->. discriminate.
Qed.

Lemma handleAll_oneBoardRoom evs : forall socket,
  connected evs = true ->
  oneBoardRoom socket -> disciplinedAll socket evs ->
  oneBoardRoom (Socket.handleAll socket evs).1.
Proof.
  induction evs as [|ev evs IH]; intros socket Hlive Hone Hd; [exact Hone|].
  rewrite handleAll_cons. destruct Hd as [Hev Hrest].
  apply connected_cons in Hlive as [Hlive Hlive'].
  apply IH; [exact Hlive' | apply handle_oneBoardRoom; assumption | exact Hrest].
Qed.

Lemma boardRooms_current socket :
  oneBoardRoom socket -> Socket.boardRooms socket ⊆ currentRoom socket.
Proof.
  intros (_ & Hsub & _) room Hroom. unfold Socket.boardRooms in Hroom.
  apply elem_of_filter in Hroom as [Hprefix Hin].
  apply Hsub in Hin. apply elem_of_union in Hin as [Hin|Hin]; [|exact Hin].
  apply elem_of_singleton in Hin. subst room. discriminate Hprefix.
Qed.

Lemma handleAll_userId evs : forall socket,
  Socket.userId (Socket.handleAll socket evs).1 = Socket.userId socket.
Proof.
  induction evs as [|ev evs IH]; intros socket; [reflexivity|].
  rewrite handleAll_cons, IH. apply handle_userId.
Qed.

(** X21. A connected session whose client names boards by non-empty ids
    and only ever leaves the board it is on is, after any sequence of
    events, in at most one board room, that of its current board, beside
    its personal room; so it receives no broadcast to the room of any
    other board. *)
Theorem disciplined_session_one_board_room (userId userName : string)
    (evs : list Socket.event) :
  connected evs = true ->
  disciplinedAll (Socket.connect userId userName) evs ->
  let socket := (Socket.handleAll (Socket.connect userId userName) evs).1 in
  (size (Socket.boardRooms socket) <= 1)%nat
  /\ Socket.boardRooms socket ⊆ currentRoom socket
  /\ Socket.userRoom userId ∈ Socket.rooms socket
  /\ (forall event boardId data e,
        Socket.currentBoard socket <> Some boardId ->
        e ∈ Broadcast.toBoard event boardId data ->
        ~ Broadcast.receives socket e).
Proof.
  intros Hlive Hd socket.
  assert (Hstart : oneBoardRoom (Socket.connect userId userName)).
  { unfold oneBoardRoom, currentRoom. simpl. split; [apply elem_of_singleton; reflexivity|].
    split; [apply union_subseteq_l | discriminate]. }
  pose proof (handleAll_oneBoardRoom evs _ Hlive Hstart Hd) as Hone.
  fold socket in Hone.
  pose proof (boardRooms_current socket Hone) as Hsub.
  assert (Huser : Socket.userId socket = userId)
    by (unfold socket; apply handleAll_userId).
  destruct Hone as (Hown & Hrooms & Hne). rewrite Huser in Hown, Hrooms.
  split; [|split; [exact Hsub | split; [exact Hown|]]].
  - transitivity (size (currentRoom socket)); [apply subseteq_size; exact Hsub|].
    unfold currentRoom. destruct (Socket.currentBoard socket).
    + rewrite size_singleton. lia.
    + rewrite size_empty. lia.
  - intros event boardId data e Hcur He Hrecv.
    apply list_elem_of_singleton in He. subst e.
    unfold Broadcast.receives in Hrecv. simpl in Hrecv.
    apply Hrooms, elem_of_union in Hrecv as [Hrecv|Hrecv].
    + apply elem_of_singleton in Hrecv.
      exact (boardRoom_not_userRoom _ _ Hrecv).
    + unfold currentRoom in Hrecv.
      destruct (Socket.currentBoard socket) as [current|].
      * apply elem_of_singleton, boardRoom_inj in Hrecv. congruence.
      * apply elem_of_empty in Hrecv. exact Hrecv.
Qed.

Lemma disciplined_session_one_board_room_witness :
  (size (Socket.boardRooms
           (Socket.handleAll (Socket.connect "u1" "Ann")
              [Socket.join_board "A"; Socket.join_board "C";
               Socket.leave_board "C"; Socket.join_board "A"]).1) <= 1)%nat.
Proof.
  apply (disciplined_session_one_board_room "u1" "Ann"
           [Socket.join_board "A"; Socket.join_board "C";
            Socket.leave_board "C"; Socket.join_board "A"]).
  - reflexivity.
  - vm_compute. repeat split; try discriminate. right. reflexivity.
Defined.

Lemma handle_rooms socket ev room :
  room ∈ Socket.rooms (Socket.handle socket ev).1 ->
  room ∈ Socket.rooms socket \/ exists boardId, room = Socket.boardRoom boardId.
Proof.
  destruct ev as [boardId|boardId|data|data| |]; simpl; auto.
  - destruct (Socket.currentBoard socket) as [previous|]; simpl.
    + destruct (negb (String.eqb previous "") && negb (String.eqb previous boardId));
        simpl; intros Hroom; apply elem_of_union in Hroom as [Hroom|Hroom].
      * apply elem_of_difference in Hroom as [Hroom _]. left. exact Hroom.
      * apply elem_of_singleton in Hroom. right. eauto.
      * left. exact Hroom.
      * apply elem_of_singleton in Hroom. right. eauto.
    + intros Hroom. apply elem_of_union in Hroom as [Hroom|Hroom]; [auto|].
      apply elem_of_singleton in Hroom. right. eauto.
  - intros Hroom. apply elem_of_difference in Hroom as [Hroom _]. auto.
  - destruct (Socket.typingTimer socket); simpl; auto.
  - destruct (Socket.currentBoard socket) as [board|]; simpl;
      [destruct (negb (String.eqb board "")); simpl|];
      intros Hroom; try (apply elem_of_difference in Hroom as [Hroom _]);
      apply elem_of_empty in Hroom; contradiction.
Qed.

Lemma handleAll_ownRooms evs : forall socket,
  ownRooms socket -> ownRooms (Socket.handleAll socket evs).1.
Proof.
  induction evs as [|ev evs IH]; intros socket Hown; [exact Hown|].
  rewrite handleAll_cons. apply IH. intros room Hroom.
  rewrite handle_userId.
  apply handle_rooms in Hroom as [Hroom|Hroom]; [apply Hown, Hroom | right; exact Hroom].
Qed.

Lemma handleAll_personal_room evs : forall socket,
  connected evs = true ->
  Socket.userRoom (Socket.userId socket) ∈ Socket.rooms socket ->
  Socket.userRoom (Socket.userId socket) ∈ Socket.rooms (Socket.handleAll socket evs).1.
Proof.
  induction evs as [|ev evs IH]; intros socket Hlive Hin; [exact Hin|].
  rewrite handleAll_cons. apply connected_cons in Hlive as [Hlive Hlive'].
  destruct (personal_room_kept socket ev Hlive Hin) as [Hid Hkept].
  rewrite <- Hid. apply IH; [exact Hlive'|]. rewrite Hid. exact Hkept.
Qed.

(** X22. What is sent to a user's personal room reaches the connected
    sessions of that user and of nobody else, whatever the sessions have
    handled since they connected: the personal notice of
    [card_assigned], [board_member_added] and [board_member_removed] is
    received by a session exactly when the session is that of the user
    concerned. And nothing a session broadcasts when it joins
    or leaves a board, types, or disconnects, is addressed to a personal
    room. *)
Theorem personal_room_is_private (userId userName : string)
    (evs : list Socket.event) (Hlive : connected evs = true) :
  let socket := (Socket.handleAll (Socket.connect userId userName) evs).1 in
  (forall v event data,
      Broadcast.receives socket (Socket.Emission (Socket.userRoom v) event data)
      <-> v = userId)
  /\ (forall notice boardId v data e,
        notice ∈ [Broadcast.card_assigned; Broadcast.board_member_added;
                  Broadcast.board_member_removed] ->
        last (notice boardId v data) = Some e ->
        (Broadcast.receives socket e <-> v = userId))
  /\ (forall s ev e,
        e ∈ (Socket.handle s ev).2 ->
        exists boardId, Socket.e_room e = Socket.boardRoom boardId).
Proof.
  intros socket.
  assert (Hprivate : forall v event data,
             Broadcast.receives socket
               (Socket.Emission (Socket.userRoom v) event data)
             <-> v = userId).
  { intros v event data. unfold Broadcast.receives. simpl. split.
    - intros Hin.
      assert (Hown : ownRooms (Socket.connect userId userName)).
      { intros room Hroom. left. simpl in *.
        apply elem_of_singleton in Hroom. exact Hroom. }
      apply (handleAll_ownRooms evs) in Hown. fold socket in Hown.
      destruct (Hown _ Hin) as [Heq|[b Heq]].
      + unfold socket in Heq. rewrite handleAll_userId in Heq.
        exact (userRoom_inj _ _ Heq).
      + exfalso. symmetry in Heq. exact (boardRoom_not_userRoom _ _ Heq).
    - intros ->.
      apply (handleAll_personal_room evs (Socket.connect userId userName) Hlive).
      simpl. apply elem_of_singleton. reflexivity. }
  split; [exact Hprivate|]. split.
  - intros notice boardId v data e Hnotice Hlast.
    repeat (apply elem_of_cons in Hnotice as [->|Hnotice]);
      [| | |inversion Hnotice];
      injection Hlast as <-; apply Hprivate.
  - intros s ev e He.
    destruct ev as [boardId|boardId|data|data| |]; simpl in He;
      repeat match type of He with
             | context [Socket.currentBoard s] =>
                 destruct (Socket.currentBoard s); simpl in He
             | context [Socket.typingTimer s] =>
                 destruct (Socket.typingTimer s); simpl in He
             | context [if ?b then _ else _] => destruct b; simpl in He
             end;
      repeat (apply elem_of_cons in He as [->|He]); simpl; eauto;
      inversion He.
Qed.

Lemma personal_room_is_private_witness :
  Broadcast.receives
    (Socket.handleAll (Socket.connect "u1" "Ann")
       [Socket.join_board "A"; Socket.leave_board "A"]).1
    (Socket.Emission (Socket.userRoom "u1") "card_assigned_to_you" []).
Proof.
  destruct (personal_room_is_private "u1" "Ann"
              [Socket.join_board "A"; Socket.leave_board "A"] eq_refl)
    as (_ & Hassigned & _).
  apply (Hassigned Broadcast.card_assigned "A" "u1" [] _); [|reflexivity..].
  apply elem_of_cons. left. reflexivity.
Defined.

(** ** Properties: the typing timer *)

Lemma start_typing_burst (ds : list Socket.typing) (d : Socket.typing) :
  forall socket,
    Socket.typingTimer
      (Socket.handleAll socket (map Socket.start_typing (ds ++ [d]))).1 = Some d.
Proof.
  induction ds as [|d0 ds IH]; intros socket.
  - reflexivity.
  - change (map Socket.start_typing ((d0 :: ds) ++ [d]))
      with (Socket.start_typing d0 :: map Socket.start_typing (ds ++ [d])).
    rewrite handleAll_cons. apply IH.
Qed.

(** X23. However many [start_typing] events a session sends in a row, one
    timer is pending afterwards, that of the last event: when it expires
    it broadcasts one "stopped typing" for that event's card, and a second
    expiry broadcasts nothing; after [stop_typing] no expiry broadcasts
    anything. *)
Theorem typing_timer_fires_once (socket : Socket.session)
    (ds : list Socket.typing) (d : Socket.typing) :
  let typing := (Socket.handleAll socket (map Socket.start_typing (ds ++ [d]))).1 in
  Socket.typingTimer typing = Some d
  /\ (Socket.handle typing Socket.typing_timeout).2 = [Socket.stoppedTyping socket d]
  /\ (Socket.handle (Socket.handle typing Socket.typing_timeout).1
        Socket.typing_timeout).2 = []
  /\ (forall d',
        (Socket.handle (Socket.handle typing (Socket.stop_typing d')).1
           Socket.typing_timeout).2 = []).
Proof.
  intros typing.
  pose proof (start_typing_burst ds d socket) as Htimer. fold typing in Htimer.
  pose proof (handleAll_userId (map Socket.start_typing (ds ++ [d])) socket) as Hid.
  fold typing in Hid.
  destruct typing as [uid uname rooms board timer]. simpl in *. subst timer uid.
  repeat split.
Qed.

(** ** Properties: the slug loop of [createWorkspace] *)

Lemma uniqueSlug_Some docs baseSlug fuel : forall k slug,
  WorkspaceController.uniqueSlug docs baseSlug (candidate baseSlug k) (S k) fuel
    = Some slug ->
  exists j, (j < fuel)%nat
    /\ slug = candidate baseSlug (k + j)
    /\ WorkspaceController.slugTaken docs slug = false
    /\ forall i, (i < j)%nat ->
         WorkspaceController.slugTaken docs (candidate baseSlug (k + i)) = true.
Proof.
  induction fuel as [|fuel IH]; intros k slug Hloop; [discriminate|].
  simpl in Hloop.
  destruct (WorkspaceController.slugTaken docs (candidate baseSlug k)) eqn:Htaken.
  - apply (IH (S k)) in Hloop as (j & Hj & -> & Hfree & Hbefore).
    exists (S j). replace (k + S j)%nat with (S k + j)%nat by lia.
    split; [lia|]. split; [reflexivity|]. split; [exact Hfree|].
    intros [|i] Hi.
    + rewrite Nat.add_0_r. exact Htaken.
    + replace (k + S i)%nat with (S k + i)%nat by lia. apply Hbefore. lia.
  - injection Hloop as <-. exists 0%nat. rewrite Nat.add_0_r.
    split; [lia|]. split; [reflexivity|]. split; [exact Htaken|].
    intros i Hi. lia.
Qed.

Lemma uniqueSlug_first docs baseSlug j : forall k fuel,
  (j < fuel)%nat ->
  WorkspaceController.slugTaken docs (candidate baseSlug (k + j)) = false ->
  (forall i, (i < j)%nat ->
     WorkspaceController.slugTaken docs (candidate baseSlug (k + i)) = true) ->
  WorkspaceController.uniqueSlug docs baseSlug (candidate baseSlug k) (S k) fuel
    = Some (candidate baseSlug (k + j)).
Proof.
  induction j as [|j IH]; intros k fuel Hfuel Hfree Hbefore;
    (destruct fuel as [|fuel]; [lia|]); simpl.
  - rewrite Nat.add_0_r in Hfree. rewrite Hfree, Nat.add_0_r. reflexivity.
  - pose proof (Hbefore 0%nat ltac:(lia)) as Htaken.
    rewrite Nat.add_0_r in Htaken. rewrite Htaken.
    replace (k + S j)%nat with (S k + j)%nat in * by lia.
    apply (IH (S k)); [lia | exact Hfree |].
    intros i Hi. replace (S k + i)%nat with (k + S i)%nat by lia.
    apply Hbefore. lia.
Qed.

(** X24. The slug loop of [createWorkspace] ends after at most one more
    test than there are workspaces, and a longer run changes nothing. Its
    result is the first of [baseSlug], [baseSlug-1], [baseSlug-2], ... that
    no workspace has, so it is a slug of no stored workspace. *)
Theorem uniqueSlug_first_free (docs : list workspace) (baseSlug : string) :
  exists k,
    (k <= length docs)%nat
    /\ (forall more,
          WorkspaceController.uniqueSlug docs baseSlug baseSlug 1
            (S (length docs) + more) = Some (candidate baseSlug k))
    /\ (candidate baseSlug k ∉ map w_slug docs)
    /\ (forall i, (i < k)%nat -> candidate baseSlug i ∈ map w_slug docs).
Proof.
  destruct (uniqueSlug_total docs baseSlug) as [slug Hloop].
  apply (uniqueSlug_Some docs baseSlug _ 0%nat) in Hloop
    as (k & Hk & -> & Hfree & Hbefore).
  change (0 + k)%nat with k in Hfree.
  assert (Hbefore' : forall i, (i < k)%nat ->
            WorkspaceController.slugTaken docs (candidate baseSlug i) = true)
    by exact Hbefore.
  exists k. split; [lia|]. split; [|split].
  - intros more.
    exact (uniqueSlug_first docs baseSlug k 0%nat (S (length docs) + more)
             ltac:(lia) Hfree Hbefore).
  - intros Hin. apply list_elem_of_fmap in Hin as (w & Heq & Hw).
    unfold WorkspaceController.slugTaken in Hfree.
    assert (Hex : existsb (fun w => String.eqb (w_slug w) (candidate baseSlug k)) docs
                  = true).
    { apply existsb_exists. exists w. split; [apply list_elem_of_In; exact Hw|].
      apply String.eqb_eq. symmetry. exact Heq. }
    congruence.
  - intros i Hi. apply slugTaken_elem. apply Hbefore'. exact Hi.
Qed.

(** ** Properties: the string helpers *)

Lemma lowerChar_idem c :
  JsString.lowerChar (JsString.lowerChar c) = JsString.lowerChar c.
Proof. each_char c. Qed.

Lemma lowerChar_space c :
  JsString.isSpace (JsString.lowerChar c) = JsString.isSpace c.
Proof. each_char c. Qed.

Lemma upperWordChar_word c :
  StringHelpers.isWord c = true ->
  StringHelpers.isWord (StringHelpers.upperWordChar c) = true.
Proof. each_char c. Qed.

Lemma upperWordChar_idem c :
  StringHelpers.upperWordChar (StringHelpers.upperWordChar c)
  = StringHelpers.upperWordChar c.
Proof. each_char c. Qed.

Lemma slugLetter_lower c :
  slugLetter c = true -> JsString.lowerChar c = c.
Proof. each_char c. Qed.

Lemma slugLetter_slugChar c :
  slugLetter c = true -> StringHelpers.slugChar c = true.
Proof. each_char c. Qed.

Lemma slugLetter_space c :
  slugLetter c = true -> JsString.isSpace c = false.
Proof. each_char c. Qed.

Lemma slugChar_not_space c :
  StringHelpers.slugChar c = true -> JsString.isSpace c = false ->
  slugLetter c = true.
Proof. each_char c. Qed.

Lemma isDash_eq c : StringHelpers.isDash c = true -> c = "-"%char.
Proof. apply Ascii.eqb_eq. Qed.

Lemma allChars_filterString p s :
  allChars p (StringHelpers.filterString p s) = true.
Proof.
  induction s as [|c s IH]; simpl; [reflexivity|].
  destruct (p c) eqn:Hp; simpl; [rewrite Hp|]; exact IH.
Qed.

Lemma allChars_spaces_replaced s : forall inRun,
  allChars StringHelpers.slugChar s = true ->
  allChars slugLetter
    (StringHelpers.replaceRuns JsString.isSpace "-" inRun s) = true.
Proof.
  induction s as [|c s IH]; intros inRun Hall; simpl in *; [reflexivity|].
  apply andb_true_iff in Hall as [Hc Hall].
  destruct (JsString.isSpace c) eqn:Hspace.
  - destruct inRun; simpl; apply IH; exact Hall.
  - simpl. rewrite (slugChar_not_space c Hc Hspace). apply IH. exact Hall.
Qed.

Lemma allChars_dashes_replaced s : forall inRun,
  allChars slugLetter s = true ->
  allChars slugLetter
    (StringHelpers.replaceRuns StringHelpers.isDash "-" inRun s) = true.
Proof.
  induction s as [|c s IH]; intros inRun Hall; simpl in *; [reflexivity|].
  apply andb_true_iff in Hall as [Hc Hall].
  destruct (StringHelpers.isDash c) eqn:Hdash.
  - destruct inRun; simpl; apply IH; exact Hall.
  - simpl. rewrite Hc. apply IH. exact Hall.
Qed.

Lemma noDoubleDash_replaced s : forall inRun,
  noDoubleDash (StringHelpers.replaceRuns StringHelpers.isDash "-" inRun s) = true
  /\ (inRun = true ->
      startsWithDash
        (StringHelpers.replaceRuns StringHelpers.isDash "-" inRun s) = false).
Proof.
  induction s as [|c s IH]; intros inRun; simpl; [auto|].
  destruct (StringHelpers.isDash c) eqn:Hdash.
  - destruct inRun.
    + apply IH.
    + simpl. destruct (IH true) as [Hno Hstart].
      rewrite Hno, (Hstart eq_refl). split; [reflexivity|discriminate].
  - simpl. rewrite Hdash. simpl. destruct (IH false) as [Hno _].
    split; [exact Hno|reflexivity].
Qed.

Lemma trimEnd_no_space s :
  allChars slugLetter s = true -> JsString.trimEnd s = s.
Proof.
  induction s as [|c s IH]; simpl; [reflexivity|].
  intros Hall. apply andb_true_iff in Hall as [Hc Hall].
  rewrite (IH Hall). destruct s; [|reflexivity].
  rewrite (slugLetter_space c Hc). reflexivity.
Qed.

Lemma trim_no_space s :
  allChars slugLetter s = true -> JsString.trim s = s.
Proof.
  intros Hall. unfold JsString.trim.
  assert (Hstart : JsString.trimStart s = s).
  { destruct s as [|c s]; [reflexivity|]. simpl in *.
    apply andb_true_iff in Hall as [Hc _].
    rewrite (slugLetter_space c Hc). reflexivity. }
  rewrite Hstart. apply trimEnd_no_space. exact Hall.
Qed.

Lemma toLowerCase_slug s :
  allChars slugLetter s = true -> JsString.toLowerCase s = s.
Proof.
  induction s as [|c s IH]; simpl; [reflexivity|].
  intros Hall. apply andb_true_iff in Hall as [Hc Hall].
  unfold JsString.toLowerCase in *. simpl.
  rewrite (slugLetter_lower c Hc), (IH Hall). reflexivity.
Qed.

Lemma filterString_slug s :
  allChars slugLetter s = true ->
  StringHelpers.filterString StringHelpers.slugChar s = s.
Proof.
  induction s as [|c s IH]; simpl; [reflexivity|].
  intros Hall. apply andb_true_iff in Hall as [Hc Hall].
  rewrite (slugLetter_slugChar c Hc), (IH Hall). reflexivity.
Qed.

Lemma replace_spaces_slug s :
  allChars slugLetter s = true ->
  StringHelpers.replaceRuns JsString.isSpace "-" false s = s.
Proof.
  induction s as [|c s IH]; simpl; [reflexivity|].
  intros Hall. apply andb_true_iff in Hall as [Hc Hall].
  rewrite (slugLetter_space c Hc), (IH Hall). reflexivity.
Qed.

Lemma replace_dashes_slug s : forall inRun,
  noDoubleDash s = true ->
  (inRun = true -> startsWithDash s = false) ->
  StringHelpers.replaceRuns StringHelpers.isDash "-" inRun s = s.
Proof.
  induction s as [|c s IH]; intros inRun Hno Hstart; simpl in *; [reflexivity|].
  apply andb_true_iff in Hno as [Hpair Hno].
  destruct (StringHelpers.isDash c) eqn:Hdash.
  - destruct inRun; [specialize (Hstart eq_refl); discriminate|].
    rewrite (isDash_eq c Hdash). f_equal. apply IH; [exact Hno|].
    intros _. simpl in Hpair. apply negb_true_iff in Hpair. exact Hpair.
  - f_equal. apply IH; [exact Hno|]. intros Hfalse. discriminate.
Qed.

Lemma generateSlug_isSlug text : isSlug (StringHelpers.generateSlug text) = true.
Proof.
  unfold StringHelpers.generateSlug.
  set (kept := StringHelpers.filterString StringHelpers.slugChar
                 (JsString.toLowerCase text)).
  assert (Hall : allChars slugLetter
            (StringHelpers.replaceRuns StringHelpers.isDash "-" false
               (StringHelpers.replaceRuns JsString.isSpace "-" false kept))
            = true).
  { apply allChars_dashes_replaced, allChars_spaces_replaced.
    apply allChars_filterString. }
  rewrite (trim_no_space _ Hall). unfold isSlug. rewrite Hall. simpl.
  apply noDoubleDash_replaced.
Qed.

Lemma generateSlug_of_slug s :
  isSlug s = true -> StringHelpers.generateSlug s = s.
Proof.
  unfold isSlug. intros Hslug. apply andb_true_iff in Hslug as [Hall Hno].
  unfold StringHelpers.generateSlug.
  rewrite (toLowerCase_slug s Hall), (filterString_slug s Hall),
    (replace_spaces_slug s Hall).
  rewrite (replace_dashes_slug s false Hno) by discriminate.
  apply trim_no_space. exact Hall.
Qed.

(** X25. [generateSlug] returns small letters, digits and single dashes
    only, whatever the text, and the texts it returns unchanged are the
    ones of that form: so it changes nothing when applied to its own
    result, and a dash at either end stays, the argument of its [trim]
    having no effect. *)
Theorem generateSlug_form (text : string) :
  isSlug (StringHelpers.generateSlug text) = true
  /\ (StringHelpers.generateSlug text = text <-> isSlug text = true).
Proof.
  split; [apply generateSlug_isSlug|]. split.
  - intros Heq. rewrite <- Heq. apply generateSlug_isSlug.
  - apply generateSlug_of_slug.
Qed.

Lemma capitalize_idem s : forall inMatch,
  StringHelpers.capitalize inMatch (StringHelpers.capitalize inMatch s)
  = StringHelpers.capitalize inMatch s.
Proof.
  induction s as [|c s IH]; intros inMatch; simpl; [reflexivity|].
  destruct inMatch.
  - destruct (JsString.isSpace c) eqn:Hspace; simpl.
    + rewrite Hspace, IH. reflexivity.
    + rewrite lowerChar_space, Hspace, lowerChar_idem, IH. reflexivity.
  - destruct (StringHelpers.isWord c) eqn:Hword; simpl.
    + rewrite (upperWordChar_word c Hword), upperWordChar_idem, IH. reflexivity.
    + rewrite Hword, IH. reflexivity.
Qed.

Lemma capitalize_spaces s : forall inMatch,
  StringHelpers.filterString JsString.isSpace
    (StringHelpers.capitalize inMatch s)
  = StringHelpers.filterString JsString.isSpace s.
Proof.
  induction s as [|c s IH]; intros inMatch; simpl; [reflexivity|].
  destruct inMatch.
  - destruct (JsString.isSpace c) eqn:Hspace; simpl.
    + rewrite Hspace, IH. reflexivity.
    + rewrite lowerChar_space, Hspace, IH. reflexivity.
  - destruct (StringHelpers.isWord c) eqn:Hword; simpl.
    + assert (Hup : JsString.isSpace (StringHelpers.upperWordChar c) = false)
        by (revert Hword; clear; each_char c).
      assert (Hsp : JsString.isSpace c = false)
        by (revert Hword; clear; each_char c).
      rewrite Hup, Hsp, IH. reflexivity.
    + rewrite IH. reflexivity.
Qed.

(** X26. [capitalizeWords] keeps the white space of the text, character
    by character, and applied to its own result it changes nothing. *)
Theorem capitalizeWords_idempotent (text : string) :
  StringHelpers.filterString JsString.isSpace
    (StringHelpers.capitalizeWords text)
  = StringHelpers.filterString JsString.isSpace text
  /\ StringHelpers.capitalizeWords (StringHelpers.capitalizeWords text)
     = StringHelpers.capitalizeWords text.
Proof.
  split; [apply capitalize_spaces | apply capitalize_idem].
Qed.

Lemma substring_prefix n : forall s,
  (n <= String.length s)%nat ->
  String.length (String.substring 0 n s) = n
  /\ exists rest, s = String.substring 0 n s +:+ rest.
Proof.
  induction n as [|n IH]; intros s Hn.
  - destruct s; simpl; (split; [reflexivity|eauto]).
  - destruct s as [|c s]; simpl in *; [lia|].
    destruct (IH s ltac:(lia)) as [Hlen [rest Hrest]].
    split; [rewrite Hlen; reflexivity|].
    exists rest.
    change (String c s = String c (String.substring 0 n s +:+ rest)).
    f_equal. exact Hrest.
Qed.

Lemma length_app_string s : forall t,
  String.length (s +:+ t) = (String.length s + String.length t)%nat.
Proof.
  induction s as [|c s IH]; intros t; simpl; [reflexivity|].
  rewrite IH. reflexivity.
Qed.

(** X27. When the text is longer than [maxLength], [truncate] returns a
    beginning of the text followed by the suffix; the beginning has
    [maxLength] less the length of the suffix characters, or none when
    that is negative. So the result has [maxLength] characters when the
    suffix has at most that many, and otherwise it is the suffix alone,
    longer than [maxLength]. *)
Theorem truncate_cut (text : string) (maxLength : Z) (suffix : string)
    (Hlong : maxLength < Z.of_nat (String.length text)) :
  exists kept rest,
    text = kept +:+ rest
    /\ StringHelpers.truncate text maxLength suffix = kept +:+ suffix
    /\ Z.of_nat (String.length kept)
       = Z.max 0 (maxLength - Z.of_nat (String.length suffix))
    /\ Z.of_nat (String.length (StringHelpers.truncate text maxLength suffix))
       = Z.max maxLength (Z.of_nat (String.length suffix)).
Proof.
  unfold StringHelpers.truncate.
  destruct (Z.leb_spec (Z.of_nat (String.length text)) maxLength) as [Hle|_]; [lia|].
  set (n := Z.to_nat (maxLength - Z.of_nat (String.length suffix))).
  destruct (substring_prefix n text ltac:(unfold n; lia)) as [Hlen [rest Hrest]].
  exists (String.substring 0 n text), rest.
  split; [exact Hrest|]. split; [reflexivity|].
  rewrite length_app_string, Hlen. unfold n. lia.
Qed.

Lemma truncate_cut_witness :
  exists kept rest,
    "Quarterly planning" = kept +:+ rest
    /\ StringHelpers.truncate "Quarterly planning" 2 "..." = kept +:+ "..."
    /\ Z.of_nat (String.length kept) = Z.max 0 (2 - 3)
    /\ Z.of_nat (String.length (StringHelpers.truncate "Quarterly planning" 2 "..."))
       = Z.max 2 3.
Proof.
  apply (truncate_cut "Quarterly planning" 2 "..."). vm_compute. reflexivity.
Defined.
